(** * Verification of the m-lab ETL pipeline core

    A shallow embedding of the parts of the ETL repository that its
    specification makes checkable statements about:

    - [Row], [RowBase] : package row (Buffer, Stats / ActiveStats, Base)
    - [Storage], [StorageSource] : package storage (ETLSource.NextTest
      and its retry loops, NewETLSource, Close)
    - [Dedup], [DedupTables], [DedupRun] : package dedup (checkDetails,
      WaitForJob, getTableParts, getTable, CheckAndDedup,
      ProcessTablesMatching)
    - [Etl], [EtlData] : package etl (TaskPattern, ValidateTestPath,
      GetMetroName, the data types, CalculateIPDistance)
    - [Switch]     : package parser  (getSummaryFromSample)
    - [Sidestream] : package parser  (ParseKHeader)

    Go's [int], [int64] and [time.Duration] are 64-bit two's complement
    integers; they are modelled as [Z] with the wrap-around written out. *)

From Stdlib Require Import ZArith List String Ascii Bool Lia.
From Stdlib Require Import Floats.SpecFloat.
From Stdlib.Strings Require Import Byte.
From stdpp Require Import base option list strings gmap.

Import ListNotations.
Local Open Scope Z_scope.

(** ** Go machine integers *)

Module GoInt.

Definition min_int64 : Z := - 2 ^ 63.
Definition max_int64 : Z := 2 ^ 63 - 1.

(** The value a 64-bit signed register holds after an operation whose
    mathematical result is [z]. *)
Definition wrap64 (z : Z) : Z := (z + 2 ^ 63) mod 2 ^ 64 - 2 ^ 63.

Definition add64 (a b : Z) : Z := wrap64 (a + b).
Definition sub64 (a b : Z) : Z := wrap64 (a - b).
Definition mul64 (a b : Z) : Z := wrap64 (a * b).

Definition in_int64 (z : Z) : Prop := min_int64 <= z <= max_int64.

End GoInt.

(** ** Package row: Buffer and ActiveStats (row/row.go) *)

Module Row.
Import GoInt.

(** *** Stats *)

Record Stats : Type := mkStats
    { Buffered : Z;   (* rows buffered but not yet sent *)
      Pending : Z;    (* previously buffered rows that are being committed *)
      Committed : Z;
      Failed : Z }.

(** [func (s Stats) Total() int] *)
Definition Total (s : Stats) : Z :=
    add64 (add64 (add64 (Buffered s) (Pending s)) (Committed s)) (Failed s).

(** The zero value of [ActiveStats]. The lock only serialises the calls:
    a call sequence is the order in which the lock was taken. Each
    operation returns the new counters and the lines it wrote with
    [log.Println]; the debug-level lines of [logx.Debug] are left out. *)
Definition zeroStats : Stats := mkStats 0 0 0 0.

(** [func (as *ActiveStats) MoveToPending(n int)] *)
Definition MoveToPending (n : Z) (s : Stats) : Stats * list string :=
    let b := sub64 (Buffered s) n in
    let log := if b <? 0 then ["BROKEN - negative buffered"%string] else [] in
    (mkStats b (add64 (Pending s) n) (Committed s) (Failed s), log).

(** [func (as *ActiveStats) Inc()] *)
Definition Inc (s : Stats) : Stats * list string :=
    (mkStats (add64 (Buffered s) 1) (Pending s) (Committed s) (Failed s), []).

(** [func (as *ActiveStats) Done(n int, err error)]; only whether [err]
    is nil matters. *)
Definition Done (n : Z) (err_is_nil : bool) (s : Stats) : Stats * list string :=
    let p := sub64 (Pending s) n in
    let log := if p <? 0 then ["BROKEN: negative Pending"%string] else [] in
    if err_is_nil
    then (mkStats (Buffered s) p (add64 (Committed s) n) (Failed s), log)
    else (mkStats (Buffered s) p (Committed s) (add64 (Failed s) n), log).

(** A call of one of the three updating methods. The counts handed to
    [MoveToPending] and [Done] are numbers of rows ([len(rows)] and the
    number of rows the sink committed), hence natural numbers. *)
Inductive Call : Type :=
  | CInc
  | CMoveToPending (n : nat)
  | CDone (n : nat) (err_is_nil : bool).

Definition call (c : Call) (s : Stats) : Stats * list string :=
    match c with
    | CInc => Inc s
    | CMoveToPending n => MoveToPending (Z.of_nat n) s
    | CDone n e => Done (Z.of_nat n) e s
    end.

(** A call is legal when its count is at most what the counter it takes
    the rows from holds; [Inc] is legal while the number of rows handled
    still fits Go's [int]. *)
Definition legal (s : Stats) (c : Call) : Prop :=
    match c with
    | CInc => Buffered s + Pending s + Committed s + Failed s < max_int64
    | CMoveToPending n => Z.of_nat n <= Buffered s
    | CDone n _ => Z.of_nat n <= Pending s
    end.

(** The states visited by a call sequence, the starting state excluded. *)
Fixpoint run (s : Stats) (cs : list Call) : list Stats :=
    match cs with
    | [] => []
    | c :: cs' => let s' := fst (call c s) in s' :: run s' cs'
    end.

Fixpoint legal_seq (s : Stats) (cs : list Call) : Prop :=
    match cs with
    | [] => True
    | c :: cs' => legal s c /\ legal_seq (fst (call c s)) cs'
    end.

(** The lines logged along a call sequence. *)
Fixpoint run_log (s : Stats) (cs : list Call) : list string :=
    match cs with
    | [] => []
    | c :: cs' => snd (call c s) ++ run_log (fst (call c s)) cs'
    end.

Definition nonneg (s : Stats) : Prop :=
    0 <= Buffered s /\ 0 <= Pending s /\ 0 <= Committed s /\ 0 <= Failed s.

(** No counter is negative and their mathematical sum is an [int]. *)
Definition stats_ok (s : Stats) : Prop :=
    nonneg s /\ Buffered s + Pending s + Committed s + Failed s <= max_int64.

(** *** Buffer *)

Section Buffer.
Context {row : Type}.

Record Buffer : Type := mkBuffer
    { size : Z;            (* number of rows before starting new buffer *)
      rows : list row }.

(** [func NewBuffer(size int) *Buffer]; [make] panics on a negative
    capacity. *)
Definition NewBuffer (sz : Z) : option Buffer :=
    if sz <? 0 then None else Some (mkBuffer sz []).

(** [func (buf *Buffer) Append(row interface{}) []interface{}].
    [None] is the nil slice returned when the row fitted. *)
Definition Append (r : row) (buf : Buffer) : Buffer * option (list row) :=
    if Z.of_nat (length (rows buf)) <? size buf
    then (mkBuffer (size buf) (rows buf ++ [r]), None)
    else (mkBuffer (size buf) [r], Some (rows buf)).

(** [func (buf *Buffer) Reset() []interface{}] *)
Definition Reset (buf : Buffer) : Buffer * list row :=
    (mkBuffer (size buf) [], rows buf).

(** Appending a sequence of rows, collecting what each call returned. *)
Fixpoint appends (rs : list row) (buf : Buffer)
    : Buffer * list (option (list row)) :=
    match rs with
    | [] => (buf, [])
    | r :: rs' =>
        let '(buf1, out) := Append r buf in
        let '(buf2, outs) := appends rs' buf1 in
        (buf2, out :: outs)
    end.

(** The non-empty batches among the values returned by [Append]. *)
Definition batches (outs : list (option (list row))) : list (list row) :=
    filter (fun b => b <> []) (omap id outs).

(** Everything handed back by the [Append]s of [rs] and a final [Reset],
    in call order. *)
Definition returned (rs : list row) (buf : Buffer) : list (list row) :=
    let '(buf1, outs) := appends rs buf in
    batches outs ++ [snd (Reset buf1)].

End Buffer.
Arguments Buffer : clear implicits.

End Row.

(** ** Go strings *)

Module GoStrings.
Local Open Scope string_scope.

(** [strings.HasPrefix] and [strings.HasSuffix] *)
Definition HasPrefix (s pre : string) : bool := String.prefix pre s.

Definition HasSuffix (s suf : string) : bool :=
    let n := String.length s in
    let m := String.length suf in
    if (m <=? n)%nat then String.eqb (substring (n - m) m s) suf else false.

(** [strings.Contains] *)
Fixpoint Contains (s substr : string) : bool :=
    if String.prefix substr s then true
    else match s with
         | EmptyString => false
         | String _ s' => Contains s' substr
         end.

(** [strings.ToLower] on the ASCII letters. Only tests for the ASCII
    suffix "gz" are made on its result here, and no other rune has [g] or
    [z] as its lower case. *)
Definition lower_ascii (c : ascii) : ascii :=
    let n := nat_of_ascii c in
    if ((65 <=? n) && (n <=? 90))%nat then ascii_of_nat (n + 32) else c.

Fixpoint ToLower (s : string) : string :=
    match s with
    | EmptyString => EmptyString
    | String c s' => String (lower_ascii c) (ToLower s')
    end.

End GoStrings.

(** ** Package storage: ETLSource (storage.go) *)

Module Storage.
Import GoInt GoStrings.
Local Open Scope string_scope.
Local Open Scope Z_scope.

(** Error values. [EOF] is the sentinel [io.EOF], recognised by identity;
    every other error is known by its message. *)
Inductive error : Type :=
  | EOF
  | ErrOversizeFile
  | ErrMsg (msg : string).

Definition is_EOF (e : error) : bool :=
    match e with EOF => true | _ => false end.

(** [err.Error()] *)
Definition Error (e : error) : string :=
    match e with
    | EOF => "EOF"
    | ErrOversizeFile => "Oversize file"
    | ErrMsg msg => msg
    end.

Definition bytes : Type := list byte.

(** The fields of [tar.Header] that the source reads. *)
Record Header : Type := mkHeader
    { Name : string;
      Size : Z;
      Typeflag : byte }.

(** [tar.TypeReg = '0'] *)
Definition TypeReg : byte := x30.

(** What the source does to the outside world, in order. *)
Inductive event : Type :=
  | EvNext                      (* rr.Next() *)
  | EvReadAll                   (* ioutil.ReadAll(rr) *)
  | EvGzipNewReader             (* gzip.NewReader(rr) *)
  | EvGzipReadAll               (* ioutil.ReadAll(zipReader) *)
  | EvSleep (d : Z)             (* time.Sleep(d) *)
  | EvRetryCount (table phase : string) (trial : Z) (kind : string)
                                (* metrics.GCSRetryCount...Inc() *)
  | EvWorkerState (table state : string) (delta : Z)
  | EvLog (line : string).

Section ETLSource.

(** The embedded [TarReader], as a state [reader] with the operations the
    source performs on it; each returns its result and the next state. *)
Context {reader : Type}.

Record TarReader : Type := mkTarReader
    { tr_Next : reader -> (error + Header) * reader;
      tr_ReadAll : reader -> (error + bytes) * reader;
      tr_GzipNewReader : reader -> option error * reader;
      tr_GzipReadAll : reader -> (error + bytes) * reader }.

(** [type ETLSource struct] *)
Record ETLSource : Type := mkETLSource
    { ops : TarReader;
      RetryBaseTime : Z;      (* the base time for backoff and retry *)
      TableBase : string }.

Variable rr : ETLSource.

(** Computations over the reader state that record their events. *)
Definition M (A : Type) : Type := reader -> A * reader * list event.

#[local] Instance M_ret : MRet M := fun A (a : A) s => (a, s, []).

#[local] Instance M_bind : MBind M := fun A B (f : A -> M B) (m : M A) s =>
    let '(a, s1, t1) := m s in
    let '(b, s2, t2) := f a s1 in
    (b, s2, (t1 ++ t2)%list).

Definition emit (e : event) : M unit := fun s => (tt, s, [e]).

Definition perform {A} (e : event) (op : reader -> A * reader) : M A :=
    fun s => let '(a, s1) := op s in (a, s1, [e]).

(** [func (rr *ETLSource) nextHeader(trial int)], which returns the
    header, whether to retry, and the error. *)
Definition nextHeader (trial : Z) : M (option Header * bool * option error) :=
    r ← perform EvNext (tr_Next (ops rr));
    match r with
    | inr h => mret (Some h, true, None)
    | inl err =>
        if is_EOF err then mret (None, false, Some err)
        else
          (if Contains (Error err) "unexpected EOF"
           then emit (EvRetryCount (TableBase rr) "next" trial "unexpected EOF")
           else emit (EvRetryCount (TableBase rr) "next" trial "other")) ;;
          emit (EvLog "nextHeader") ;;
          mret (None, true, Some err)
    end.

(** The common tail of [nextData]: what is done with the result of
    [ioutil.ReadAll]. *)
Definition readResult (phase : string) (trial : Z) (r : error + bytes)
    : M (option bytes * bool * option error) :=
    match r with
    | inl err =>
        (if Contains (Error err) "stream error"
         then emit (EvRetryCount (TableBase rr) phase trial "stream error")
         else emit (EvRetryCount (TableBase rr) phase trial "other error")) ;;
        emit (EvLog "nextData") ;;
        mret (None, true, Some err)
    | inr data => mret (Some data, false, None)
    end.

(** [func (rr *ETLSource) nextData(h *tar.Header, trial int)
      ([]byte, bool, error)] *)
Definition nextData (h : Header) (trial : Z)
    : M (option bytes * bool * option error) :=
    if HasSuffix (ToLower (Name h)) "gz" then
      z ← perform EvGzipNewReader (tr_GzipNewReader (ops rr));
      match z with
      | Some err =>
          if is_EOF err then mret (None, false, Some err)
          else
            emit (EvRetryCount (TableBase rr) "open zip" trial "zipReaderError") ;;
            emit (EvLog "zipReaderError") ;;
            mret (None, true, Some err)
      | None =>
          r ← perform EvGzipReadAll (tr_GzipReadAll (ops rr));
          readResult "read zip" trial r
      end
    else
      r ← perform EvReadAll (tr_ReadAll (ops rr));
      readResult "read" trial r.

(** The first [for] loop of [NextTest], entered with the values of [trial]
    and [delay] before the iteration. [fuel] bounds the number of
    iterations; the loop itself stops at the tenth trial, so that ten
    units are enough. [None] is returned when the fuel runs out. *)
Fixpoint headerLoop (fuel : nat) (trial delay : Z)
    : M (option (error + Header)) :=
    match fuel with
    | O => mret None
    | S fuel' =>
        let trial := add64 trial 1 in
        r ← nextHeader trial;
        match r with
        | (Some h, _, None) => mret (Some (inr h))
        | (_, retry, Some err) =>
            if negb retry || (10 <=? trial) then mret (Some (inl err))
            else
              let delay := mul64 delay 2 in
              emit (EvSleep delay) ;;
              headerLoop fuel' trial delay
        | (None, _, None) => mret None
        end
    end.

(** The second [for] loop of [NextTest]; it leaves through [break] with
    the data of the last [nextData]. *)
Fixpoint dataLoop (fuel : nat) (h : Header) (trial delay : Z)
    : M (option (option bytes)) :=
    match fuel with
    | O => mret None
    | S fuel' =>
        let trial := add64 trial 1 in
        r ← nextData h trial;
        match r with
        | (data, _, None) => mret (Some data)
        | (data, retry, Some err) =>
            if negb retry || (10 <=? trial) then mret (Some data)
            else
              let delay := mul64 delay 2 in
              emit (EvSleep delay) ;;
              dataLoop fuel' h trial delay
        end
    end.

(** The body of [NextTest] between the increment of the worker-state
    gauge and its deferred decrement. *)
Definition NextTest_body (fuel : nat) (maxSize : Z)
    : M (option (string * option bytes * option error)) :=
    hr ← headerLoop fuel 0 (RetryBaseTime rr);
    match hr with
    | None => mret None
    | Some (inl err) => mret (Some ("", None, Some err))
    | Some (inr h) =>
        if maxSize <? Size h
        then mret (Some (Name h, None, Some ErrOversizeFile))
        else if negb (Byte.eqb (Typeflag h) TypeReg)
        then mret (Some (Name h, None, None))
        else
          d ← dataLoop fuel h 0 (RetryBaseTime rr);
          match d with
          | None => mret None
          | Some data => mret (Some (Name h, data, None))
          end
    end.

(** [func (rr *ETLSource) NextTest(maxSize int64) (string, []byte, error)] *)
Definition NextTest_fuel (fuel : nat) (maxSize : Z)
    : M (option (string * option bytes * option error)) :=
    emit (EvWorkerState (TableBase rr) "read" 1) ;;
    res ← NextTest_body fuel maxSize;
    emit (EvWorkerState (TableBase rr) "read" (-1)) ;;
    mret res.

Definition NextTest (maxSize : Z)
    : M (option (string * option bytes * option error)) :=
    NextTest_fuel 10 maxSize.

End ETLSource.
Arguments TarReader : clear implicits.
Arguments ETLSource : clear implicits.

(** The durations slept and the number of calls of [Next] in a trace. *)
Definition sleeps_of (t : list event) : list Z :=
    omap (fun e => match e with EvSleep d => Some d | _ => None end) t.

Definition next_calls (t : list event) : nat :=
    List.length (omap (fun e => match e with EvNext => Some tt | _ => None end) t).

(** The delays of successive retries as the code produces them from the
    base delay: each is the double of the one before, the first the double
    of the base. *)
Definition backoffs (base : Z) : list Z :=
    map (fun k => wrap64 (base * 2 ^ Z.of_nat k)) (seq 1 9).

(** The answers of the first [n] calls of [Next] from the state [s] of
    the reader, and the state that they leave. *)
Fixpoint next_answers {reader : Type} (rr : ETLSource reader) (n : nat)
    (s : reader) : list (error + Header) * reader :=
    match n with
    | O => ([], s)
    | S n' =>
        let '(r, s1) := tr_Next (ops rr) s in
        let '(rs, s2) := next_answers rr n' s1 in
        (r :: rs, s2)
    end.

(** What is seen of a trial of the header phase that fails with [err]:
    the call of [Next], the count under the label of the error, and the
    line of the log. *)
Definition failedTrial {reader : Type} (rr : ETLSource reader) (trial : nat)
    (err : error) : list event :=
    [EvNext;
     EvRetryCount (TableBase rr) "next" (Z.of_nat trial)
       (if Contains (Error err) "unexpected EOF"
        then "unexpected EOF" else "other");
     EvLog "nextHeader"].

(** What is seen of the trials [trial], [trial] + 1, ... that fail with
    the errors [errs] and are retried: each is followed by a sleep, of the
    base delay doubled once per trial so far. *)
Fixpoint retriedTrials {reader : Type} (rr : ETLSource reader) (trial : nat)
    (errs : list error) : list event :=
    match errs with
    | [] => []
    | err :: rest =>
        (failedTrial rr trial err ++
         [EvSleep (wrap64 (RetryBaseTime rr * 2 ^ Z.of_nat trial))] ++
         retriedTrials rr (S trial) rest)%list
    end.

(** What is seen of the trial that ends the header phase: the call of
    [Next] alone when it answers a header or [io.EOF]. *)
Definition lastTrial {reader : Type} (rr : ETLSource reader) (trial : nat)
    (last : error + Header) : list event :=
    match last with
    | inr _ => [EvNext]
    | inl err => if is_EOF err then [EvNext] else failedTrial rr trial err
    end.

(** A reader that answers from a script: the results of the successive
    calls of each operation. When a script is used up, [Next] answers
    [io.EOF] and the reads answer no data. *)
Record script : Type := mkScript
    { s_next : list (error + Header);
      s_read : list (error + bytes);
      s_gzip : list (option error);
      s_gzread : list (error + bytes) }.

Definition scripted : TarReader script :=
    {| tr_Next := fun s =>
         match s_next s with
         | [] => (inl EOF, s)
         | r :: rest => (r, mkScript rest (s_read s) (s_gzip s) (s_gzread s))
         end;
       tr_ReadAll := fun s =>
         match s_read s with
         | [] => (inr [], s)
         | r :: rest => (r, mkScript (s_next s) rest (s_gzip s) (s_gzread s))
         end;
       tr_GzipNewReader := fun s =>
         match s_gzip s with
         | [] => (None, s)
         | r :: rest => (r, mkScript (s_next s) (s_read s) rest (s_gzread s))
         end;
       tr_GzipReadAll := fun s =>
         match s_gzread s with
         | [] => (inr [], s)
         | r :: rest => (r, mkScript (s_next s) (s_read s) (s_gzip s) rest)
         end |}.

(** [time.Millisecond] in nanoseconds, and the source built by
    [NewETLSource]: base delay 16 ms, table "invalid". *)
Definition Millisecond : Z := 1000000.

Definition scriptedSource : ETLSource script :=
    mkETLSource scripted (16 * Millisecond) "invalid".

End Storage.

(** ** Package dedup: checkDetails and WaitForJob *)

Module Dedup.
Import GoInt.

(** The package's error values; [ErrOther] stands for errors handed up
    from the BigQuery client. *)
Inductive error : Type :=
  | ErrNotRegularTable
  | ErrSrcOlderThanDest
  | ErrTooFewTasks
  | ErrTooFewTests
  | ErrOther (msg : string).

(** [type Detail struct] *)
Record Detail : Type := mkDetail
    { PartitionID : string;
      TaskFileCount : Z;
      TestCount : Z }.

(** *** float32

    IEEE 754 binary32 (24 bits of precision, exponents below 128), with the
    operations of the Standard Library's specification of floating-point
    arithmetic; all of them round to nearest, ties to even. *)

Definition float32 : Type := spec_float.

(** The conversion [float32(n)] of an integer. *)
Definition float32_of_int (n : Z) : float32 := binary_normalize 24 128 n 0 false.

Definition f32_mul : float32 -> float32 -> float32 := SFmul 24 128.
Definition f32_lt : float32 -> float32 -> bool := SFltb.
Definition f32_le : float32 -> float32 -> bool := SFleb.

(** The untyped constants [0.99] and [0.95] converted to float32: the
    float32 nearest to 99/100, respectively 95/100. *)
Definition f32_0_99 : float32 :=
    SFdiv 24 128 (float32_of_int 99) (float32_of_int 100).
Definition f32_0_95 : float32 :=
    SFdiv 24 128 (float32_of_int 95) (float32_of_int 100).

(** The warnings written with [log.Printf]. *)
Inductive warning : Type :=
  | FewerTaskFiles (src dest : Z)
  | FewerTests (src dest : Z).

(** [func checkDetails(srcDetail, destDetail Detail) error]: the warnings
    logged and the error returned ([None] is nil). *)
Definition checkDetails (srcDetail destDetail : Detail)
    : list warning * option error :=
    if f32_lt (float32_of_int (TaskFileCount srcDetail))
              (f32_mul f32_0_99 (float32_of_int (TaskFileCount destDetail)))
    then ([], Some ErrTooFewTasks)
    else
      let w1 := if TaskFileCount srcDetail <? TaskFileCount destDetail
                then [FewerTaskFiles (TaskFileCount srcDetail)
                                     (TaskFileCount destDetail)]
                else [] in
      if f32_lt (float32_of_int (TestCount srcDetail))
                (f32_mul f32_0_95 (float32_of_int (TestCount destDetail)))
      then (w1, Some ErrTooFewTests)
      else
        let w2 := if TestCount srcDetail <? TestCount destDetail
                  then [FewerTests (TestCount srcDetail) (TestCount destDetail)]
                  else [] in
        (w1 ++ w2, None).

(** The two conditions in exact arithmetic:
    [src >= 0.99 * dest] and [src >= 0.95 * dest]. *)
Definition enough_tasks_exact (src dest : Detail) : Prop :=
    99 * TaskFileCount dest <= 100 * TaskFileCount src.
Definition enough_tests_exact (src dest : Detail) : Prop :=
    95 * TestCount dest <= 100 * TestCount src.

(** The same two conditions as the code evaluates them, in float32. *)
Definition enough_tasks_f32 (src dest : Detail) : Prop :=
    f32_le (f32_mul f32_0_99 (float32_of_int (TaskFileCount dest)))
           (float32_of_int (TaskFileCount src)) = true.
Definition enough_tests_f32 (src dest : Detail) : Prop :=
    f32_le (f32_mul f32_0_95 (float32_of_int (TestCount dest)))
           (float32_of_int (TestCount src)) = true.

Definition is_nan (x : float32) : bool :=
    match x with S754_nan => true | _ => false end.

(** Agreement of the float32 comparison with the exact one for a pair of
    counts, and for all pairs of counts below [n]. *)
Definition agree (num : Z) (c : float32) (s d : Z) : bool :=
    Bool.eqb (f32_le (f32_mul c (float32_of_int d)) (float32_of_int s))
             (num * d <=? 100 * s).
Definition agree_below (n : nat) (num : Z) (c : float32) : bool :=
    forallb (fun d => forallb (fun s => agree num c (Z.of_nat s) (Z.of_nat d))
                              (seq 0 n))
            (seq 0 n).

(** *** WaitForJob *)

(** [time.Duration] counts nanoseconds. *)
Definition Millisecond : Z := 1000000.
Definition Second : Z := 1000 * Millisecond.

(** What [job.Status(ctx)] answers: an error, or a status that is still
    running or done (with the job's own error, if any). *)
Inductive JobStatus : Type :=
  | Running
  | Finished (err : option error).

Definition poll : Type := (error + JobStatus)%type.

(** The loop of [WaitForJob], run against the answers the job gives to the
    successive polls. It returns the durations slept, in order, and the
    value returned; [None] when the job is still running after the last
    answer of the script. *)
Fixpoint WaitForJob_loop (polls : list poll) (maxBackoff backoff previous : Z)
    : list Z * option (option error) :=
    match polls with
    | [] => ([], None)
    | inl err :: _ => ([], Some (Some err))
    | inr (Finished err) :: _ => ([], Some err)
    | inr Running :: rest =>
        let '(previous', backoff') :=
          if backoff <? maxBackoff
          then (backoff, add64 backoff previous)
          else (previous, backoff) in
        let '(sleeps, r) := WaitForJob_loop rest maxBackoff backoff' previous' in
        (backoff' :: sleeps, r)
    end.

(** [func WaitForJob(ctx, job, maxBackoff time.Duration) error] *)
Definition WaitForJob (polls : list poll) (maxBackoff : Z)
    : list Z * option (option error) :=
    WaitForJob_loop polls maxBackoff (10 * Millisecond) (10 * Millisecond).


End Dedup.

(** ** Package parser: the switch parser's summary (parser/switch.go) *)

Module Switch.
Import GoInt.
Local Open Scope string_scope.
Local Open Scope Z_scope.

(** [civil.Date] with its comparisons. *)
Record Date : Type := mkDate
    { Year : Z;
      Month : Z;
      Day : Z }.

Definition Before (d1 d2 : Date) : bool :=
    if negb (Year d1 =? Year d2) then Year d1 <? Year d2
    else if negb (Month d1 =? Month d2) then Month d1 <? Month d2
    else Day d1 <? Day d2.

Definition After (d1 d2 : Date) : bool := Before d2 d1.

(** The date when DISCOv2 was released, and the date when
    octets.local.rx/tx were fixed. *)
Definition discoV2DeploymentDate : Date := mkDate 2020 9 9.
Definition discoV2FixDate : Date := mkDate 2022 1 19.

(** A calendar date, and its position in the calendar as the number
    YYYYMMDD. *)
Definition valid_date (d : Date) : Prop :=
    1 <= Month d <= 12 /\ 1 <= Day d <= 31.

Definition yyyymmdd (d : Date) : Z := Year d * 10000 + Month d * 100 + Day d.

(** A floating-point sample value, and the conversion [int64(v)]: the
    fraction is discarded (truncation towards zero). Go leaves the result
    open when the value does not fit; amd64 then yields the smallest
    int64, also for infinities and NaN. *)
Definition float : Type := spec_float.

Definition truncate (v : float) : option Z :=
    match v with
    | S754_zero _ => Some 0
    | S754_finite s m e =>
        let a := if 0 <=? e then Z.pos m * 2 ^ e else Z.pos m / 2 ^ (- e) in
        Some (if s then - a else a)
    | _ => None
    end.

Definition int64_of_float (v : float) : Z :=
    match truncate v with
    | Some z => if (min_int64 <=? z) && (z <=? max_int64) then z else min_int64
    | None => min_int64
    end.

(** What truncated to an integer means: [z] is the integer part of the
    number that [v] denotes, the integer next to it in the direction of
    zero. A finite [v] denotes [m] * 2 ^ [e] with the sign [s], which is
    the quotient [num] / [den] of two positive integers; infinities and
    NaN have no integer part. *)
Definition truncation (v : float) (z : Z) : Prop :=
    match v with
    | S754_zero _ => z = 0
    | S754_finite s m e =>
        let num := Z.pos m * 2 ^ Z.max e 0 in
        let den := 2 ^ Z.max (- e) 0 in
        exists a : Z,
          z = (if s then - a else a) /\ a * den <= num < (a + 1) * den
    | _ => False
    end.

(** Modelled from the spec: the declaration of [schema.Sample] is not
    among the sources; the spec names its fields (a timestamp, a value
    and a counter), the code converts the value with [int64(...)] and
    stores the counter as it is. *)
Record Sample : Type := mkSample
    { Timestamp : Z;
      Value : float;
      Counter : Z }.

(** Modelled from the spec: the declaration of [schema.SwitchSummary] is
    not among the sources. The code reaches its integer fields by name
    through reflection, so the summary is the map from the names of these
    fields to their values. *)
Definition SwitchSummary : Type := gmap string Z.

(** [v.FieldByName(name).IsValid()] *)
Definition IsValid (A : SwitchSummary) (name : string) : bool :=
    bool_decide (is_Some (A !! name)).

Section Summary.

(** [strcase.ToCamel] of the library github.com/iancoleman/strcase. *)
Variable ToCamel : string -> string.

(** [func getSummaryFromSample(metric string, sample *schema.Sample,
      row *schema.SwitchRow, archiveDate civil.Date)], on the summary
    [row.A] that it updates. *)
Definition getSummaryFromSample (metric : string) (sample : Sample)
    (A : SwitchSummary) (archiveDate : Date) : SwitchSummary :=
    let delta := ToCamel metric in
    let counter := delta ++ "Counter" in
    if negb (IsValid A delta) || negb (IsValid A counter) then A
    else if (String.eqb metric "switch.octets.local.tx" ||
             String.eqb metric "switch.octets.local.rx") &&
            After archiveDate discoV2DeploymentDate &&
            Before archiveDate discoV2FixDate
    then <[counter := 0]> (<[delta := 0]> A)
    else <[counter := Counter sample]>
           (<[delta := int64_of_float (Value sample)]> A).

End Summary.

End Switch.

(** ** Package parser: the sidestream header (ParseKHeader) *)

Module Sidestream.
Local Open Scope string_scope.

(** A call either returns or panics. *)
Inductive outcome (A : Type) : Type :=
  | Return (a : A)
  | Panic (msg : string).
Arguments Return {A} a.
Arguments Panic {A} msg.

(** [strings.Split(s, sep)] for a separator of one byte. *)
Fixpoint Split (s : string) (sep : ascii) : list string :=
    match s with
    | EmptyString => [EmptyString]
    | String c s' =>
        if Ascii.eqb c sep then EmptyString :: Split s' sep
        else match Split s' sep with
             | [] => [String c EmptyString]
             | w :: ws => String c w :: ws
             end
    end.

(** The assignment [a[i] = x] to a slice: a run-time panic when [i] is
    not below the length. *)
Definition assign (a : list string) (i : nat) (x : string)
    : outcome (list string) :=
    if (i <? List.length a)%nat then Return (<[i := x]> a)
    else Panic "runtime error: index out of range".

Section ParseKHeader.

(** The embedded asset [web100.Asset("tcp-kis.txt")] ([None] when it is
    not found) and [web100.ParseWeb100Definitions], the table from legacy
    to canonical variable names; a name absent from a Go map reads as the
    empty string. *)
Variable Asset : option (list byte).
Variable ParseWeb100Definitions : list byte -> gmap string string.

(** The body of the [range] loop, from position [index] on. *)
Fixpoint assign_names (mapping : gmap string string) (web100_vars : list string)
    (index : nat) (var_names : list string) : outcome (list string) :=
    match web100_vars with
    | [] => Return var_names
    | name :: rest =>
        if (index =? 0)%nat then assign_names mapping rest (S index) var_names
        else
          match assign var_names (index - 1) name with
          | Panic msg => Panic msg
          | Return var_names1 =>
              let canonical := default EmptyString (mapping !! name) in
              let r := if negb (String.eqb canonical EmptyString)
                       then assign var_names1 (index - 1) canonical
                       else Return var_names1 in
              match r with
              | Panic msg => Panic msg
              | Return var_names2 =>
                  assign_names mapping rest (S index) var_names2
              end
          end
    end.

(** [func ParseKHeader(header string) ([]string, error)]; the error is
    given by its message. *)
Definition ParseKHeader (header : string)
    : outcome (list string * option string) :=
    let var_names : list string := [] in
    let web100_vars := Split header " " in
    match web100_vars with
    | [] => Panic "runtime error: index out of range"
    | first :: _ =>
        if negb (String.eqb first "K:")
        then Return (var_names, Some "Corrupted header")
        else
          match Asset with
          | None => Panic "tcp-kis.txt not found"
          | Some data =>
              let mapping := ParseWeb100Definitions data in
              match assign_names mapping web100_vars 0 var_names with
              | Panic msg => Panic msg
              | Return names => Return (names, None)
              end
          end
    end.

End ParseKHeader.

(** A header line: "K:" followed by the variable names, each preceded by
    a space. *)
Fixpoint words (names : list string) : string :=
    match names with
    | [] => EmptyString
    | name :: rest => " " ++ name ++ words rest
    end.

Definition k_header (names : list string) : string := "K:" ++ words names.

End Sidestream.

(** ** Go's regexp, for the patterns of package etl *)

Module Regexp.
Local Open Scope string_scope.

(** *** Runes

    The regexp package matches the UTF-8 text rune by rune; a byte that
    does not start a well-formed encoding counts as a rune of one byte
    (as [utf8.DecodeRuneInString] has it). *)

Definition byte_in (lo hi : nat) (b : option ascii) : bool :=
    match b with
    | Some a => ((lo <=? nat_of_ascii a) && (nat_of_ascii a <=? hi))%nat
    | None => false
    end.

Definition continuation (s : string) (i : nat) : bool :=
    byte_in 128 191 (String.get i s).

(** The number of bytes of the first rune of [s]. *)
Definition rune_width (s : string) : nat :=
    let b0 := String.get 0 s in
    let b1 := String.get 1 s in
    match b0 with
    | None => 0
    | Some _ =>
        if byte_in 0 127 b0 then 1
        else if byte_in 194 223 b0
        then (if continuation s 1 then 2 else 1)
        else if byte_in 224 224 b0
        then (if byte_in 160 191 b1 && continuation s 2 then 3 else 1)
        else if byte_in 225 236 b0 || byte_in 238 239 b0
        then (if continuation s 1 && continuation s 2 then 3 else 1)
        else if byte_in 237 237 b0
        then (if byte_in 128 159 b1 && continuation s 2 then 3 else 1)
        else if byte_in 240 240 b0
        then (if byte_in 144 191 b1 && continuation s 2 && continuation s 3
              then 4 else 1)
        else if byte_in 241 243 b0
        then (if continuation s 1 && continuation s 2 && continuation s 3
              then 4 else 1)
        else if byte_in 244 244 b0
        then (if byte_in 128 143 b1 && continuation s 2 && continuation s 3
              then 4 else 1)
        else 1
    end.

(** [s] without its first [n] bytes. *)
Fixpoint skip (n : nat) (s : string) : string :=
    match n, s with
    | O, _ => s
    | S n', String _ s' => skip n' s'
    | S _, EmptyString => EmptyString
    end.

(** *** Syntax *)

(** A character class: [.] (any rune but newline, no flag [s]), the
    negation [[^c]] of one ASCII character (newline included), or ranges
    of ASCII characters such as [\d], [[01]] and [[[:alpha:]]]. *)
Inductive cclass : Type :=
  | AnyNotNL
  | Not (c : ascii)
  | Ranges (rs : list (ascii * ascii)).

Inductive regex : Type :=
  | Empty
  | Bol                            (* ^ *)
  | Eol                            (* $ *)
  | Class (c : cclass)
  | Cat (r1 r2 : regex)
  | Alt (r1 r2 : regex)            (* r1|r2, r1 preferred *)
  | Star (c : cclass)              (* greedy c* *)
  | Group (i : nat) (r : regex).   (* capturing group number i *)

Definition digit : cclass := Ranges [("0", "9")]%char.
Definition alpha : cclass := Ranges [("A", "Z"); ("a", "z")]%char.
Definition char (c : ascii) : regex := Class (Ranges [(c, c)]).

(** A literal string, a sequence of expressions, a repetition [r{n}]. *)
Fixpoint lit (s : string) : regex :=
    match s with
    | EmptyString => Empty
    | String c s' => Cat (char c) (lit s')
    end.

Fixpoint cat (rs : list regex) : regex :=
    match rs with
    | [] => Empty
    | r :: rs' => Cat r (cat rs')
    end.

Fixpoint times (n : nat) (r : regex) : regex :=
    match n with
    | O => Empty
    | S n' => Cat r (times n' r)
    end.

(** *** Matching *)

Definition in_ranges (rs : list (ascii * ascii)) (a : ascii) : bool :=
    existsb (fun r => (nat_of_ascii (fst r) <=? nat_of_ascii a)%nat &&
                      (nat_of_ascii a <=? nat_of_ascii (snd r))%nat) rs.

(** One rune of the class at the head of [s]: the rest of [s]. *)
Definition step (c : cclass) (s : string) : option string :=
    match s with
    | EmptyString => None
    | String a s' =>
        match c with
        | AnyNotNL =>
            if Ascii.eqb a "010" then None else Some (skip (rune_width s) s)
        | Not x =>
            if Ascii.eqb a x then None else Some (skip (rune_width s) s)
        | Ranges rs => if in_ranges rs a then Some s' else None
        end
    end.

(** What was consumed between the position [s] and the later position
    [s'] of the same text. *)
Definition consumed (s s' : string) : string :=
    substring 0 (String.length s - String.length s') s.

Section Match.
Context {R : Type}.

(** Greedy repetition with backtracking: as many runes as possible, then
    the continuation; one rune less when the continuation fails. Every
    round consumes at least one byte, so [fuel] = the length of [s] never
    runs out. *)
Fixpoint star (c : cclass) (fuel : nat) (s : string)
    (k : string -> option R) : option R :=
    match fuel with
    | O => k s
    | S fuel' =>
        match step c s with
        | Some s' =>
            match star c fuel' s' k with
            | Some r => Some r
            | None => k s
            end
        | None => k s
        end
    end.

(** The leftmost-first match of a backtracking search: [rmatch text r s
    caps k] matches [r] at the position [s] of [text] and continues with
    [k] on the rest of the text and the captures. *)
Fixpoint rmatch (text : string) (r : regex) (s : string) (caps : list string)
    (k : string -> list string -> option R) : option R :=
    match r with
    | Empty => k s caps
    | Bol => if (String.length s =? String.length text)%nat then k s caps else None
    | Eol => match s with EmptyString => k s caps | _ => None end
    | Class c =>
        match step c s with
        | Some s' => k s' caps
        | None => None
        end
    | Cat r1 r2 =>
        rmatch text r1 s caps (fun s' caps' => rmatch text r2 s' caps' k)
    | Alt r1 r2 =>
        match rmatch text r1 s caps k with
        | Some x => Some x
        | None => rmatch text r2 s caps k
        end
    | Star c => star c (String.length s) s (fun s' => k s' caps)
    | Group i r1 =>
        rmatch text r1 s caps
               (fun s' caps' => k s' (<[i := consumed s s']> caps'))
    end.

End Match.

(** *** What a match means

    Zero or more runes of a class lead from the position [s] to the
    position [s']. *)
Inductive steps (c : cclass) : string -> string -> Prop :=
  | steps_done (s : string) : steps c s s
  | steps_more (s s1 s2 : string) :
      step c s = Some s1 -> steps c s1 s2 -> steps c s s2.

(** [r] matches the part of [text] between the positions [s] and [s'],
    turning the captures [caps] into [caps']. *)
Fixpoint matches (text : string) (r : regex) (s : string) (caps : list string)
    (s' : string) (caps' : list string) : Prop :=
    match r with
    | Empty => s' = s /\ caps' = caps
    | Bol => String.length s = String.length text /\ s' = s /\ caps' = caps
    | Eol => s = EmptyString /\ s' = s /\ caps' = caps
    | Class c => step c s = Some s' /\ caps' = caps
    | Cat r1 r2 =>
        exists s1 caps1,
          matches text r1 s caps s1 caps1 /\ matches text r2 s1 caps1 s' caps'
    | Alt r1 r2 =>
        matches text r1 s caps s' caps' \/ matches text r2 s caps s' caps'
    | Star c => steps c s s' /\ caps' = caps
    | Group i r1 =>
        exists caps1,
          matches text r1 s caps s' caps1 /\
          caps' = <[i := consumed s s']> caps1
    end.

(** A compiled expression: the syntax and the number of its groups. *)
Record Regexp : Type := MustCompile
    { syntax : regex;
      groups : nat }.

(** The search for the leftmost match, from the position [s] on. *)
Fixpoint search (re : Regexp) (text : string) (fuel : nat) (s : string)
    : option (list string) :=
    match rmatch text (Group 0 (syntax re)) s (repeat EmptyString (S (groups re)))
                 (fun _ caps => Some caps) with
    | Some caps => Some caps
    | None =>
        match fuel, s with
        | S fuel', String _ _ => search re text fuel' (skip (rune_width s) s)
        | _, _ => None
        end
    end.

(** [re.FindStringSubmatch(text)]: the match and the captures of the
    groups, or nothing. *)
Definition FindStringSubmatch (re : Regexp) (text : string)
    : option (list string) :=
    search re text (String.length text) text.

(** [re.MatchString(text)] *)
Definition MatchString (re : Regexp) (text : string) : bool :=
    bool_decide (is_Some (FindStringSubmatch re text)).

(** [re.FindString(text)]: the match, or the empty string. *)
Definition FindString (re : Regexp) (text : string) : string :=
    match FindStringSubmatch re text with
    | Some caps => nth 0 caps EmptyString
    | None => EmptyString
    end.

End Regexp.

(** ** Package etl: task file names (etl/globals.go) *)

Module Etl.
Import Regexp.
Local Open Scope string_scope.

(** The parts of the pattern, as in the source, each capturing group
    written as its number and its body:

      start       = ^gs:// #1{ .* } / #2{ [^/]* } /
      datePath    = #3{ \d{4}/[01]\d/[0123]\d } /
      dateTime    = #4{ \d{4}[01]\d[0123]\d } T\d{6}Z
      mlabN_podNN = - #5{ mlab\d } - #6{ [[:alpha:]]{3}\d[0-9t] } -
      exp_NNNN    = #7{ .* } - #8{ \d{4} }
      suffix      = (?: \.tar | \.tar.gz | \.tgz ) $

    The numbers of the groups are those of the whole [TaskPattern]; the
    pod pattern on its own numbers its two groups 1 and 2. *)

Definition start : regex :=
    cat [Bol; lit "gs://"; Group 1 (Star AnyNotNL); lit "/";
         Group 2 (Star (Not "/")); lit "/"].

Definition yyyy_mm_dd (sep : regex) : regex :=
    cat [times 4 (Class digit); sep;
         Class (Ranges [("0", "1")]%char); Class digit; sep;
         Class (Ranges [("0", "3")]%char); Class digit].

Definition datePath : regex := cat [Group 3 (yyyy_mm_dd (lit "/")); lit "/"].

Definition dateTime : regex :=
    cat [Group 4 (yyyy_mm_dd Empty); lit "T"; times 6 (Class digit); lit "Z"].

Definition mlabN_podNN (first : nat) : regex :=
    cat [lit "-"; Group first (cat [lit "mlab"; Class digit]); lit "-";
         Group (S first)
               (cat [times 3 (Class alpha); Class digit;
                     Class (Ranges [("0", "9"); ("t", "t")]%char)]);
         lit "-"].

Definition exp_NNNN : regex :=
    cat [Group 7 (Star AnyNotNL); lit "-"; Group 8 (times 4 (Class digit))].

Definition suffix : regex :=
    cat [Alt (lit ".tar")
             (Alt (cat [lit ".tar"; Class AnyNotNL; lit "gz"]) (lit ".tgz"));
         Eol].

(** This matches any valid test file name, and some invalid ones. *)
Definition TaskPattern : Regexp :=
    MustCompile (cat [start; datePath; dateTime; mlabN_podNN 5; exp_NNNN; suffix]) 8.

Definition startPattern : Regexp := MustCompile start 2.
Definition endPattern : Regexp := MustCompile suffix 0.
Definition podPattern : Regexp := MustCompile (mlabN_podNN 1) 2.

(** [type DataPath struct]: the components of a task filename. *)
Record DataPath : Type := mkDataPath
    { Exp1 : string;         (* #2 *)
      DatePath : string;     (* #3 *)
      PackedDate : string;   (* #4 *)
      Host : string;         (* #5 *)
      Pod : string;          (* #6 *)
      Experiment : string;   (* #7 *)
      FileNumber : string }. (* #8 *)

(** [func ValidateTestPath(path string)], which returns the DataPath or
    an error, given by its message. *)
Definition ValidateTestPath (path : string) : string + DataPath :=
    match FindStringSubmatch TaskPattern path with
    | None =>
        if negb (MatchString startPattern path)
        then inl ("Path should begin with gs://.../.../: " ++ path)
        else if negb (MatchString endPattern path)
        then inl ("Path should end in .tar, .tgz, or .tar.gz: " ++ path)
        else if negb (MatchString podPattern path)
        then inl ("Path should contain -mlabN-podNN: " ++ path)
        else inl ("Invalid test path: " ++ path)
    | Some fields =>
        let field i := nth i fields EmptyString in
        inr (mkDataPath (field 2%nat) (field 3%nat) (field 4%nat) (field 5%nat)
                        (field 6%nat) (field 7%nat) (field 8%nat))
    end.

(** [func GetMetroName(raw_fn string) string] *)
Definition GetMetroName (raw_fn : string) : string :=
    let pod_name := FindString podPattern raw_fn in
    if negb (String.eqb pod_name EmptyString) then substring 7 3 pod_name
    else EmptyString.

(** *** Dates in a path *)

Definition is_digit (a : ascii) : bool := in_ranges [("0", "9")]%char a.

(** The shape [YYYY/MM/DD] of a date path and [YYYYMMDD] of a packed
    date, the month starting with 0 or 1 and the day with 0 to 3. *)
Definition is_packed_date (s : string) : bool :=
    match s with
    | String y1 (String y2 (String y3 (String y4
        (String m1 (String m2 (String d1 (String d2 EmptyString))))))) =>
        is_digit y1 && is_digit y2 && is_digit y3 && is_digit y4 &&
        in_ranges [("0", "1")]%char m1 && is_digit m2 &&
        in_ranges [("0", "3")]%char d1 && is_digit d2
    | _ => false
    end.

Definition is_date_path (s : string) : bool :=
    match s with
    | String y1 (String y2 (String y3 (String y4 (String "/"
        (String m1 (String m2 (String "/" (String d1 (String d2 EmptyString))))))))) =>
        is_packed_date
          (String y1 (String y2 (String y3 (String y4
            (String m1 (String m2 (String d1 (String d2 EmptyString))))))))
    | _ => false
    end.

(** The day named by a date path, as a packed date: the path without its
    slashes. *)
Fixpoint packed_of_date_path (s : string) : string :=
    match s with
    | EmptyString => EmptyString
    | String c s' =>
        if Ascii.eqb c "/" then packed_of_date_path s'
        else String c (packed_of_date_path s')
    end.

(** The packed date and the date path name the same calendar day. *)
Definition same_day (dp : DataPath) : Prop :=
    PackedDate dp = packed_of_date_path (DatePath dp).

End Etl.

(** ** Package row: Base, the buffer in front of a sink (row/row.go) *)

Module RowBase.
Import GoInt Row.
Local Open Scope string_scope.
Local Open Scope Z_scope.

(** [type ErrCommitRow struct { Err error }]; the error of a sink is known
    by its message. *)
Record ErrCommitRow : Type := mkErrCommitRow
    { Err : string }.

(** [func (e ErrCommitRow) Error() string] and [Unwrap() error] *)
Definition Error (e : ErrCommitRow) : string :=
    "failed to commit row(s), error: " ++ Err e.

Definition Unwrap (e : ErrCommitRow) : string := Err e.

Section Base.

(** The rows, and the state of the sink behind the interface [Sink];
    [Commit] is the sink's method: it answers the number of rows
    committed and an error ([None] is nil), and leaves the sink in a new
    state. *)
Context {row sink : Type}.
Variable Commit : sink -> list row -> string -> (Z * option string) * sink.

(** What a [Base] does to the outside world, in order. *)
Inductive event : Type :=
  | EvCommit (rows : list row) (label : string)  (* pb.sink.Commit(rows, pb.label) *)
  | EvLog (line : string)                        (* log.Println(...) *)
  | EvTestTotal (table typ kind : string)        (* metrics.TestTotal...Inc() *)
  | EvErrorCount (table typ kind : string).      (* metrics.ErrorCount...Inc() *)

(** [type Base struct] *)
Record Base : Type := mkBase
    { sink_state : sink;
      buf : Buffer row;
      label : string;       (* used in metrics and errors *)
      stats : Stats }.

(** [func NewBase(label string, sink Sink, bufSize int) *Base]; [None]
    when [NewBuffer] panics. *)
Definition NewBase (label : string) (s : sink) (bufSize : Z) : option Base :=
    match NewBuffer bufSize with
    | Some b => Some (mkBase s b label zeroStats)
    | None => None
    end.

(** [func (pb *Base) GetStats() Stats] *)
Definition GetStats (pb : Base) : Stats := stats pb.

(** [func (pb *Base) TaskError() error] *)
Definition TaskError (pb : Base) : option ErrCommitRow := None.

(** [func (pb *Base) commit(rows []interface{}) error] *)
Definition commit (rows : list row) (pb : Base)
    : Base * option ErrCommitRow * list event :=
    let '((done, err), s1) := Commit (sink_state pb) rows (label pb) in
    let '(st1, log1) :=
      if 0 <? done then Done done true (stats pb) else (stats pb, []) in
    match err with
    | Some e =>
        let '(st2, log2) :=
          Done (sub64 (Z.of_nat (length rows)) done) false st1 in
        (mkBase s1 (buf pb) (label pb) st2, Some (mkErrCommitRow e),
         ([EvCommit rows (label pb)] ++ map EvLog log1 ++
          [EvLog (label pb ++ " " ++ e)%string] ++ map EvLog log2)%list)
    | None =>
        (mkBase s1 (buf pb) (label pb) st1, None,
         ([EvCommit rows (label pb)] ++ map EvLog log1)%list)
    end.

(** [func (pb *Base) Flush() error] *)
Definition Flush (pb : Base) : Base * option ErrCommitRow * list event :=
    let '(b1, rows) := Reset (buf pb) in
    let '(st1, log1) := MoveToPending (Z.of_nat (length rows)) (stats pb) in
    let '(pb2, err, t) := commit rows (mkBase (sink_state pb) b1 (label pb) st1) in
    (pb2, err, (map EvLog log1 ++ t)%list).

(** [func (pb *Base) Put(row Annotatable) error] *)
Definition Put (r : row) (pb : Base) : Base * option ErrCommitRow * list event :=
    let '(b1, out) := Append r (buf pb) in
    let '(st1, _) := Inc (stats pb) in
    match out with
    | Some rows =>
        let '(st2, log2) := MoveToPending (Z.of_nat (length rows)) st1 in
        let '(pb3, err, t) :=
          commit rows (mkBase (sink_state pb) b1 (label pb) st2) in
        match err with
        | Some e =>
            (pb3, Some e,
             (map EvLog log2 ++ t ++
              [EvTestTotal (label pb) (label pb) "error";
               EvErrorCount (label pb) "" "put error"])%list)
        | None => (pb3, None, (map EvLog log2 ++ t)%list)
        end
    | None => (mkBase (sink_state pb) b1 (label pb) st1, None, [])
    end.

(** The calls a parser makes on its [Base]. *)
Inductive op : Type :=
  | OpPut (r : row)
  | OpFlush.

Definition step (o : op) (pb : Base) : Base * option ErrCommitRow * list event :=
    match o with
    | OpPut r => Put r pb
    | OpFlush => Flush pb
    end.

(** A sequence of calls: the final state, what each call returned, and
    the events. *)
Fixpoint run_ops (ops : list op) (pb : Base)
    : Base * list (option ErrCommitRow) * list event :=
    match ops with
    | [] => (pb, [], [])
    | o :: ops' =>
        let '(pb1, err, t1) := step o pb in
        let '(pb2, errs, t2) := run_ops ops' pb1 in
        (pb2, err :: errs, (t1 ++ t2)%list)
    end.

(** The rows put, and the batches handed to the sink, both in order. *)
Definition puts (ops : list op) : list row :=
    omap (fun o => match o with OpPut r => Some r | OpFlush => None end) ops.

Definition commits (t : list event) : list (list row) :=
    omap (fun e => match e with EvCommit rows _ => Some rows | _ => None end) t.

Definition logs (t : list event) : list string :=
    omap (fun e => match e with EvLog line => Some line | _ => None end) t.

(** A sink that reports at most the rows it was given, and all of them
    when it reports no error. *)
Definition sink_ok : Prop :=
    forall (s : sink) (rows0 : list row) (lbl : string),
      0 <= fst (fst (Commit s rows0 lbl)) <= Z.of_nat (length rows0) /\
      (snd (fst (Commit s rows0 lbl)) = None ->
       fst (fst (Commit s rows0 lbl)) = Z.of_nat (length rows0)).

(** The line logged for the error a call returned. *)
Definition err_line (lbl : string) (r : option ErrCommitRow) : option string :=
    (fun e => (lbl ++ " " ++ Err e)%string) <$> r.

(** A batch that fits a buffer of size [sz]. *)
Definition fits (sz : Z) (rs : list row) : Prop :=
    Z.of_nat (length rs) <= Z.max sz 1.

(** The counters account for [n] rows, none of them pending. *)
Definition settled (pb : Base) (n : Z) : Prop :=
    Buffered (stats pb) = Z.of_nat (length (rows (buf pb))) /\
    Pending (stats pb) = 0 /\ 0 <= Committed (stats pb) /\ 0 <= Failed (stats pb) /\
    Committed (stats pb) + Failed (stats pb) + Buffered (stats pb) = n.

End Base.
Arguments event : clear implicits.
Arguments Base : clear implicits.
Arguments op : clear implicits.

(** A sink that keeps every row it is given. *)
Definition keepAll {row : Type} (s : list row) (rows : list row) (label : string)
    : (Z * option string) * list row :=
    ((Z.of_nat (length rows), None), (s ++ rows)%list).

(** A sink that commits only the first row of a batch and fails on the
    rest. *)
Definition keepFirst {row : Type} (s : list row) (rows : list row) (label : string)
    : (Z * option string) * list row :=
    match rows with
    | [] => ((0, None), s)
    | r :: rest =>
        if (length rest =? 0)%nat then ((1, None), (s ++ [r])%list)
        else ((1, Some "quota exceeded"), (s ++ [r])%list)
    end.

End RowBase.

(** ** Package etl: data types, buffer sizes and IP distances
       (etl/globals.go) *)

Module EtlData.
Import GoInt Etl Sidestream.
Local Open Scope string_scope.
Local Open Scope Z_scope.

(** [type DataType string] and its constants. *)
Definition DataType : Type := string.

Definition NDT : DataType := "ndt".
Definition NDT_OMIT_DELTAS : DataType := "ndt_nodelta".
Definition SS : DataType := "sidestream".
Definition PT : DataType := "traceroute".
Definition SW : DataType := "disco".
Definition INVALID : DataType := "invalid".

(** [DirToDataType] maps from gs:// subdirectory to data type. *)
Definition DirToDataType : gmap string DataType :=
    <["ndt" := NDT]> (<["sidestream" := SS]> (<["paris-traceroute" := PT]>
      (<["switch" := SW]> ∅))).

(** [DataTypeToTable] maps from data type to BigQuery table name. *)
Definition DataTypeToTable : gmap DataType string :=
    <[NDT := "ndt"]> (<[SS := "sidestream"]> (<[PT := "traceroute"]>
      (<[SW := "disco_test"]> (<[INVALID := "invalid"]> ∅)))).

(** [dataTypeToBQBufferSize]: from data type to the buffer size for
    BigQuery insertion. *)
Definition dataTypeToBQBufferSize : gmap DataType Z :=
    <[NDT := 10]> (<[NDT_OMIT_DELTAS := 50]> (<[SS := 100]> (<[PT := 300]>
      (<[SW := 100]> (<[INVALID := 0]> ∅))))).

(** The keys of [DirToDataType]. *)
Definition knownDirs : list string :=
    ["ndt"; "sidestream"; "paris-traceroute"; "switch"].

(** [func (fn *DataPath) GetDataType() DataType] *)
Definition GetDataType (fn : DataPath) : DataType :=
    match DirToDataType !! Exp1 fn with
    | Some dt => dt
    | None => INVALID
    end.

(** [strconv.ParseBool]: the value and whether the text was accepted. *)
Definition ParseBool (str : string) : bool * bool :=
    if existsb (String.eqb str) ["1"; "t"; "T"; "TRUE"; "true"; "True"]
    then (true, true)
    else if existsb (String.eqb str) ["0"; "f"; "F"; "FALSE"; "false"; "False"]
    then (false, true)
    else (false, false).

(** [func (dt DataType) BQBufferSize() int]; [Getenv] is [os.Getenv], and
    a key absent from a Go map reads as 0. *)
Definition BQBufferSize (Getenv : string -> string) (dt : DataType) : Z :=
    if String.eqb dt NDT && fst (ParseBool (Getenv "NDT_OMIT_DELTAS"))
    then default 0 (dataTypeToBQBufferSize !! NDT_OMIT_DELTAS)
    else default 0 (dataTypeToBQBufferSize !! dt).

(** *** IP addresses

    [net.IP] is a slice of bytes; the nil slice is the empty list. *)
Definition IP : Type := list byte.

Definition int (b : byte) : Z := Z.of_N (Byte.to_N b).

(** [x << k] on an [int] or [int64], and the conversion to [int32]. *)
Definition shl64 (x k : Z) : Z := wrap64 (Z.shiftl x k).

Definition wrap32 (z : Z) : Z := (z + 2 ^ 31) mod 2 ^ 32 - 2 ^ 31.

(** [func (ip IP) To4() IP] and [func (ip IP) To16() IP] of package net. *)
Definition v4InV6Prefix : list byte :=
    [x00; x00; x00; x00; x00; x00; x00; x00; x00; x00; xff; xff].

Definition isZeros (p : list byte) : bool := forallb (Byte.eqb x00) p.

(** [ip[i] == b] *)
Definition byte_is (ip : list byte) (i : nat) (b : byte) : bool :=
    match ip !! i with
    | Some x => Byte.eqb x b
    | None => false
    end.

Definition To4 (ip : IP) : IP :=
    if (length ip =? 4)%nat then ip
    else if (length ip =? 16)%nat && isZeros (take 10 ip) &&
            byte_is ip 10 xff && byte_is ip 11 xff
    then drop 12 ip
    else [].

Definition To16 (ip : IP) : IP :=
    if (length ip =? 4)%nat then (v4InV6Prefix ++ ip)%list
    else if (length ip =? 16)%nat then ip
    else [].

Definition is_nil (ip : IP) : bool :=
    match ip with [] => true | _ => false end.

(** The bytes [p[i]], ..., read in this order: a run-time panic when an
    index is not below the length. *)
Fixpoint index_all (p : IP) (idx : list nat) : outcome (list Z) :=
    match idx with
    | [] => Return []
    | i :: idx' =>
        match p !! i with
        | None => Panic "runtime error: index out of range"
        | Some b =>
            match index_all p idx' with
            | Panic msg => Panic msg
            | Return bs => Return (int b :: bs)
            end
        end
    end.

(** [func GetIntFromIPv4(p4 net.IP) int] *)
Definition GetIntFromIPv4 (p4 : IP) : outcome Z :=
    match index_all p4 [0; 1; 2; 3]%nat with
    | Return [b0; b1; b2; b3] =>
        Return (add64 (add64 (add64 (shl64 b0 24) (shl64 b1 16)) (shl64 b2 8)) b3)
    | Return _ => Panic "unreachable"
    | Panic msg => Panic msg
    end.

(** The sum [b0<<56 + b1<<48 + ... + b6<<8 + b7] in an [int64]. *)
Definition sum8 (bs : list Z) : Z :=
    match bs with
    | [b0; b1; b2; b3; b4; b5; b6; b7] =>
        add64 (add64 (add64 (add64 (add64 (add64 (add64
          (shl64 b0 56) (shl64 b1 48)) (shl64 b2 40)) (shl64 b3 32))
          (shl64 b4 24)) (shl64 b5 16)) (shl64 b6 8)) b7
    | _ => 0
    end.

(** [func GetIntFromIPv6Lower(p6 net.IP) int64]: the bytes 8 to 13, and
    byte 15 twice. *)
Definition GetIntFromIPv6Lower (p6 : IP) : outcome Z :=
    match index_all p6 [8; 9; 10; 11; 12; 13; 15; 15]%nat with
    | Return bs => Return (sum8 bs)
    | Panic msg => Panic msg
    end.

(** [func GetIntFromIPv6Upper(p6 net.IP) int64] *)
Definition GetIntFromIPv6Upper (p6 : IP) : outcome Z :=
    match index_all p6 [0; 1; 2; 3; 4; 5; 6; 7]%nat with
    | Return bs => Return (sum8 bs)
    | Panic msg => Panic msg
    end.

(** The loop

      n := 0
      for i := 0; i < bits; i++ { if dist < 0 { break }; n++; dist <<= 1 }

    entered with [i] iterations to go; [wrap] is the width of [dist]. *)
Fixpoint countLoop (wrap : Z -> Z) (i : nat) (dist n : Z) : Z :=
    match i with
    | O => n
    | S i' =>
        if dist <? 0 then n
        else countLoop wrap i' (wrap (dist * 2)) (add64 n 1)
    end.

(** The body of [CalculateIPDistance] once the two strings are parsed. *)
Definition distance (ip1 ip2 : IP) : outcome (Z * option string) :=
    if negb (is_nil (To4 ip1)) && negb (is_nil (To4 ip2)) then
      match GetIntFromIPv4 (To4 ip1), GetIntFromIPv4 (To4 ip2) with
      | Panic msg, _ => Panic msg
      | _, Panic msg => Panic msg
      | Return a, Return b =>
          let dist := wrap32 (Z.lxor a b) in
          Return (countLoop wrap32 32 dist 0, None)
      end
    else if negb (is_nil (To16 ip1)) && negb (is_nil (To16 ip2)) then
      match GetIntFromIPv6Upper (To16 ip1), GetIntFromIPv6Upper (To16 ip2) with
      | Panic msg, _ => Panic msg
      | _, Panic msg => Panic msg
      | Return a, Return b =>
          let n := countLoop wrap64 64 (Z.lxor a b) 0 in
          if n =? 64 then
            match GetIntFromIPv6Lower (To16 ip1), GetIntFromIPv6Lower (To16 ip2) with
            | Panic msg, _ => Panic msg
            | _, Panic msg => Panic msg
            | Return a', Return b' =>
                let n' := countLoop wrap64 64 (Z.lxor a' b') 0 in
                Return (add64 64 n', None)
            end
          else Return (n, None)
      end
    else Return (-1, Some "Cannot parse IP.").

Section ParseIP.

(** [net.ParseIP], which answers nil for a text that is no address. *)
Variable ParseIP : string -> IP.

(** [func CalculateIPDistance(first_ip string, second_ip string)
      (int, error)]: how many bits the two addresses share from the
    left. *)
Definition CalculateIPDistance (first_ip second_ip : string)
    : outcome (Z * option string) :=
    let ip1 := ParseIP first_ip in
    let ip2 := ParseIP second_ip in
    distance ip1 ip2.

End ParseIP.

(** *** The shape of a task file name *)

Fixpoint all_bytes (p : ascii -> bool) (s : string) : bool :=
    match s with
    | EmptyString => true
    | String a s' => p a && all_bytes p s'
    end.

(** [n] decimal digits. *)
Definition digits (n : nat) (s : string) : bool :=
    (String.length s =? n)%nat && all_bytes is_digit s.

Definition is_alpha (a : ascii) : bool :=
    Regexp.in_ranges [("A", "Z"); ("a", "z")]%char a.

(** A string without the byte [c]. *)
Definition without (c : ascii) (s : string) : bool :=
    all_bytes (fun a => negb (Ascii.eqb a c)) s.

(** The host [mlabN] and the pod [aaaNN] (its last character a digit or
    the letter t). *)
Definition is_host (s : string) : bool :=
    match s with
    | String "m" (String "l" (String "a" (String "b" (String d EmptyString)))) =>
        is_digit d
    | _ => false
    end.

Definition is_pod (s : string) : bool :=
    match s with
    | String a (String b (String c (String d (String e EmptyString)))) =>
        is_alpha a && is_alpha b && is_alpha c && is_digit d &&
        Regexp.in_ranges [("0", "9"); ("t", "t")]%char e
    | _ => false
    end.

(** The three extensions of an archive. *)
Definition is_ext (s : string) : bool :=
    String.eqb s ".tar" || String.eqb s ".tgz" || String.eqb s ".tar.gz".

(** A byte of a text that is not part of a multi-byte rune. *)
Definition is_ascii (a : ascii) : bool := (nat_of_ascii a <? 128)%nat.

(** The classes that exclude one ASCII character: [.] (newline) and
    [[^x]]. *)
Definition excludes (c : Regexp.cclass) (ex : ascii) : Prop :=
    is_ascii ex = true /\
    forall (a : ascii) (s : string),
      Regexp.step c (String a s)
      = if Ascii.eqb a ex then None
        else Some (Regexp.skip (Regexp.rune_width (String a s)) (String a s)).

(** A text that is empty or starts with an ASCII character. *)
Definition starts_ascii (s : string) : bool :=
    match s with
    | EmptyString => true
    | String c _ => is_ascii c
    end.

End EtlData.

(** ** Package storage: opening a source (storage.go) *)

Module StorageSource.
Import GoInt GoStrings Storage.
Local Open Scope string_scope.
Local Open Scope Z_scope.

(** [strings.SplitN(s, sep, n)] for a separator of one byte and [n] not
    negative: at most [n] parts, the last one the unsplit rest. *)
Fixpoint SplitN (s : string) (sep : ascii) (n : nat) {struct s} : list string :=
    match n with
    | O => []
    | S O => [s]
    | S (S m) =>
        match s with
        | EmptyString => [EmptyString]
        | String c s' =>
            if Ascii.eqb c sep then EmptyString :: SplitN s' sep (S m)
            else match SplitN s' sep (S (S m)) with
                 | [] => [String c EmptyString]
                 | w :: ws => String c w :: ws
                 end
        end
    end.

(** The parts put together again, the separator between them. *)
Fixpoint join (sep : ascii) (parts : list string) : string :=
    match parts with
    | [] => EmptyString
    | [w] => w
    | w :: ws => w ++ String sep (join sep ws)
    end.

(** What opening and closing a source does to the outside world. *)
Inductive event : Type :=
  | EvGetReader (bucket fn : string) (timeout : Z) (err : option error)
      (* getReader: a context with its cancel(), and obj.NewReader(ctx) *)
  | EvGzipNewReader (err : option error)  (* gzip.NewReader(rdr) *)
  | EvCloseZipper                         (* t.zipper.Close() *)
  | EvCloseReader                         (* t.rdr.Close() *)
  | EvCancel                              (* the context's cancel() *)
  | EvLog (err : error).                  (* log.Println(err) *)

(** [type Closer struct]; [zipper] tells whether the field is set. *)
Record Closer : Type := mkCloser
    { zipper : bool }.

Section Close.

(** What [zipper.Close()] and [rdr.Close()] answer ([None] is nil). *)
Variable zipperClose rdrClose : option error.

(** [func (t *Closer) Close() error] *)
Definition Close (t : Closer) : option error * list event :=
    if zipper t
    then (zipperClose, [EvCloseZipper; EvCloseReader; EvCancel])
    else (rdrClose, [EvCloseReader; EvCancel]).

End Close.

(** [time.Minute] in nanoseconds. *)
Definition Minute : Z := 60 * 1000 * Millisecond.

Definition errNoClient : error := ErrMsg "client should be non-null".

(** What [NewETLSource] hands back: the object it asked for, the closer,
    and the two constants of the [ETLSource]. *)
Record Source : Type := mkSource
    { bucket : string;
      fn : string;
      closer : Closer;
      RetryBaseTime : Z;
      TableBase : string }.

Section NewETLSource.

(** Whether the client is non-nil, what [getReader] answers for a bucket,
    an object and a timeout, what [gzip.NewReader] answers, and what
    closing the reader answers. *)
Variable client : bool.
Variable getReader : string -> string -> Z -> option error.
Variable gzipNewReader : option error.
Variable rdrClose : option error.

(** [func NewETLSource(client, uri)], which answers a pointer to an
    [ETLSource] and an error. *)
Definition NewETLSource (uri : string) : (error + Source) * list event :=
    if negb client then (inl errNoClient, [])
    else if negb (HasPrefix uri "gs://")
    then (inl (ErrMsg ("invalid file path: " ++ uri)), [])
    else
      let parts := SplitN uri "/" 4 in
      if negb (length parts =? 4)%nat
      then (inl (ErrMsg ("invalid file path: " ++ uri)), [])
      else
        let bucket := nth 2 parts EmptyString in
        let fn := nth 3 parts EmptyString in
        if negb (HasSuffix fn ".tgz" || HasSuffix fn ".tar" || HasSuffix fn ".tar.gz")
        then (inl (ErrMsg ("not tar or tgz: " ++ uri)), [])
        else
          let opened := EvGetReader bucket fn (300 * Minute) in
          match getReader bucket fn (300 * Minute) with
          | Some err => (inl err, [opened (Some err); EvCancel; EvLog err])
          | None =>
              if HasSuffix (ToLower fn) "gz" then
                match gzipNewReader with
                | Some err =>
                    (inl err,
                     ([opened None; EvGzipNewReader (Some err)] ++
                      snd (Close None rdrClose (mkCloser false)) ++
                      [EvLog err])%list)
                | None =>
                    (inr (mkSource bucket fn (mkCloser true)
                                   (16 * Millisecond) "invalid"),
                     [opened None; EvGzipNewReader None])
                end
              else
                (inr (mkSource bucket fn (mkCloser false)
                               (16 * Millisecond) "invalid"),
                 [opened None])
          end.

End NewETLSource.

(** Counting in a trace: the contexts made, the readers and the gzip
    readers obtained, and what was released. *)
Definition count (p : event -> bool) (t : list event) : nat :=
    length (List.filter p t).

Definition contexts : list event -> nat :=
    count (fun e => match e with EvGetReader _ _ _ _ => true | _ => false end).

Definition readers : list event -> nat :=
    count (fun e => match e with EvGetReader _ _ _ None => true | _ => false end).

Definition zippers : list event -> nat :=
    count (fun e => match e with EvGzipNewReader None => true | _ => false end).

Definition cancels : list event -> nat :=
    count (fun e => match e with EvCancel => true | _ => false end).

Definition closes : list event -> nat :=
    count (fun e => match e with EvCloseReader => true | _ => false end).

Definition zcloses : list event -> nat :=
    count (fun e => match e with EvCloseZipper => true | _ => false end).

(** The whole life of a source: its construction and, when that gave a
    source, the [Close] that the caller owes. *)
Definition lifetime (client : bool) (getReader : string -> string -> Z -> option error)
    (gzipNewReader rdrClose zipperClose : option error) (uri : string)
    : list event :=
    match NewETLSource client getReader gzipNewReader rdrClose uri with
    | (inl _, t) => t
    | (inr src, t) => (t ++ snd (Close zipperClose rdrClose (closer src)))%list
    end.

(** The attempts to read the body of an entry in a trace of [NextTest]
    (one for each call of [nextData]: [ioutil.ReadAll] on the entry, or
    the gzip reader opened on it), and a sum of durations. *)
Definition body_reads (t : list Storage.event) : nat :=
    length (omap (fun e => match e with
                           | EvReadAll | Storage.EvGzipNewReader => Some tt
                           | _ => None
                           end) t).

Definition total (ds : list Z) : Z := fold_right Z.add 0 ds.

End StorageSource.

(** ** Package dedup: the names of tables and partitions *)

Module DedupTables.
Import GoStrings Regexp Dedup.
Local Open Scope string_scope.

(** The number of bytes that an expression reads when it is put together
    from classes of byte ranges, by sequence and by alternatives of one
    width: no anchor, no repetition and no group. *)
Fixpoint width (r : regex) : option nat :=
    match r with
    | Empty => Some 0%nat
    | Class (Ranges _) => Some 1%nat
    | Cat r1 r2 =>
        match width r1, width r2 with
        | Some a, Some b => Some (a + b)%nat
        | _, _ => None
        end
    | Alt r1 r2 =>
        match width r1, width r2 with
        | Some a, Some b => if (a =? b)%nat then Some a else None
        | _, _ => None
        end
    | _ => None
    end.

(** The expression matches the whole of [d]. *)
Definition accepts (r : regex) (d : string) : bool :=
    bool_decide (is_Some (rmatch d r d []
      (fun s' _ => match s' with EmptyString => Some tt | _ => None end))).

(** [type tableNameParts struct]: a templated table or table partition. *)
Record tableNameParts : Type := mkTableNameParts
    { prefix : string;
      isPartitioned : bool;
      yyyymmdd : string }.

(** The fields of [bigquery.Table] that name a table. *)
Record Table : Type := mkTable
    { ProjectID : string;
      DatasetID : string;
      TableID : string }.

Section Tables.

(** The constant [etl.YYYYMMDD], a regular expression whose declaration
    is not among the sources: a parameter. *)
Variable YYYYMMDD : regex.

(** The expression compiled from three groups and the end of the text:
    any characters; one of [_] and [$]; [etl.YYYYMMDD]. *)
Definition denseDateSuffix : Regexp :=
    MustCompile (cat [Group 1 (Star AnyNotNL);
                      Group 2 (Class (Ranges [("_", "_"); ("$", "$")]%char));
                      Group 3 YYYYMMDD;
                      Eol]) 3.

(** [func getTableParts(tableName string) (tableNameParts, error)]
    separates a table name into prefix, separator and partition date. A
    search without a match returns nil, of length 0. *)
Definition getTableParts (tableName : string) : error + tableNameParts :=
    let date := default [] (FindStringSubmatch denseDateSuffix tableName) in
    if negb (length date =? 4)%nat ||
       negb (String.length (nth 3 date EmptyString) =? 8)%nat
    then inl (ErrOther ("Invalid template suffix: " ++ tableName))
    else inr (mkTableNameParts (nth 1 date EmptyString)
                               (String.eqb (nth 2 date EmptyString) "$")
                               (nth 3 date EmptyString)).

(** [func getTable(bqClient, project, dataset, table, partition string)],
    which makes a Table object of the client without any network
    operation. *)
Definition getTable (project dataset table partition : string) : error + Table :=
    if Contains table "$" || Contains table "_"
    then inl (ErrOther ("Table base must not include _ or $: " ++ table))
    else
      let date := default [] (FindStringSubmatch denseDateSuffix table) in
      if (0 <? length date)%nat
      then inl (ErrOther ("Table base must not include partition or template suffix: "
                          ++ table))
      else
        let full := table ++ "$" ++ partition in
        match getTableParts full with
        | inl err => inl err
        | inr _ => inr (mkTable project dataset full)
        end.

End Tables.

(** The separator of a templated table and of a partition. *)
Definition separator (partitioned : bool) : string :=
    if partitioned then "$" else "_".

(** The packed date of the task pattern of package etl (globals.go):
    [\d{4}[01]\d[0123]\d]. *)
Definition packedDate : regex := Etl.yyyy_mm_dd Empty.

End DedupTables.

(** ** Package dedup: checking, deduplicating and copying a table *)

Module DedupRun.
Import GoInt GoStrings Regexp Dedup DedupTables.
Local Open Scope string_scope.
Local Open Scope Z_scope.

(** The errors that go through the package: its own, those of the
    BigQuery client, and the sentinel [iterator.Done], known by
    identity. *)
Inductive bqerror : Type :=
  | IteratorDone
  | Err (e : error).

(** An instant [time.Time] as its distance in nanoseconds from a fixed
    instant; [t.Sub(u)] is a Duration, which stops at the ends of the
    range of an int64, and [t.Before(u)] compares. *)
Definition Sub (t u : Z) : Z :=
    if t - u <? min_int64 then min_int64
    else if max_int64 <? t - u then max_int64
    else t - u.

Definition Before (t u : Z) : bool := t <? u.

(** [type TableInfo struct]: the basic stats of a table or partition. *)
Record TableInfo : Type := mkTableInfo
    { Name : string;
      IsPartitioned : bool;
      NumBytes : Z;
      NumRows : Z;
      CreationTime : Z;
      LastModifiedTime : Z }.

(** [bqext.PartitionInfo], with the fields that the query of
    [GetPartitionInfo] names; the zero value has the zero time. *)
Record PartitionInfo : Type := mkPartitionInfo
    { pi_PartitionID : string;
      pi_CreationTime : Z;
      pi_LastModified : Z }.

(** The zero [time.Time]: January 1 of the year 1, here seen from the
    Unix epoch. *)
Definition zeroTime : Z := -62135596800 * 1000000000.

Definition emptyPartitionInfo : PartitionInfo :=
    mkPartitionInfo "" zeroTime zeroTime.

(** [type Options struct]: the processing options. *)
Record Options : Type := mkOptions
    { MinSrcAge : Z;          (* minimum time since last source modification *)
      IgnoreDestAge : bool;   (* don't check age of destination partition *)
      DryRun : bool;          (* do all checks, but don't dedup or copy *)
      CopyOnly : bool }.      (* skip the dedup step *)

(** The fields of [bqext.Dataset] that the package reads. *)
Record Dataset : Type := mkDataset
    { ds_ProjectID : string;
      ds_DatasetID : string }.

(** [d.Table(name)] of a dataset. *)
Definition Table_of (d : Dataset) (name : string) : Table :=
    mkTable (ds_ProjectID d) (ds_DatasetID d) name.

(** [t.FullyQualifiedName()]: project:dataset.table *)
Definition FullyQualifiedName (t : Table) : string :=
    ProjectID t ++ ":" ++ DatasetID t ++ "." ++ TableID t.

(** What is handed to [log.Println] and [log.Printf]. *)
Inductive logged : Type :=
  | LText (s : string)
  | LErr (e : bqerror)
  | LWarning (w : warning)
  | LTable (t : Table)
  | LInfo (i : TableInfo)
  | LCount (n : nat).

(** What the package does to the outside world, in order. The two
    queries are given by the values put into their fixed text. *)
Inductive event : Type :=
  | EvNow                                   (* time.Now() *)
  | EvTables (filter : string)              (* GetTableInfoMatching *)
  | EvMetadata (t : Table)                  (* t.Metadata(ctx) *)
  | EvQueryPartition (fullTable partition : string)
  | EvQueryDetail (dataset table : string) (partition : option string)
  | EvDedup (src dedupOn : string) (dest : Table)
                                            (* Dedup_Alpha(src, dedupOn, dest) *)
  | EvCopy (src dest : Table)               (* copier.Run, WriteTruncate *)
  | EvSleep (d : Z)                         (* time.Sleep in WaitForJob *)
  | EvLog (args : list logged).

(** A call returns, panics, or waits without end for a job that never
    finishes. *)
Inductive result (A : Type) : Type :=
  | Ret (a : A)
  | Panic (msg : string)
  | Waiting.
Arguments Ret {A} a.
Arguments Panic {A} msg.
Arguments Waiting {A}.

Section BigQuery.

(** The state of BigQuery and of the clock, with the operations that the
    package performs on it; each returns its answer and the next state.
    [bq_Tables] stands for [GetTableInfoMatching], which is not modelled;
    a job is the list of the answers to the successive calls of its
    [Status]. *)
Context {world : Type}.

Record BigQuery : Type := mkBigQuery
    { bq_Now : world -> Z * world;
      bq_Tables : string -> world -> (bqerror + list TableInfo) * world;
      bq_Metadata : Table -> world -> option bqerror * world;
      bq_QueryPartition :
        string -> string -> world -> (bqerror + PartitionInfo) * world;
      bq_QueryDetail :
        string -> string -> option string -> world ->
        (Detail * option bqerror) * world;
      bq_Dedup : string -> string -> Table -> world -> option bqerror * world;
      bq_Run : Table -> Table -> world -> (bqerror + list poll) * world }.

Variable bq : BigQuery.

(** [etl.YYYYMMDD], as for [getTableParts]. *)
Variable YYYYMMDD : regex.

(** Computations over the state that record their events. *)
Definition B (A : Type) : Type := world -> result A * world * list event.

#[local] Instance B_ret : MRet B := fun A (a : A) w => (Ret a, w, []).

#[local] Instance B_bind : MBind B := fun A C (f : A -> B C) (m : B A) w =>
    match m w with
    | (Ret a, w1, t1) => let '(r, w2, t2) := f a w1 in (r, w2, (t1 ++ t2)%list)
    | (Panic msg, w1, t1) => (Panic msg, w1, t1)
    | (Waiting, w1, t1) => (Waiting, w1, t1)
    end.

Definition emit (e : event) : B unit := fun w => (Ret tt, w, [e]).

Definition perform {A} (e : event) (op : world -> A * world) : B A :=
    fun w => let '(a, w1) := op w in (Ret a, w1, [e]).

Definition panic {A} (msg : string) : B A := fun w => (Panic msg, w, []).

(** The sleeps of a wait, and its end. *)
Definition wait (polls : list poll) (maxBackoff : Z) : B (option bqerror) :=
    fun w =>
      let '(sleeps, r) := WaitForJob polls maxBackoff in
      match r with
      | Some err => (Ret (option_map Err err), w, map EvSleep sleeps)
      | None => (Waiting, w, map EvSleep sleeps)
      end.

Definition log (args : list logged) : B unit := emit (EvLog args).

(** [func GetTableDetail(dsExt, table) (Detail, error)] *)
Definition GetTableDetail (table : Table) : B (Detail * option bqerror) :=
    let parts := Sidestream.Split (TableID table) "$" in
    let dataset := DatasetID table in
    let tableName := nth 0 parts EmptyString in
    match parts with
    | _ :: p1 :: _ =>
        if (String.length p1 =? 8)%nat
        then perform (EvQueryDetail dataset tableName (Some p1))
                     (bq_QueryDetail bq dataset tableName (Some p1))
        else mret (mkDetail "" 0 0,
                   Some (Err (ErrOther ("Invalid partition string: " ++ p1))))
    | _ => perform (EvQueryDetail dataset tableName None)
                   (bq_QueryDetail bq dataset tableName None)
    end.

(** [func GetPartitionInfo(ctx, dsExt, table) (bqext.PartitionInfo, error)] *)
Definition GetPartitionInfo (table : Table) : B (PartitionInfo * option bqerror) :=
    let tableName := TableID table in
    match getTableParts YYYYMMDD tableName with
    | inr parts =>
        if negb (isPartitioned parts)
        then mret (emptyPartitionInfo,
                   Some (Err (ErrOther ("TableID missing partition: " ++ tableName))))
        else
          let fullTable :=
            ProjectID table ++ ":" ++ DatasetID table ++ "." ++ prefix parts in
          r ← perform (EvQueryPartition fullTable (yyyymmdd parts))
                      (bq_QueryPartition bq fullTable (yyyymmdd parts));
          match r with
          | inl IteratorDone => mret (emptyPartitionInfo, None)
          | inl err => mret (emptyPartitionInfo, Some err)
          | inr pInfo => mret (pInfo, None)
          end
    | inl _ =>
        mret (emptyPartitionInfo,
              Some (Err (ErrOther ("TableID missing partition: " ++ tableName))))
    end.

(** [func checkDestOlder(ctx, dsExt, srcInfo, dest) error] *)
Definition checkDestOlder (srcInfo : TableInfo) (dest : Table)
    : B (option bqerror) :=
    r ← GetPartitionInfo dest;
    match r with
    | (_, Some err) => mret (Some err)
    | (destPartitionInfo, None) =>
        if Before (LastModifiedTime srcInfo) (pi_LastModified destPartitionInfo)
        then mret (Some (Err ErrSrcOlderThanDest))
        else mret None
    end.

(** [checkDetails] with its warnings logged. *)
Definition checkDetails_logged (srcDetail destDetail : Detail)
    : B (option bqerror) :=
    let '(warnings, err) := checkDetails srcDetail destDetail in
    fun w => (Ret (option_map Err err), w,
              map (fun x => EvLog [LWarning x]) warnings).

(** [func SanityCheckAndCopy(ctx, client, srcTable, destDataset,
      destTableName) error] *)
Definition SanityCheckAndCopy (srcTable : Table) (destDataset destTableName : string)
    : B (option bqerror) :=
    match getTableParts YYYYMMDD (TableID srcTable) with
    | inl err => mret (Some (Err err))
    | inr parts =>
        match getTable YYYYMMDD (ProjectID srcTable) destDataset destTableName
                       (yyyymmdd parts) with
        | inl err => log [LErr (Err err)] ;; mret (Some (Err err))
        | inr destTable =>
            log [LText "Copying..."] ;;
            r ← perform (EvCopy srcTable destTable) (bq_Run bq srcTable destTable);
            match r with
            | inl err => mret (Some err)
            | inr job =>
                err ← wait job (10 * Second);
                log [LText "Done"] ;;
                mret err
            end
        end
    end.

(** [func CheckAndDedup(ctx, srcDS, srcInfo, destTable, options) error];
    [destTable] is a pointer, [None] when nil. *)
Definition CheckAndDedup (srcDS : Dataset) (srcInfo : TableInfo)
    (destTable : option Table) (options : Options) : B (option bqerror) :=
    match getTableParts YYYYMMDD (Name srcInfo) with
    | inl err => mret (Some (Err err))
    | inr srcParts =>
    now ← perform EvNow (bq_Now bq);
    if Sub now (LastModifiedTime srcInfo) <? MinSrcAge options
    then mret (Some (Err (ErrOther "Source is too recent")))
    else
    match destTable with
    | None => panic "runtime error: invalid memory address or nil pointer dereference"
    | Some destTable =>
    if String.eqb (DatasetID destTable) (ds_DatasetID srcDS)
    then mret (Some (Err (ErrOther
           "Source and Destination should be in different datasets: ")))
    else
    match getTableParts YYYYMMDD (TableID destTable) with
    | inl err => mret (Some (Err err))
    | inr destParts =>
    if negb (String.eqb (yyyymmdd destParts) (yyyymmdd srcParts))
    then mret (Some (Err (ErrOther
           "Source and Destination should have same partition/template date: ")))
    else
    match getTable YYYYMMDD (ds_ProjectID srcDS) (ds_DatasetID srcDS)
                   (prefix srcParts) (yyyymmdd srcParts) with
    | inl err => log [LErr (Err err)] ;; mret (Some (Err err))
    | inr dedupTable =>
    if String.eqb (DatasetID destTable) (DatasetID dedupTable)
    then mret (Some (Err (ErrOther
           ("Dedup and Destination should be in different datasets: "
            ++ FullyQualifiedName dedupTable))))
    else
    let srcTable := Table_of srcDS (Name srcInfo) in
    merr ← perform (EvMetadata srcTable) (bq_Metadata bq srcTable);
    match merr with
    | Some err => log [LErr err] ;; mret (Some err)
    | None =>
    aerr ← (if negb (IgnoreDestAge options)
            then checkDestOlder srcInfo destTable
            else mret None);
    match aerr with
    | Some err => log [LErr err] ;; mret (Some err)
    | None =>
    sd ← GetTableDetail srcTable;
    match sd with
    | (_, Some err) => mret (Some err)
    | (srcDetail, None) =>
    dd ← GetTableDetail destTable;
    match dd with
    | (_, Some err) => mret (Some err)
    | (destDetail, None) =>
    cerr ← checkDetails_logged srcDetail destDetail;
    match cerr with
    | Some err => log [LErr err] ;; mret (Some err)
    | None =>
    if DryRun options
    then log [LText "Dedup dry run:"; LText (Name srcInfo); LText "test_id";
              LTable dedupTable] ;;
         mret None
    else
    derr ← (if negb (CopyOnly options)
            then perform (EvDedup (Name srcInfo) "test_id" dedupTable)
                         (bq_Dedup bq (Name srcInfo) "test_id" dedupTable)
            else mret None);
    match derr with
    | Some err => log [LErr err] ;; mret (Some err)
    | None =>
    ud ← GetTableDetail dedupTable;
    match ud with
    | (_, Some err) => mret (Some err)
    | (dedupDetail, None) =>
    cerr2 ← checkDetails_logged dedupDetail destDetail;
    match cerr2 with
    | Some err => mret (Some err)
    | None =>
    SanityCheckAndCopy dedupTable (DatasetID destTable) (prefix destParts)
    end end end end end end end end end end end end.

(** The loop of [ProcessTablesMatching] over the tables found. *)
Fixpoint processTables (dsExt : Dataset) (destDataset destBase : string)
    (options : Options) (info : list TableInfo) : B (option bqerror) :=
    match info with
    | [] => mret None
    | srcInfo :: rest =>
        now ← perform EvNow (bq_Now bq);
        if Sub now (LastModifiedTime srcInfo) <? MinSrcAge options
        then processTables dsExt destDataset destBase options rest
        else
          match getTableParts YYYYMMDD (Name srcInfo) with
          | inl err => mret (Some (Err err))
          | inr parts =>
              let destTable :=
                match getTable YYYYMMDD (ds_ProjectID dsExt) destDataset destBase
                               (yyyymmdd parts) with
                | inr t => Some t
                | inl _ => None
                end in
              err ← CheckAndDedup dsExt srcInfo destTable options;
              match err with
              | Some e =>
                  log [LErr e; LText "dedupping";
                       LText (ds_DatasetID dsExt ++ "." ++ Name srcInfo);
                       LText "to"; LText (destDataset ++ "." ++ destBase)] ;;
                  mret (Some e)
              | None => processTables dsExt destDataset destBase options rest
              end
          end
    end.

(** [func ProcessTablesMatching(dsExt, srcPattern, destDataset, destBase,
      options) error] *)
Definition ProcessTablesMatching (dsExt : Dataset)
    (srcPattern destDataset destBase : string) (options : Options)
    : B (option bqerror) :=
    let srcParts := Sidestream.Split srcPattern "_" in
    if negb (length srcParts =? 2)%nat
    then mret (Some (Err (ErrOther ("Invalid source pattern: " ++ srcPattern))))
    else
      r ← perform (EvTables srcPattern) (bq_Tables bq srcPattern);
      match r with
      | inl err => mret (Some err)
      | inr info =>
          log [LText "Examining"; LCount (length info); LText "source tables"] ;;
          (fun w => (Ret tt, w, map (fun i => EvLog [LInfo i]) info)) ;;
          processTables dsExt destDataset destBase options info
      end.

End BigQuery.
Arguments BigQuery : clear implicits.

(** The changes of tables in a trace: the deduplications and the
    copies. *)
Definition dedups (t : list event) : list (string * Table) :=
    omap (fun e => match e with EvDedup src _ dest => Some (src, dest) | _ => None end) t.

Definition copies (t : list event) : list (Table * Table) :=
    omap (fun e => match e with EvCopy src dest => Some (src, dest) | _ => None end) t.

(** A trace without a request that changes a table. *)
Definition quiet (t : list event) : Prop := dedups t = [] /\ copies t = [].

(** The run [real] goes on from where the dry run [dry] stopped: it is
    the same run when the dry run did not return nil, and otherwise its
    events are those of the dry run before the last line logged, and
    more. *)
Definition goes_on {world : Type}
    (dry real : result (option bqerror) * world * list event) : Prop :=
    (fst (fst dry) <> Ret None -> real = dry) /\
    (fst (fst dry) = Ret None ->
     exists pre line rest,
       snd dry = (pre ++ [EvLog line])%list /\ snd real = (pre ++ rest)%list).

(** The options with [DryRun] set or not. *)
Definition withDryRun (dry : bool) (o : Options) : Options :=
    mkOptions (MinSrcAge o) (IgnoreDestAge o) dry (CopyOnly o).

(** The requests sent to BigQuery in a trace, all of them. *)
Definition is_request (e : event) : bool :=
    match e with
    | EvTables _ | EvMetadata _ | EvQueryPartition _ _ | EvQueryDetail _ _ _
    | EvDedup _ _ _ | EvCopy _ _ => true
    | _ => false
    end.

Definition requests (t : list event) : list event := List.filter is_request t.

End DedupRun.

(** * Theorems *)

(** ** Machine integers *)

Module GoIntFacts.
Import GoInt.

Lemma wrap64_id z : in_int64 z -> wrap64 z = z.
Proof.
  unfold in_int64, min_int64, max_int64, wrap64. intros H.
  rewrite Z.mod_small by lia. lia.
Qed.

Lemma wrap64_range z : in_int64 (wrap64 z).
Proof.
  unfold in_int64, min_int64, max_int64, wrap64.
  pose proof (Z.mod_pos_bound (z + 2 ^ 63) (2 ^ 64)). lia.
Qed.

Lemma wrap64_congr x q : wrap64 (x + q * 2 ^ 64) = wrap64 x.
Proof.
  unfold wrap64. replace (x + q * 2 ^ 64 + 2 ^ 63) with (x + 2 ^ 63 + q * 2 ^ 64) by lia.
  now rewrite Z_mod_plus_full.
Qed.

Lemma wrap64_eqm x : exists q, wrap64 x = x + q * 2 ^ 64.
Proof.
  exists (- ((x + 2 ^ 63) / 2 ^ 64)). unfold wrap64.
  pose proof (Z.div_mod (x + 2 ^ 63) (2 ^ 64) ltac:(lia)). lia.
Qed.

(** Doubling twice in the register is doubling the exact value twice. *)
Lemma wrap64_double x : wrap64 (wrap64 x * 2) = wrap64 (x * 2).
Proof.
  destruct (wrap64_eqm x) as [q ->].
  replace ((x + q * 2 ^ 64) * 2) with (x * 2 + (2 * q) * 2 ^ 64) by lia.
  apply wrap64_congr.
Qed.

End GoIntFacts.

(** ** Strings *)

Module StringFacts.
Import Regexp.
Local Open Scope string_scope.

Lemma append_nil_r (s : string) : s ++ "" = s.
Proof.
  induction s as [|c s IH]; [reflexivity|].
  change (String c s ++ "") with (String c (s ++ "")). now rewrite IH.
Qed.

Lemma append_assoc (s1 s2 s3 : string) : (s1 ++ s2) ++ s3 = s1 ++ (s2 ++ s3).
Proof.
  induction s1 as [|c s1 IH]; [reflexivity|].
  change ((String c s1 ++ s2) ++ s3) with (String c ((s1 ++ s2) ++ s3)).
  now rewrite IH.
Qed.

Lemma length_append (s t : string) :
  String.length (s ++ t) = (String.length s + String.length t)%nat.
Proof.
  induction s as [|c s IH]; [reflexivity|].
  change (String c s ++ t) with (String c (s ++ t)).
  cbn [String.length]. now rewrite IH.
Qed.

Lemma substring_prefix (p s : string) :
  substring 0 (String.length p) (p ++ s) = p.
Proof.
  induction p as [|c p IH]; [destruct s; reflexivity|].
  change (String c p ++ s) with (String c (p ++ s)). cbn. now rewrite IH.
Qed.

(** What lies between a position and a later one is what was read. *)
Lemma consumed_app (p s' : string) : consumed (p ++ s') s' = p.
Proof.
  unfold consumed. rewrite length_append.
  replace (String.length p + String.length s' - String.length s')%nat
    with (String.length p) by lia.
  apply substring_prefix.
Qed.

End StringFacts.

(** ** Package row *)

Module RowSpec.
Import GoInt GoIntFacts Row.

Local Ltac unwrap :=
  repeat match goal with
  | |- context [wrap64 ?z] =>
      rewrite (wrap64_id z) by (unfold in_int64, min_int64, max_int64 in *; lia)
  end.

Lemma Total_exact s :
  stats_ok s -> Total s = Buffered s + Pending s + Committed s + Failed s.
Proof.
  intros [(Hb & Hp & Hc & Hf) Hsum]. unfold Total, add64.
  unfold max_int64 in Hsum. now unwrap.
Qed.

(** One legal call keeps the counters in range, logs nothing, and moves
    [Total] up by one ([Inc]) or not at all. *)
Lemma call_legal s c :
  stats_ok s -> legal s c ->
  stats_ok (fst (call c s)) /\ snd (call c s) = [] /\
  Total s <= Total (fst (call c s)).
Proof.
  intros Hok Hl. pose proof (Total_exact s Hok) as Ht.
  assert (Hok' : stats_ok (fst (call c s))).
  { destruct Hok as [(Hb & Hp & Hc & Hf) Hsum]. unfold max_int64 in Hsum.
    destruct c as [|n|n [|]]; cbn in *; unfold stats_ok, nonneg, max_int64 in *;
      cbn; unfold add64, sub64; unwrap; lia. }
  split; [exact Hok'|].
  rewrite (Total_exact _ Hok'), Ht.
  destruct Hok as [(Hb & Hp & Hc & Hf) Hsum]. unfold max_int64 in Hsum.
  destruct c as [|n|n [|]]; cbn in *; unfold max_int64 in *;
    unfold add64, sub64; unwrap; (split; [|lia]);
    try reflexivity;
    match goal with |- context [?x <? 0] => destruct (Z.ltb_spec x 0) end;
    (reflexivity || lia).
Qed.

(** C8. Along every legal call sequence on an ActiveStats (Inc;
    MoveToPending(n) with n at most the current Buffered; Done(n, err) with
    n at most the current Pending; n a number of rows, and the rows handled
    within the range of Go's int), after every call all four counters are
    non-negative, and Total() never decreases from one call to the next;
    the "BROKEN" lines are never logged. *)
Theorem active_stats_invariant (s0 : Stats) (cs : list Call) :
  stats_ok s0 -> legal_seq s0 cs ->
  Forall nonneg (run s0 cs) /\
  (forall (i : nat) (a b : Stats),
      (s0 :: run s0 cs) !! i = Some a -> (s0 :: run s0 cs) !! S i = Some b ->
      Total a <= Total b) /\
  run_log s0 cs = [].
Proof.
  revert s0. induction cs as [|c cs IH]; intros s0 Hok Hl.
  - cbn. split; [constructor|]. split; [|reflexivity].
    intros i a b _ Hb. destruct i; discriminate.
  - destruct Hl as [Hc Hl].
    destruct (call_legal s0 c Hok Hc) as (Hok' & Hlog & Hmono).
    destruct (IH _ Hok' Hl) as (Hnn & Hstep & Hlogs).
    cbn [run run_log]. split; [|split].
    + constructor; [apply Hok'|exact Hnn].
    + intros [|i] a b Ha Hb.
      * cbn in Ha, Hb. inversion Ha; inversion Hb; subst. exact Hmono.
      * exact (Hstep i a b Ha Hb).
    + rewrite Hlog, Hlogs. reflexivity.
Qed.

Lemma active_stats_invariant_witness :
  let cs := [CInc; CInc; CMoveToPending 2; CDone 1 true; CDone 1 false] in
  Forall nonneg (run zeroStats cs) /\
  (forall (i : nat) (a b : Stats),
      (zeroStats :: run zeroStats cs) !! i = Some a ->
      (zeroStats :: run zeroStats cs) !! S i = Some b ->
      Total a <= Total b) /\
  run_log zeroStats cs = [].
Proof.
  apply active_stats_invariant.
  - vm_compute. repeat split; discriminate.
  - vm_compute. repeat split; (reflexivity || discriminate).
Defined.

Section BufferFacts.
Context {row : Type}.
Implicit Types (buf : Buffer row) (rs : list row).

Lemma batches_None (outs : list (option (list row))) :
  batches (None :: outs) = batches outs.
Proof. reflexivity. Qed.

Lemma batches_Some b (outs : list (option (list row))) :
  batches (Some b :: outs) =
  if decide (b <> []) then b :: batches outs else batches outs.
Proof.
  unfold batches. change (omap id (Some b :: outs)) with (b :: omap id outs).
  now rewrite filter_cons.
Qed.

Lemma concat_batches_Some b (outs : list (option (list row))) :
  concat (batches (Some b :: outs)) = b ++ concat (batches outs).
Proof.
  rewrite batches_Some. destruct (decide (b <> [])) as [Hne|He].
  - reflexivity.
  - destruct b; [reflexivity|]. exfalso. apply He. discriminate.
Qed.

Lemma size_appends rs buf : size (fst (appends rs buf)) = size buf.
Proof.
  revert buf. induction rs as [|r rs IH]; intros buf; [reflexivity|].
  cbn. unfold Append.
  destruct (Z.of_nat (length (rows buf)) <? size buf);
    match goal with |- context [appends rs ?b] =>
      specialize (IH b); destruct (appends rs b) end; cbn in *; exact IH.
Qed.

(** Nothing is lost, duplicated or reordered. *)
Lemma returned_concat rs buf : concat (returned rs buf) = rows buf ++ rs.
Proof.
  unfold returned. revert buf. induction rs as [|r rs IH]; intros buf.
  - cbn. now rewrite !app_nil_r.
  - cbn [appends]. unfold Append.
    destruct (Z.of_nat (length (rows buf)) <? size buf);
      match goal with |- context [appends rs ?b] =>
        specialize (IH b); destruct (appends rs b) as [buf2 outs] end;
      cbn [rows size] in IH; rewrite concat_app in *.
    + rewrite batches_None, IH, <- app_assoc. reflexivity.
    + rewrite concat_batches_Some, <- app_assoc, IH. reflexivity.
Qed.

(** The buffer never holds more than [max size 1] rows. *)
Lemma returned_bounded rs buf :
  Z.of_nat (length (rows buf)) <= Z.max (size buf) 1 ->
  Forall (fun b => Z.of_nat (length b) <= Z.max (size buf) 1) (returned rs buf).
Proof.
  unfold returned. revert buf. induction rs as [|r rs IH]; intros buf Hlen.
  - cbn. constructor; [exact Hlen|constructor].
  - cbn [appends]. unfold Append.
    destruct (Z.ltb_spec (Z.of_nat (length (rows buf))) (size buf)) as [Hlt|Hge];
      match goal with |- context [appends rs ?b] =>
        specialize (IH b); destruct (appends rs b) as [buf2 outs] end;
      cbn [rows size] in IH.
    + rewrite batches_None. apply IH. rewrite length_app. cbn. lia.
    + assert (Hrest : Forall (fun b => Z.of_nat (length b) <= Z.max (size buf) 1)
                        (batches outs ++ [rows buf2]))
        by (apply IH; cbn; lia).
      rewrite batches_Some.
      destruct (decide (rows buf <> [])); [constructor; assumption|assumption].
Qed.

End BufferFacts.

(** C7 (amended). For every sequence of rows appended to a fresh buffer of
    capacity N, the non-empty batches returned by Append, followed by the
    batch of the final Reset, concatenate to exactly the appended rows in
    order, and no returned batch is longer than max(N, 1). *)
Theorem buffer_append_reset {row : Type} (N : Z) (buf0 : Buffer row) (rs : list row) :
  NewBuffer N = Some buf0 ->
  concat (returned rs buf0) = rs /\
  Forall (fun b => Z.of_nat (length b) <= Z.max N 1) (returned rs buf0).
Proof.
  unfold NewBuffer. destruct (N <? 0); [discriminate|].
  intros [= <-]. split.
  - now rewrite returned_concat.
  - apply (returned_bounded rs (mkBuffer N [])). cbn. lia.
Qed.

Lemma buffer_append_reset_witness :
  concat (returned [1; 2; 3; 4; 5]%nat (mkBuffer 2 [])) = [1; 2; 3; 4; 5]%nat /\
  Forall (fun b => Z.of_nat (length b) <= Z.max 2 1)
         (returned [1; 2; 3; 4; 5]%nat (mkBuffer 2 [])).
Proof. apply (buffer_append_reset 2). reflexivity. Defined.

(** With capacity 0 (the buffer size of the "invalid" data type) every
    Append after the first hands back a batch of one row, which is longer
    than the capacity. *)
Lemma buffer_batch_exceeds_capacity :
  NewBuffer 0 = Some (mkBuffer 0 ([] : list nat)) /\
  ~ Forall (fun b => Z.of_nat (length b) <= 0)
           (returned [7; 8]%nat (mkBuffer 0 [])).
Proof.
  split; [reflexivity|]. intros H.
  assert (E : returned [7; 8]%nat (mkBuffer 0 []) = [[7]; [8]]%nat) by reflexivity.
  rewrite E in H. inversion H as [|? ? H1 _]. cbn in H1. lia.
Qed.

End RowSpec.

(** ** Package storage *)

Module StorageSpec.
Import GoInt GoIntFacts GoStrings Storage.
Local Open Scope string_scope.
Local Open Scope Z_scope.

Lemma sleeps_of_app t1 t2 :
  sleeps_of (t1 ++ t2) = (sleeps_of t1 ++ sleeps_of t2)%list.
Proof. apply omap_app. Qed.

Lemma backoffs_skipn (base : Z) (k : nat) :
  (k < 9)%nat ->
  skipn k (backoffs base)
  = wrap64 (base * 2 ^ Z.of_nat (S k)) :: skipn (S k) (backoffs base).
Proof.
  intros Hk. unfold backoffs.
  do 9 (destruct k as [|k]; [reflexivity|]). lia.
Qed.

Section Facts.
Context {reader : Type} (rr : ETLSource reader).

(** What one call of [nextHeader] does. *)
Lemma nextHeader_eq trial s :
  nextHeader rr trial s =
  match tr_Next (ops rr) s with
  | (inr h, s1) => ((Some h, true, None), s1, [EvNext])
  | (inl err, s1) =>
      if is_EOF err then ((None, false, Some err), s1, [EvNext])
      else ((None, true, Some err), s1,
            [EvNext;
             EvRetryCount (TableBase rr) "next" trial
               (if Contains (Error err) "unexpected EOF"
                then "unexpected EOF" else "other");
             EvLog "nextHeader"])
  end.
Proof.
  unfold nextHeader, mbind, M_bind, perform.
  destruct (tr_Next (ops rr) s) as [[err|h] s1]; [|reflexivity].
  destruct (is_EOF err); [reflexivity|].
  destruct (Contains (Error err) "unexpected EOF"); reflexivity.
Qed.

Lemma readResult_props phase trial r s :
  let '((data, retry, err), s1, t) := readResult rr phase trial r s in
  sleeps_of t = [] /\ (err <> None -> data = None).
Proof.
  unfold readResult, mbind, M_bind. destruct r as [err|data].
  - destruct (Contains (Error err) "stream error"); cbn; auto.
  - cbn. split; [reflexivity|]. intros H; now contradiction H.
Qed.

(** A call of [nextData] does not sleep, and hands back no data together
    with an error. *)
Lemma nextData_props h trial s :
  let '((data, retry, err), s1, t) := nextData rr h trial s in
  sleeps_of t = [] /\ (err <> None -> data = None).
Proof.
  unfold nextData, mbind, M_bind, perform.
  destruct (HasSuffix (ToLower (Name h)) "gz").
  - destruct (tr_GzipNewReader (ops rr) s) as [[err|] s1].
    + destruct (is_EOF err); cbn; auto.
    + destruct (tr_GzipReadAll (ops rr) s1) as [r s2].
      pose proof (readResult_props "read zip" trial r s2) as H.
      destruct (readResult rr "read zip" trial r s2) as [[[[data retry] err] s3] t].
      exact H.
  - destruct (tr_ReadAll (ops rr) s) as [r s2].
    pose proof (readResult_props "read" trial r s2) as H.
    destruct (readResult rr "read" trial r s2) as [[[[data retry] err] s3] t].
    exact H.
Qed.

Lemma add64_trial (k : nat) : (k <= 9)%nat -> add64 (Z.of_nat k) 1 = Z.of_nat (S k).
Proof.
  intros Hk. unfold add64. rewrite wrap64_id; [lia|].
  unfold in_int64, min_int64, max_int64. lia.
Qed.

Lemma next_delay base delay (k : nat) :
  wrap64 (delay * 2) = wrap64 (base * 2 ^ Z.of_nat (S k)) ->
  mul64 delay 2 = wrap64 (base * 2 ^ Z.of_nat (S k)) /\
  wrap64 (mul64 delay 2 * 2) = wrap64 (base * 2 ^ Z.of_nat (S (S k))).
Proof.
  intros H. unfold mul64. split; [exact H|].
  rewrite wrap64_double, <- wrap64_double, H, wrap64_double. f_equal.
  rewrite (Nat2Z.inj_succ (S k)), Z.pow_succ_r by lia. lia.
Qed.

(** The header loop returns within ten trials, and its sleeps are the
    delays [backoffs] from the current trial on. *)
Lemma headerLoop_props base fuel : forall (k : nat) (delay : Z) s,
  (k <= 9)%nat -> (10 - k <= fuel)%nat ->
  wrap64 (delay * 2) = wrap64 (base * 2 ^ Z.of_nat (S k)) ->
  let '(r, s1, t) := headerLoop rr fuel (Z.of_nat k) delay s in
  r <> None /\
  exists n, (n <= 9 - k)%nat /\ sleeps_of t = firstn n (skipn k (backoffs base)).
Proof.
  induction fuel as [|fuel IH]; intros k delay s Hk Hfuel Hdelay; [lia|].
  cbn [headerLoop]. rewrite (add64_trial k Hk).
  unfold mbind at 1, M_bind at 1. rewrite nextHeader_eq.
  destruct (tr_Next (ops rr) s) as [[err|h] s1].
  2:{ cbn. split; [discriminate|]. exists 0%nat. split; [lia|reflexivity]. }
  destruct (is_EOF err).
  { cbn. split; [discriminate|]. exists 0%nat. split; [lia|reflexivity]. }
  cbn [negb orb].
  destruct (Z.leb_spec 10 (Z.of_nat (S k))) as [Hge|Hlt].
  { cbn. split; [discriminate|]. exists 0%nat. split; [lia|reflexivity]. }
  destruct (next_delay base delay k Hdelay) as [Hd1 Hd2].
  specialize (IH (S k) (mul64 delay 2) s1 ltac:(lia) ltac:(lia) Hd2).
  unfold mbind, M_bind, emit.
  destruct (headerLoop rr fuel (Z.of_nat (S k)) (mul64 delay 2) s1)
    as [[r s2] t2].
  destruct IH as [Hr (n & Hn & Hs)]. split; [exact Hr|].
  exists (S n). split; [lia|].
  rewrite (backoffs_skipn base k) by lia.
  cbn -[backoffs]. fold (sleeps_of t2). rewrite Hs, Hd1. reflexivity.
Qed.

(** The same for the data loop. *)
Lemma dataLoop_props base h fuel : forall (k : nat) (delay : Z) s,
  (k <= 9)%nat -> (10 - k <= fuel)%nat ->
  wrap64 (delay * 2) = wrap64 (base * 2 ^ Z.of_nat (S k)) ->
  let '(r, s1, t) := dataLoop rr fuel h (Z.of_nat k) delay s in
  r <> None /\
  exists n, (n <= 9 - k)%nat /\ sleeps_of t = firstn n (skipn k (backoffs base)).
Proof.
  induction fuel as [|fuel IH]; intros k delay s Hk Hfuel Hdelay; [lia|].
  cbn [dataLoop]. rewrite (add64_trial k Hk).
  unfold mbind at 1, M_bind at 1.
  pose proof (nextData_props h (Z.of_nat (S k)) s) as Hnd.
  destruct (nextData rr h (Z.of_nat (S k)) s) as [[[[data retry] [err|]] s1] t1].
  2:{ cbn -[sleeps_of backoffs]. destruct Hnd as [Hnd _].
      rewrite app_nil_r, Hnd. split; [discriminate|].
      exists 0%nat. split; [lia|reflexivity]. }
  destruct Hnd as [Hnd _].
  destruct (negb retry || (10 <=? Z.of_nat (S k))) eqn:Hstop.
  { cbn -[sleeps_of backoffs]. rewrite app_nil_r, Hnd. split; [discriminate|].
    exists 0%nat. split; [lia|reflexivity]. }
  apply orb_false_iff in Hstop. destruct Hstop as [_ Hlt].
  apply Z.leb_gt in Hlt.
  destruct (next_delay base delay k Hdelay) as [Hd1 Hd2].
  specialize (IH (S k) (mul64 delay 2) s1 ltac:(lia) ltac:(lia) Hd2).
  unfold mbind, M_bind, emit.
  destruct (dataLoop rr fuel h (Z.of_nat (S k)) (mul64 delay 2) s1)
    as [[r s2] t2].
  destruct IH as [Hr (n & Hn & Hs)]. split; [exact Hr|].
  exists (S n). split; [lia|].
  rewrite (backoffs_skipn base k) by lia.
  rewrite sleeps_of_app, Hnd.
  cbn -[backoffs]. fold (sleeps_of t2). rewrite Hs, Hd1. reflexivity.
Qed.

Lemma base_delay base : wrap64 (base * 2) = wrap64 (base * 2 ^ Z.of_nat 1).
Proof. f_equal. Qed.

(** The outcome of the header phase, for a caller that has ten units of
    fuel: it is never out of fuel. *)
Lemma NextTest_body_props maxSize s :
  let '(r, s1, t) := NextTest_body rr 10 maxSize s in
  r <> None /\
  exists n1 n2 : nat, (n1 <= 9)%nat /\ (n2 <= 9)%nat /\
    sleeps_of t = (firstn n1 (backoffs (RetryBaseTime rr)) ++
                   firstn n2 (backoffs (RetryBaseTime rr)))%list.
Proof.
  unfold NextTest_body, mbind, M_bind.
  pose proof (headerLoop_props (RetryBaseTime rr) 10 0 (RetryBaseTime rr) s
                ltac:(lia) ltac:(lia) (base_delay _)) as Hh.
  change (Z.of_nat 0) with 0 in Hh.
  destruct (headerLoop rr 10 0 (RetryBaseTime rr) s) as [[hr s1] t1].
  destruct Hh as [Hr (n1 & Hn1 & Hs1)]. change (skipn 0 ?l) with l in Hs1.
  assert (Hdone : forall res : string * option bytes * option error,
    Some res <> None /\
    exists n1 n2 : nat, (n1 <= 9)%nat /\ (n2 <= 9)%nat /\
      sleeps_of (t1 ++ []) = (firstn n1 (backoffs (RetryBaseTime rr)) ++
                              firstn n2 (backoffs (RetryBaseTime rr)))%list).
  { intros res. split; [discriminate|]. exists n1, 0%nat.
    rewrite !app_nil_r. split; [lia|]. split; [lia|exact Hs1]. }
  destruct hr as [[err|h]|]; [apply Hdone| |contradiction].
  destruct (maxSize <? Size h); [apply Hdone|].
  destruct (negb (Byte.eqb (Typeflag h) TypeReg)); [apply Hdone|].
  pose proof (dataLoop_props (RetryBaseTime rr) h 10 0 (RetryBaseTime rr) s1
                ltac:(lia) ltac:(lia) (base_delay _)) as Hd.
  change (Z.of_nat 0) with 0 in Hd.
  destruct (dataLoop rr 10 h 0 (RetryBaseTime rr) s1) as [[d s2] t2].
  destruct Hd as [Hd (n2 & Hn2 & Hs2)]. change (skipn 0 ?l) with l in Hs2.
  destruct d as [data|]; [|contradiction].
  cbn -[sleeps_of backoffs]. split; [discriminate|]. exists n1, n2.
  rewrite app_nil_r, sleeps_of_app, Hs1, Hs2. split; [lia|]. split; [lia|reflexivity].
Qed.

(** NextTest always returns: ten units of fuel are never used up. *)
Lemma NextTest_returns maxSize s :
  fst (fst (NextTest rr maxSize s)) <> None.
Proof.
  unfold NextTest, NextTest_fuel, mbind, M_bind, emit.
  pose proof (NextTest_body_props maxSize s) as H.
  destruct (NextTest_body rr 10 maxSize s) as [[r s1] t]. cbn. apply H.
Qed.

Lemma NextTest_unfold maxSize s :
  NextTest rr maxSize s =
  let '(r, s1, t) := NextTest_body rr 10 maxSize s in
  (r, s1, ([EvWorkerState (TableBase rr) "read" 1] ++ t ++
           [EvWorkerState (TableBase rr) "read" (-1)])%list).
Proof.
  unfold NextTest, NextTest_fuel, mbind, M_bind, emit.
  destruct (NextTest_body rr 10 maxSize s) as [[r s1] t]. reflexivity.
Qed.

End Facts.

Lemma next_calls_nil_app (t1 t2 : list event) :
  next_calls t1 = 0%nat -> next_calls t2 = 0%nat -> next_calls (t1 ++ t2) = 0%nat.
Proof.
  unfold next_calls. rewrite omap_app, length_app. intros -> ->. reflexivity.
Qed.

Section Trials.
Context {reader : Type} (rr : ETLSource reader).

Lemma is_EOF_false (err : error) : is_EOF err = false -> err <> EOF.
Proof. now intros H ->. Qed.

Lemma is_EOF_true (err : error) : is_EOF err = true -> err = EOF.
Proof. now destruct err. Qed.

(** The header loop, trial by trial: every answer of [Next] but [io.EOF]
    and a header is retried until the tenth trial. *)
Lemma headerLoop_trials fuel : forall (k : nat) (delay : Z) s,
  (k <= 9)%nat -> (10 - k <= fuel)%nat ->
  wrap64 (delay * 2) = wrap64 (RetryBaseTime rr * 2 ^ Z.of_nat (S k)) ->
  exists (errs : list error) (last : error + Header) (s1 : reader),
    next_answers rr (S (length errs)) s = (map inl errs ++ [last], s1)%list /\
    Forall (fun e => e <> EOF) errs /\
    (k + length errs <= 9)%nat /\
    headerLoop rr fuel (Z.of_nat k) delay s
    = (Some last, s1,
       (retriedTrials rr (S k) errs
        ++ lastTrial rr (S k + length errs) last)%list) /\
    match last with
    | inl err => err = EOF \/ (k + length errs = 9)%nat
    | inr _ => True
    end.
Proof.
  induction fuel as [|fuel IH]; intros k delay s Hk Hfuel Hdelay; [lia|].
  cbn [headerLoop]. rewrite (add64_trial k Hk).
  unfold mbind at 1, M_bind at 1. rewrite nextHeader_eq.
  destruct (tr_Next (ops rr) s) as [[err|h] s1] eqn:HN.
  2:{ exists [], (inr h), s1. cbn [length map app next_answers]. rewrite HN.
      split; [reflexivity|]. split; [constructor|]. split; [lia|].
      split; [reflexivity|exact I]. }
  destruct (is_EOF err) eqn:HE.
  { exists [], (inl err), s1. cbn [length map app next_answers]. rewrite HN.
    split; [reflexivity|]. split; [constructor|]. split; [lia|].
    split; [cbn; now rewrite HE|]. left. now apply is_EOF_true. }
  cbn [negb orb].
  destruct (Z.leb_spec 10 (Z.of_nat (S k))) as [Hge|Hlt].
  { exists [], (inl err), s1. cbn [length map app next_answers]. rewrite HN.
    split; [reflexivity|]. split; [constructor|]. split; [lia|].
    split; [|right; lia].
    cbn [retriedTrials lastTrial app]. rewrite HE, Nat.add_0_r. reflexivity. }
  destruct (next_delay (RetryBaseTime rr) delay k Hdelay) as [Hd1 Hd2].
  destruct (IH (S k) (mul64 delay 2) s1 ltac:(lia) ltac:(lia) Hd2)
    as (errs & last & s2 & Hans & Hne & Hlen & Hloop & Hlast).
  exists (err :: errs), last, s2.
  split.
  { cbn [length]. change (next_answers rr (S (S (length errs))) s)
      with (let '(r, s1) := tr_Next (ops rr) s in
            let '(rs, s2) := next_answers rr (S (length errs)) s1 in
            (r :: rs, s2)).
    rewrite HN, Hans. reflexivity. }
  split; [constructor; [now apply is_EOF_false|exact Hne]|].
  split; [cbn [length]; lia|].
  split.
  { unfold mbind, M_bind, emit. rewrite Hloop.
    cbn [retriedTrials length]. rewrite Hd1, Nat.add_succ_r.
    unfold failedTrial. cbn [app]. reflexivity. }
  destruct last as [e|h]; [|exact I].
  destruct Hlast as [->|Hl]; [now left|right; cbn [length]; lia].
Qed.

Lemma readResult_no_Next phase trial r s :
  next_calls (snd (readResult rr phase trial r s)) = 0%nat.
Proof.
  unfold readResult, mbind, M_bind. destruct r as [err|data]; [|reflexivity].
  destruct (Contains (Error err) "stream error"); reflexivity.
Qed.

Lemma nextData_no_Next h trial s :
  next_calls (snd (nextData rr h trial s)) = 0%nat.
Proof.
  unfold nextData, mbind, M_bind, perform.
  destruct (HasSuffix (ToLower (Name h)) "gz").
  - destruct (tr_GzipNewReader (ops rr) s) as [[err|] s1].
    + destruct (is_EOF err); reflexivity.
    + destruct (tr_GzipReadAll (ops rr) s1) as [r s2].
      pose proof (readResult_no_Next "read zip" trial r s2) as H.
      destruct (readResult rr "read zip" trial r s2) as [[x s3] t].
      cbn [snd] in *. destruct x as [[? ?] ?].
      cbn [snd]. apply next_calls_nil_app; [reflexivity|].
      apply next_calls_nil_app; [reflexivity|exact H].
  - destruct (tr_ReadAll (ops rr) s) as [r s2].
    pose proof (readResult_no_Next "read" trial r s2) as H.
    destruct (readResult rr "read" trial r s2) as [[x s3] t].
    cbn [snd] in *. destruct x as [[? ?] ?].
    cbn [snd]. apply next_calls_nil_app; [reflexivity|exact H].
Qed.

(** The body phase does not call [Next]. *)
Lemma dataLoop_no_Next h fuel : forall trial delay s,
  next_calls (snd (dataLoop rr fuel h trial delay s)) = 0%nat.
Proof.
  induction fuel as [|fuel IH]; intros trial delay s; [reflexivity|].
  cbn [dataLoop]. unfold mbind at 1, M_bind at 1.
  pose proof (nextData_no_Next h (add64 trial 1) s) as Hn.
  destruct (nextData rr h (add64 trial 1) s) as [[[[data retry] [err|]] s1] t1];
    cbn [snd] in Hn.
  2:{ cbn [snd mret M_ret]. now apply next_calls_nil_app. }
  destruct (negb retry || (10 <=? add64 trial 1)).
  { cbn [snd mret M_ret]. now apply next_calls_nil_app. }
  unfold mbind, M_bind, emit.
  specialize (IH (add64 trial 1) (mul64 delay 2) s1).
  destruct (dataLoop rr fuel h (add64 trial 1) (mul64 delay 2) s1) as [[r s2] t2].
  cbn [snd] in *. apply next_calls_nil_app; [exact Hn|].
  apply next_calls_nil_app; [reflexivity|exact IH].
Qed.

End Trials.

(** The sleeps of the retried trials are the first delays of the
    sequence. *)
Lemma retried_sleeps_from {reader : Type} (rr : ETLSource reader)
    (errs : list error) : forall k : nat,
  (k + length errs <= 9)%nat ->
  sleeps_of (retriedTrials rr (S k) errs)
  = firstn (length errs) (skipn k (backoffs (RetryBaseTime rr))).
Proof.
  induction errs as [|err errs IH]; intros k Hk; [reflexivity|].
  cbn [length] in Hk. cbn [retriedTrials length].
  rewrite (backoffs_skipn (RetryBaseTime rr) k) by lia.
  rewrite !sleeps_of_app. cbn [firstn]. rewrite <- IH by lia. reflexivity.
Qed.

Lemma retried_sleeps {reader : Type} (rr : ETLSource reader) (errs : list error) :
  (length errs <= 9)%nat ->
  sleeps_of (retriedTrials rr 1 errs)
  = firstn (length errs) (backoffs (RetryBaseTime rr)).
Proof. intros H. now apply (retried_sleeps_from rr errs 0). Qed.

(** C2 (amended). In the header-acquisition phase only io.EOF is terminal:
    NextTest returns it without sleeping or calling Next again. Every
    other error of Next, also one whose message contains "unexpected
    EOF", is counted (under the label "unexpected EOF" of the retry
    metric when the message contains it, under "other" otherwise) with the
    number of the trial, logged, and retried: nextHeader reports it as
    retryable, and NextTest sleeps, twice the base delay after the first
    trial and twice as long after each further one, and calls Next again. Such an error is returned to the caller only
    when it is the error of the tenth trial, the nine trials before it
    having failed too. The calls of Next of one call of NextTest are those
    of its header phase. *)
Theorem next_test_unexpected_eof_retried {reader : Type} (rr : ETLSource reader)
    (maxSize : Z) (s : reader) :
  (forall (trial : Z) (s0 s1 : reader) (err : error),
     tr_Next (ops rr) s0 = (inl err, s1) -> err <> EOF ->
     nextHeader rr trial s0
     = ((None, true, Some err), s1,
        [EvNext;
         EvRetryCount (TableBase rr) "next" trial
           (if Contains (Error err) "unexpected EOF"
            then "unexpected EOF" else "other");
         EvLog "nextHeader"])) /\
  exists (errs : list error) (last : error + Header) (s1 : reader)
         (rest : list event),
    next_answers rr (S (length errs)) s = (map inl errs ++ [last], s1)%list /\
    Forall (fun e => e <> EOF) errs /\
    (length errs <= 9)%nat /\
    snd (NextTest rr maxSize s)
    = ([EvWorkerState (TableBase rr) "read" 1]
       ++ retriedTrials rr 1 errs
       ++ lastTrial rr (S (length errs)) last
       ++ rest)%list /\
    next_calls rest = 0%nat /\
    sleeps_of (retriedTrials rr 1 errs)
    = firstn (length errs) (backoffs (RetryBaseTime rr)) /\
    match last with
    | inl err =>
        (err = EOF \/ length errs = 9%nat) /\
        fst (NextTest rr maxSize s) = (Some ("", None, Some err), s1) /\
        rest = [EvWorkerState (TableBase rr) "read" (-1)]
    | inr h =>
        exists data err,
          fst (fst (NextTest rr maxSize s)) = Some (Name h, data, err) /\
          (err = None \/ (err = Some ErrOversizeFile /\ maxSize < Size h))
    end.
Proof.
  split.
  { intros trial s0 s1 err HN Hne. rewrite nextHeader_eq, HN.
    destruct err; [contradiction| |]; reflexivity. }
  destruct (headerLoop_trials rr 10 0 (RetryBaseTime rr) s ltac:(lia) ltac:(lia)
              (base_delay _))
    as (errs & last & s1 & Hans & Hne & Hlen & Hloop & Hlast).
  change (Z.of_nat 0) with 0 in Hloop. cbn [Nat.add] in Hloop, Hlen, Hlast.
  exists errs, last, s1.
  rewrite NextTest_unfold. unfold NextTest_body, mbind, M_bind.
  rewrite Hloop.
  destruct last as [err|h].
  - exists [EvWorkerState (TableBase rr) "read" (-1)].
    split; [exact Hans|]. split; [exact Hne|]. split; [exact Hlen|].
    split; [cbn [mret M_ret snd fst]; now rewrite app_nil_r, <- !app_assoc|].
    split; [reflexivity|]. split; [now apply retried_sleeps|].
    split; [exact Hlast|]. split; reflexivity.
  - destruct (Z.ltb_spec maxSize (Size h)) as [Hover|_].
    { exists [EvWorkerState (TableBase rr) "read" (-1)].
      split; [exact Hans|]. split; [exact Hne|]. split; [exact Hlen|].
      split; [cbn [mret M_ret snd fst]; now rewrite app_nil_r, <- !app_assoc|].
      split; [reflexivity|]. split; [now apply retried_sleeps|]. cbn. eauto 6. }
    destruct (negb (Byte.eqb (Typeflag h) TypeReg)).
    { exists [EvWorkerState (TableBase rr) "read" (-1)].
      split; [exact Hans|]. split; [exact Hne|]. split; [exact Hlen|].
      split; [cbn [mret M_ret snd fst]; now rewrite app_nil_r, <- !app_assoc|].
      split; [reflexivity|]. split; [now apply retried_sleeps|]. cbn. eauto. }
    pose proof (dataLoop_no_Next rr h 10 0 (RetryBaseTime rr) s1) as Hno.
    pose proof (dataLoop_props rr (RetryBaseTime rr) h 10 0 (RetryBaseTime rr) s1
                  ltac:(lia) ltac:(lia) (base_delay _)) as Hd.
    change (Z.of_nat 0) with 0 in Hd.
    destruct (dataLoop rr 10 h 0 (RetryBaseTime rr) s1) as [[[data|] s2] t2];
      [|destruct Hd as [Hd _]; contradiction].
    exists (t2 ++ [EvWorkerState (TableBase rr) "read" (-1)])%list.
    split; [exact Hans|]. split; [exact Hne|]. split; [exact Hlen|].
    split; [cbn [mret M_ret snd fst]; now rewrite app_nil_r, <- !app_assoc|].
    split; [apply next_calls_nil_app; [exact Hno|reflexivity]|].
    split; [now apply retried_sleeps|]. cbn. eauto.
Qed.

(** A header read that fails with "unexpected EOF" is not returned to the
    caller: NextTest sleeps 32 ms, calls Next a second time and returns the
    entry read by that second call. *)
Lemma next_test_unexpected_eof_not_terminal :
  let s := mkScript [inl (ErrMsg "unexpected EOF"); inr (mkHeader "dir/" 0 x35)]
                    [] [] [] in
  fst (fst (NextTest scriptedSource 100 s)) = Some ("dir/", None, None) /\
  sleeps_of (snd (NextTest scriptedSource 100 s)) = [32 * Millisecond] /\
  next_calls (snd (NextTest scriptedSource 100 s)) = 2%nat.
Proof. repeat split. Qed.

(** Once the header of a regular file that is not oversize has been read,
    NextTest returns a nil error, whatever happened to the reads of the
    body. *)
Lemma next_test_regular_nil_error {reader : Type} (rr : ETLSource reader)
    (maxSize : Z) (s s1 : reader) (h : Header) :
  tr_Next (ops rr) s = (inr h, s1) ->
  Size h <= maxSize -> Typeflag h = TypeReg ->
  exists data, fst (fst (NextTest rr maxSize s)) = Some (Name h, data, None).
Proof.
  intros HN Hsize Hreg. rewrite NextTest_unfold. unfold NextTest_body.
  unfold mbind at 1, M_bind at 1. cbn [headerLoop].
  unfold mbind at 1, M_bind at 1. rewrite nextHeader_eq, HN.
  cbn -[dataLoop Byte.eqb]. rewrite Hreg.
  destruct (Z.ltb_spec maxSize (Size h)) as [?|_]; [lia|].
  change (negb (Byte.eqb TypeReg TypeReg)) with false. cbv iota.
  pose proof (dataLoop_props rr (RetryBaseTime rr) h 10 0 (RetryBaseTime rr) s1
                ltac:(lia) ltac:(lia) (base_delay _)) as Hd.
  change (Z.of_nat 0) with 0 in Hd.
  unfold mbind, M_bind.
  destruct (dataLoop rr 10 h 0 (RetryBaseTime rr) s1) as [[[data|] s2] t2].
  - cbn. eauto.
  - destruct Hd as [Hd _]. contradiction.
Qed.

Lemma next_test_regular_nil_error_witness :
  exists data,
    fst (fst (NextTest scriptedSource 100
                (mkScript [inr (mkHeader "f.txt" 10 x30)]
                          [inl (ErrMsg "stream error")] [] [])))
    = Some ("f.txt", data, None).
Proof.
  apply (next_test_regular_nil_error scriptedSource 100 _
           (mkScript [] [inl (ErrMsg "stream error")] [] [])
           (mkHeader "f.txt" 10 x30)).
  - reflexivity.
  - cbn. lia.
  - reflexivity.
Defined.

(** C3 (the code at the failing inputs). When every read of the body of
    a regular entry fails with a retryable "stream error", NextTest gives
    up after the tenth trial (ten reads, nine sleeps) and returns the name,
    nil data and a nil error; when opening the gzip stream of an entry
    fails with the non-retryable io.EOF, it returns the same at once. *)
Theorem next_test_body_error_swallowed :
  let stream_errors :=
    mkScript [inr (mkHeader "f.txt" 10 x30)]
             (repeat (inl (ErrMsg "stream error")) 10) [] [] in
  let gzip_eof :=
    mkScript [inr (mkHeader "f.gz" 10 x30)] [] [Some EOF] [] in
  fst (fst (NextTest scriptedSource 100 stream_errors))
    = Some ("f.txt", None, None) /\
  sleeps_of (snd (NextTest scriptedSource 100 stream_errors))
    = backoffs (16 * Millisecond) /\
  s_read (snd (fst (NextTest scriptedSource 100 stream_errors))) = [] /\
  fst (fst (NextTest scriptedSource 100 gzip_eof)) = Some ("f.gz", None, None) /\
  sleeps_of (snd (NextTest scriptedSource 100 gzip_eof)) = [].
Proof. repeat split. Qed.

(** The sibling header phase does surface the error it gives up on. *)
Lemma next_test_header_error_surfaced :
  let s := mkScript (repeat (inl (ErrMsg "stream error")) 10) [] [] [] in
  fst (fst (NextTest scriptedSource 100 s))
    = Some ("", None, Some (ErrMsg "stream error")) /\
  next_calls (snd (NextTest scriptedSource 100 s)) = 10%nat /\
  sleeps_of (snd (NextTest scriptedSource 100 s)) = backoffs (16 * Millisecond).
Proof. repeat split. Qed.



End StorageSpec.

(** ** Package dedup *)

Module DedupSpec.
Import GoInt GoIntFacts Dedup.






(** *** The backoff of WaitForJob *)












(** *** float32 comparisons *)

Lemma shr_1_nonneg mrs : 0 <= shr_m mrs -> 0 <= shr_m (shr_1 mrs).
Proof.
  destruct mrs as [m r s]. cbn. intros H.
  destruct m as [|[p|p|]|p]; cbn; lia.
Qed.

Lemma iter_shr_1_nonneg p : forall mrs,
  0 <= shr_m mrs -> 0 <= shr_m (SpecFloat.iter_pos shr_1 p mrs).
Proof.
  induction p as [p IH|p IH|]; intros mrs H; cbn.
  - apply IH, IH, shr_1_nonneg, H.
  - apply IH, IH, H.
  - apply shr_1_nonneg, H.
Qed.

Lemma shr_fexp_nonneg prec emax m e l :
  0 <= m -> 0 <= shr_m (fst (shr_fexp prec emax m e l)).
Proof.
  intros H. unfold shr_fexp, shr.
  assert (H0 : 0 <= shr_m (shr_record_of_loc m l))
    by (destruct l as [|[| |]]; exact H).
  destruct (fexp prec emax (Zdigits2 m + e) - e); cbn; try exact H0.
  apply iter_shr_1_nonneg, H0.
Qed.

Lemma round_nearest_even_nonneg m l : 0 <= m -> 0 <= round_nearest_even m l.
Proof.
  intros H. destruct l as [|[| |]]; cbn; try lia.
  destruct (Z.even m); lia.
Qed.

(** Rounding a non-negative mantissa never produces a NaN. *)
Lemma binary_round_aux_not_nan prec emax sx mx ex lx :
  0 <= mx -> is_nan (binary_round_aux prec emax sx mx ex lx) = false.
Proof.
  intros H. unfold binary_round_aux.
  pose proof (shr_fexp_nonneg prec emax mx ex lx H) as H1.
  destruct (shr_fexp prec emax mx ex lx) as [mrs' e']. cbn [fst] in H1.
  pose proof (shr_fexp_nonneg prec emax _ e' loc_Exact
                (round_nearest_even_nonneg _ (loc_of_shr_record mrs') H1)) as H2.
  destruct (shr_fexp prec emax (round_nearest_even (shr_m mrs')
              (loc_of_shr_record mrs')) e' loc_Exact) as [mrs'' e''].
  cbn [fst] in H2. destruct (shr_m mrs'') as [|m|m]; [reflexivity| |lia].
  destruct (e'' <=? emax - prec); reflexivity.
Qed.

Lemma float32_of_int_not_nan n : is_nan (float32_of_int n) = false.
Proof.
  unfold float32_of_int, binary_normalize, binary_round.
  destruct n as [|p|p]; [reflexivity| |];
    destruct (shl_align _ _ _) as [mz ez]; apply binary_round_aux_not_nan; lia.
Qed.

Lemma f32_mul_const_not_nan sc mc ec x :
  is_nan x = false -> is_nan (f32_mul (S754_finite sc mc ec) x) = false.
Proof.
  destruct x as [s|s| |s m e]; intros H; try discriminate; try reflexivity.
  cbn. apply binary_round_aux_not_nan. lia.
Qed.

Lemma f32_0_99_value : f32_0_99 = S754_finite false 16609444 (-24).
Proof. reflexivity. Qed.

Lemma f32_0_95_value : f32_0_95 = S754_finite false 15938355 (-24).
Proof. reflexivity. Qed.

(** On numbers, [x < y] fails exactly when [y <= x]. *)
Lemma f32_lt_false_le x y :
  is_nan x = false -> is_nan y = false ->
  f32_lt x y = false <-> f32_le y x = true.
Proof.
  unfold f32_lt, f32_le, SFltb, SFleb.
  destruct x as [sx|sx| |sx mx ex], y as [sy|sy| |sy my ey];
    intros Hx Hy; try discriminate; cbn;
    try (destruct sx; try destruct sy; cbn; intuition congruence).
  change (Pos.compare_cont Eq my mx) with (Pos.compare my mx).
  change (Pos.compare_cont Eq mx my) with (Pos.compare mx my).
  rewrite (Z.compare_antisym ex ey), (Pos.compare_antisym mx my).
  destruct sx, sy, (ex ?= ey), (mx ?= my)%positive; cbn; intuition congruence.
Qed.

Lemma tasks_lt_iff (src dest : Detail) :
  f32_lt (float32_of_int (TaskFileCount src))
         (f32_mul f32_0_99 (float32_of_int (TaskFileCount dest))) = false
  <-> enough_tasks_f32 src dest.
Proof.
  apply f32_lt_false_le; [apply float32_of_int_not_nan|].
  rewrite f32_0_99_value. apply f32_mul_const_not_nan, float32_of_int_not_nan.
Qed.

Lemma tests_lt_iff (src dest : Detail) :
  f32_lt (float32_of_int (TestCount src))
         (f32_mul f32_0_95 (float32_of_int (TestCount dest))) = false
  <-> enough_tests_f32 src dest.
Proof.
  apply f32_lt_false_le; [apply float32_of_int_not_nan|].
  rewrite f32_0_95_value. apply f32_mul_const_not_nan, float32_of_int_not_nan.
Qed.

Lemma agree_below_spec n num c s d :
  agree_below n num c = true -> (s < n)%nat -> (d < n)%nat ->
  f32_le (f32_mul c (float32_of_int (Z.of_nat d))) (float32_of_int (Z.of_nat s)) = true
  <-> num * Z.of_nat d <= 100 * Z.of_nat s.
Proof.
  unfold agree_below. rewrite forallb_forall. intros H Hs Hd.
  specialize (H d). rewrite in_seq in H. specialize (H ltac:(lia)).
  rewrite forallb_forall in H. specialize (H s). rewrite in_seq in H.
  specialize (H ltac:(lia)). unfold agree in H.
  apply Bool.eqb_prop in H. rewrite H. apply Z.leb_le.
Qed.

Lemma check_details_cases (src dest : Detail) :
  (~ enough_tasks_f32 src dest /\ snd (checkDetails src dest) = Some ErrTooFewTasks) \/
  (enough_tasks_f32 src dest /\ ~ enough_tests_f32 src dest /\
   snd (checkDetails src dest) = Some ErrTooFewTests) \/
  (enough_tasks_f32 src dest /\ enough_tests_f32 src dest /\
   snd (checkDetails src dest) = None).
Proof.
  pose proof (tasks_lt_iff src dest) as Ht.
  pose proof (tests_lt_iff src dest) as Hs.
  unfold checkDetails.
  destruct (f32_lt (float32_of_int (TaskFileCount src)) _).
  - left. split; [|reflexivity]. rewrite <- Ht. discriminate.
  - right. destruct (f32_lt (float32_of_int (TestCount src)) _).
    + left. split; [now apply Ht|]. split; [|reflexivity].
      rewrite <- Hs. discriminate.
    + right. split; [now apply Ht|]. split; [now apply Hs|reflexivity].
Qed.

Lemma small_counts_exact (src dest : Detail) :
  0 <= TaskFileCount src < 100 -> 0 <= TaskFileCount dest < 100 ->
  0 <= TestCount src < 100 -> 0 <= TestCount dest < 100 ->
  (enough_tasks_f32 src dest <-> enough_tasks_exact src dest) /\
  (enough_tests_f32 src dest <-> enough_tests_exact src dest).
Proof.
  intros H1 H2 H3 H4.
  unfold enough_tasks_f32, enough_tests_f32, enough_tasks_exact, enough_tests_exact.
  rewrite <- (Z2Nat.id (TaskFileCount src)), <- (Z2Nat.id (TaskFileCount dest)),
    <- (Z2Nat.id (TestCount src)), <- (Z2Nat.id (TestCount dest)) by lia.
  split; apply (agree_below_spec 100); try lia; vm_compute; reflexivity.
Qed.

Lemma too_few_tasks_95_100 (src dest : Detail) :
  TaskFileCount src = 95 -> TaskFileCount dest = 100 ->
  snd (checkDetails src dest) = Some ErrTooFewTasks.
Proof.
  intros E1 E2. unfold checkDetails. rewrite E1, E2.
  replace (f32_lt (float32_of_int 95) (f32_mul f32_0_99 (float32_of_int 100)))
    with true by (vm_compute; reflexivity).
  reflexivity.
Qed.

Lemma proceeds_99_100 (src dest : Detail) :
  TaskFileCount src = 99 -> TaskFileCount dest = 100 ->
  TestCount src = TestCount dest -> 0 <= TestCount src < 100 ->
  checkDetails src dest = ([FewerTaskFiles 99 100], None).
Proof.
  intros E1 E2 E3 Hr. unfold checkDetails. rewrite E1, E2.
  replace (f32_lt (float32_of_int 99) (f32_mul f32_0_99 (float32_of_int 100)))
    with false by (vm_compute; reflexivity).
  assert (Hs : enough_tests_f32 src dest).
  { unfold enough_tests_f32. rewrite <- E3.
    rewrite <- (Z2Nat.id (TestCount src)) by lia.
    apply (agree_below_spec 100 95); try lia. vm_compute; reflexivity. }
  apply tests_lt_iff in Hs. rewrite Hs, <- E3, Z.ltb_irrefl. reflexivity.
Qed.

Lemma check_details_nil_iff (src dest : Detail) :
  snd (checkDetails src dest) = None
  <-> enough_tasks_f32 src dest /\ enough_tests_f32 src dest.
Proof.
  destruct (check_details_cases src dest)
    as [(Ht & ->)|[(Ht & Hs & ->)|(Ht & Hs & ->)]];
    split; try discriminate; tauto.
Qed.

Lemma check_details_tasks_iff (src dest : Detail) :
  snd (checkDetails src dest) = Some ErrTooFewTasks
  <-> ~ enough_tasks_f32 src dest.
Proof.
  destruct (check_details_cases src dest)
    as [(Ht & ->)|[(Ht & Hs & ->)|(Ht & Hs & ->)]];
    split; try discriminate; tauto.
Qed.

Lemma check_details_tests_iff (src dest : Detail) :
  snd (checkDetails src dest) = Some ErrTooFewTests
  <-> enough_tasks_f32 src dest /\ ~ enough_tests_f32 src dest.
Proof.
  destruct (check_details_cases src dest)
    as [(Ht & ->)|[(Ht & Hs & ->)|(Ht & Hs & ->)]];
    split; try discriminate; tauto.
Qed.

(** C6 (amended). checkDetails(src, dest) returns nil if and only if both
    comparisons hold as evaluated in float32 (counts converted to float32,
    0.99 and 0.95 rounded to float32, the product rounded to nearest):
    float32(src.TaskFileCount) >= 0.99 * float32(dest.TaskFileCount) and
    float32(src.TestCount) >= 0.95 * float32(dest.TestCount). It returns
    TooFewTasks exactly when the task comparison fails, and TooFewTests
    exactly when the task comparison holds and the test comparison fails.
    For counts below 100 the float32 comparisons coincide with the exact
    ones; src with 95 task files against dest with 100 yields TooFewTasks,
    and src 99 against dest 100 succeeds with a warning. *)
Theorem check_details_float32 (src dest : Detail) :
  (snd (checkDetails src dest) = None
     <-> enough_tasks_f32 src dest /\ enough_tests_f32 src dest) /\
  (snd (checkDetails src dest) = Some ErrTooFewTasks
     <-> ~ enough_tasks_f32 src dest) /\
  (snd (checkDetails src dest) = Some ErrTooFewTests
     <-> enough_tasks_f32 src dest /\ ~ enough_tests_f32 src dest) /\
  (0 <= TaskFileCount src < 100 -> 0 <= TaskFileCount dest < 100 ->
   0 <= TestCount src < 100 -> 0 <= TestCount dest < 100 ->
   (enough_tasks_f32 src dest <-> enough_tasks_exact src dest) /\
   (enough_tests_f32 src dest <-> enough_tests_exact src dest)) /\
  (TaskFileCount src = 95 -> TaskFileCount dest = 100 ->
   snd (checkDetails src dest) = Some ErrTooFewTasks) /\
  (TaskFileCount src = 99 -> TaskFileCount dest = 100 ->
   TestCount src = TestCount dest -> 0 <= TestCount src < 100 ->
   checkDetails src dest = ([FewerTaskFiles 99 100], None)).
Proof.
  split; [apply check_details_nil_iff|].
  split; [apply check_details_tasks_iff|].
  split; [apply check_details_tests_iff|].
  split; [apply small_counts_exact|].
  split; [apply too_few_tasks_95_100|apply proceeds_99_100].
Qed.

Lemma check_details_float32_witness :
  let src := mkDetail "" 99 50 in
  let dest := mkDetail "" 100 50 in
  checkDetails src dest = ([FewerTaskFiles 99 100], None).
Proof.
  intros src dest.
  apply (check_details_float32 src dest); cbn; (reflexivity || lia).
Defined.

(** In exact arithmetic the equivalence fails: with 264799 task files in
    the destination and 262151 in the source, 262151 < 0.99 * 264799 =
    262151.01, yet the float32 product rounds to 262151 and checkDetails
    returns nil. *)
Lemma check_details_not_exact :
  let src := mkDetail "" 262151 0 in
  let dest := mkDetail "" 264799 0 in
  snd (checkDetails src dest) = None /\
  ~ (enough_tasks_exact src dest /\ enough_tests_exact src dest).
Proof.
  split; [vm_compute; reflexivity|].
  unfold enough_tasks_exact. cbn. lia.
Qed.

End DedupSpec.

(** ** Package parser: the switch summary *)

Module SwitchSpec.
Import GoInt StringFacts Switch.
Local Open Scope string_scope.
Local Open Scope Z_scope.

Lemma counter_name_fresh (s : string) : s <> s ++ "Counter".
Proof.
  intros H. apply (f_equal String.length) in H.
  rewrite length_append in H. cbn in H. lia.
Qed.

(** The comparisons of [civil.Date] order the dates of the calendar. *)
Lemma Before_yyyymmdd (d1 d2 : Date) :
  valid_date d1 -> valid_date d2 ->
  Before d1 d2 = true <-> yyyymmdd d1 < yyyymmdd d2.
Proof.
  unfold valid_date, Before, yyyymmdd. intros H1 H2.
  destruct (Z.eqb_spec (Year d1) (Year d2)); cbn;
    [destruct (Z.eqb_spec (Month d1) (Month d2)); cbn|];
    rewrite Z.ltb_lt; lia.
Qed.

Lemma known_bad_window (d : Date) :
  valid_date d ->
  After d discoV2DeploymentDate && Before d discoV2FixDate = true
  <-> 20200909 < yyyymmdd d < 20220119.
Proof.
  intros Hd. unfold After. rewrite andb_true_iff.
  rewrite !Before_yyyymmdd by (assumption || (unfold valid_date; cbn; lia)).
  reflexivity.
Qed.

(** The conversion [int64(v)] discards the fraction: it yields the integer
    part of [v] whenever an int64 holds it. *)
Lemma int64_of_float_truncation (v : float) (z : Z) :
  truncation v z -> in_int64 z -> int64_of_float v = z.
Proof.
  unfold int64_of_float, truncate, in_int64.
  destruct v as [s|s| |s m e]; cbn [truncation]; try contradiction.
  - intros -> _. reflexivity.
  - intros (a & -> & Hlo & Hhi) Hz.
    assert (Ha : (if 0 <=? e then Z.pos m * 2 ^ e else Z.pos m / 2 ^ (- e)) = a).
    { destruct (Z.leb_spec 0 e) as [He|He].
      - rewrite (Z.max_l e 0), (Z.max_r (- e) 0) in Hlo, Hhi by lia.
        rewrite Z.pow_0_r in Hlo, Hhi. lia.
      - rewrite (Z.max_r e 0), (Z.max_l (- e) 0) in Hlo, Hhi by lia.
        rewrite Z.pow_0_r in Hlo, Hhi.
        assert (0 < 2 ^ (- e)) by (apply Z.pow_pos_nonneg; lia).
        symmetry. apply (Z.div_unique _ _ a (Z.pos m - a * 2 ^ (- e))); lia. }
    rewrite Ha.
    destruct (Z.leb_spec min_int64 (if s then - a else a)) as [_|?]; [|lia].
    destruct (Z.leb_spec (if s then - a else a) max_int64) as [_|?]; [|lia].
    reflexivity.
Qed.

(** C9. For a sample of the metric switch.octets.local.tx or
    switch.octets.local.rx (whose delta and counter fields exist in the
    summary): when the archive date is strictly after 2020-09-09 and
    strictly before 2022-01-19, the delta field and the matching counter
    field are both set to 0; for every other archive date the delta field
    holds the sample's value converted by int64(...), which is its integer
    part (the fraction discarded, towards zero) whenever an int64 holds
    that, and the counter field the sample's counter. No other field
    changes. *)
Theorem octets_local_known_bad_window (ToCamel : string -> string)
    (metric : string) (sample : Sample) (A : SwitchSummary) (d : Date) :
  metric = "switch.octets.local.tx" \/ metric = "switch.octets.local.rx" ->
  valid_date d ->
  IsValid A (ToCamel metric) = true ->
  IsValid A (ToCamel metric ++ "Counter") = true ->
  let A' := getSummaryFromSample ToCamel metric sample A d in
  (20200909 < yyyymmdd d < 20220119 ->
   A' !! ToCamel metric = Some 0 /\
   A' !! (ToCamel metric ++ "Counter") = Some 0) /\
  (~ 20200909 < yyyymmdd d < 20220119 ->
   A' !! ToCamel metric = Some (int64_of_float (Value sample)) /\
   A' !! (ToCamel metric ++ "Counter") = Some (Counter sample) /\
   (forall z : Z, truncation (Value sample) z -> in_int64 z ->
                  A' !! ToCamel metric = Some z)) /\
  (forall field, field <> ToCamel metric ->
                 field <> ToCamel metric ++ "Counter" ->
                 A' !! field = A !! field).
Proof.
  intros Hm Hd Hv1 Hv2 A'. subst A'. unfold getSummaryFromSample.
  unfold SwitchSummary in *.
  rewrite Hv1, Hv2. cbn [negb orb].
  assert (Hmetric : String.eqb metric "switch.octets.local.tx"
                    || String.eqb metric "switch.octets.local.rx" = true)
    by (destruct Hm as [-> | ->]; reflexivity).
  rewrite Hmetric. cbn [andb].
  pose proof (known_bad_window d Hd) as Hw.
  pose proof (counter_name_fresh (ToCamel metric)) as Hne.
  destruct (After d discoV2DeploymentDate && Before d discoV2FixDate).
  - assert (Hin : 20200909 < yyyymmdd d < 20220119) by now apply Hw.
    split; [|split].
    + intros _. rewrite lookup_insert_ne, !lookup_insert_eq by congruence. auto.
    + intros Hout. contradiction.
    + intros f Hf1 Hf2. rewrite !lookup_insert_ne by congruence. reflexivity.
  - assert (Hout : ~ 20200909 < yyyymmdd d < 20220119).
    { intros Hin. apply Hw in Hin. discriminate. }
    split; [|split].
    + intros Hin. contradiction.
    + intros _. rewrite lookup_insert_ne, !lookup_insert_eq by congruence.
      split; [reflexivity|]. split; [reflexivity|].
      intros z Ht Hz. now rewrite (int64_of_float_truncation _ z Ht Hz).
    + intros f Hf1 Hf2. rewrite !lookup_insert_ne by congruence. reflexivity.
Qed.

(** On the day of the fix, 2022-01-19, a sample with the value 6.5 and
    the counter 9 is stored as 6 and 9; on 2021-06-01 both fields are
    set to 0. *)
Lemma octets_local_known_bad_window_witness :
  let ToCamel : string -> string := fun _ => "SwitchOctetsLocalTx" in
  let metric := "switch.octets.local.tx" in
  let sample := mkSample 1642550400 (S754_finite false 13 (-1)) 9 in
  let A : SwitchSummary :=
    <["SwitchOctetsLocalTx" := 5]> (<["SwitchOctetsLocalTxCounter" := 7]> ∅) in
  let stored := getSummaryFromSample ToCamel metric sample A (mkDate 2022 1 19) in
  let zeroed := getSummaryFromSample ToCamel metric sample A (mkDate 2021 6 1) in
  (stored !! "SwitchOctetsLocalTx" = Some 6 /\
   stored !! "SwitchOctetsLocalTxCounter" = Some 9) /\
  (zeroed !! "SwitchOctetsLocalTx" = Some 0 /\
   zeroed !! "SwitchOctetsLocalTxCounter" = Some 0).
Proof.
  intros ToCamel metric sample A stored zeroed.
  assert (Hv1 : IsValid A (ToCamel metric) = true) by (vm_compute; reflexivity).
  assert (Hv2 : IsValid A (ToCamel metric ++ "Counter") = true)
    by (vm_compute; reflexivity).
  split.
  - destruct (octets_local_known_bad_window ToCamel metric sample A
                (mkDate 2022 1 19) (or_introl eq_refl)
                ltac:(unfold valid_date; cbn; lia) Hv1 Hv2) as (_ & Hout & _).
    destruct Hout as (_ & Hc & Ht); [unfold yyyymmdd; cbn [Year Month Day]; lia|].
    split; [|exact Hc].
    apply Ht; [|unfold in_int64, min_int64, max_int64; lia].
    exists 6. split; [reflexivity|]. vm_compute. split; [discriminate|reflexivity].
  - destruct (octets_local_known_bad_window ToCamel metric sample A
                (mkDate 2021 6 1) (or_introl eq_refl)
                ltac:(unfold valid_date; cbn; lia) Hv1 Hv2) as (Hin & _ & _).
    apply Hin. unfold yyyymmdd; cbn [Year Month Day]; lia.
Defined.

End SwitchSpec.

(** ** Package parser: the sidestream header *)

Module SidestreamSpec.
Import Sidestream.
Local Open Scope string_scope.

Lemma Split_nonempty (s : string) (sep : ascii) : Split s sep <> [].
Proof.
  destruct s as [|c s]; cbn; [discriminate|].
  destruct (Ascii.eqb c sep); [discriminate|].
  destruct (Split s sep); discriminate.
Qed.

(** A header that starts with "K: " splits into "K:" and at least one
    more word. *)
Lemma Split_K (rest : string) :
  exists name names, Split ("K: " ++ rest) " " = "K:" :: name :: names.
Proof.
  change ("K: " ++ rest) with (String "K" (String ":" (String " " rest))).
  cbn. pose proof (Split_nonempty rest " ") as H.
  destruct (Split rest " ") as [|name names]; [now contradiction H|eauto].
Qed.

Lemma k_header_cons (name : string) (names : list string) :
  k_header (name :: names) = "K: " ++ name ++ words names.
Proof. reflexivity. Qed.

(** With nothing allocated, the first name makes the loop panic. *)
Lemma assign_names_panics mapping name names :
  assign_names mapping ("K:" :: name :: names) 0 []
  = Panic "runtime error: index out of range".
Proof. reflexivity. Qed.

(** C10. For every header line made of "K:" followed by one or more
    space-separated variable names, ParseKHeader does not return: the
    first assignment into the never-allocated var_names slice is out of
    range and panics (unless the embedded asset is missing, in which case
    the function panics before it gets there). *)
Theorem parse_k_header_panics (Asset : option (list byte))
    (ParseWeb100Definitions : list byte -> gmap string string)
    (names : list string) :
  names <> [] ->
  (forall result,
     ParseKHeader Asset ParseWeb100Definitions (k_header names) <> Return result) /\
  (forall data, Asset = Some data ->
     ParseKHeader Asset ParseWeb100Definitions (k_header names)
     = Panic "runtime error: index out of range").
Proof.
  intros Hne. destruct names as [|name names]; [contradiction|].
  rewrite k_header_cons. unfold ParseKHeader.
  destruct (Split_K (name ++ words names)) as (n & ns & ->).
  change (negb (String.eqb "K:" "K:")) with false. cbv iota.
  split.
  - intros result. destruct Asset as [data|]; [|discriminate].
    rewrite assign_names_panics. discriminate.
  - intros data ->. rewrite assign_names_panics. reflexivity.
Qed.

Lemma parse_k_header_panics_witness :
  let Asset : option (list byte) := Some [] in
  let Definitions : list byte -> gmap string string := fun _ => ∅ in
  (forall result,
     ParseKHeader Asset Definitions (k_header ["CurMSS"; "X_Rcvbuf"])
     <> Return result) /\
  (forall data, Asset = Some data ->
     ParseKHeader Asset Definitions (k_header ["CurMSS"; "X_Rcvbuf"])
     = Panic "runtime error: index out of range").
Proof. apply parse_k_header_panics. discriminate. Defined.

End SidestreamSpec.

(** ** Regular expressions *)

Module RegexpSpec.
Import Regexp StringFacts.
Local Open Scope string_scope.

Lemma skip_suffix (n : nat) (s : string) : exists p, s = p ++ skip n s.
Proof.
  revert s. induction n as [|n IH]; intros s; [now exists ""|].
  destruct s as [|c s]; [now exists ""|].
  destruct (IH s) as [p Hp]. exists (String c p). cbn [skip].
  change (String c p ++ skip n s) with (String c (p ++ skip n s)).
  now rewrite <- Hp.
Qed.

(** A step reads a prefix of the text. *)
Lemma step_suffix (c : cclass) (s s' : string) :
  step c s = Some s' -> exists p, s = p ++ s'.
Proof.
  destruct s as [|a s]; [discriminate|]. cbn [step].
  destruct c as [|x|rs].
  - destruct (Ascii.eqb a "010"); [discriminate|]. intros [= <-]. apply skip_suffix.
  - destruct (Ascii.eqb a x); [discriminate|]. intros [= <-]. apply skip_suffix.
  - destruct (in_ranges rs a); [|discriminate]. intros [= <-].
    now exists (String a "").
Qed.

(** A class of ASCII ranges reads one byte, which lies in the ranges. *)
Lemma step_ranges (rs : list (ascii * ascii)) (s s' : string) :
  step (Ranges rs) s = Some s' ->
  exists a, s = String a s' /\ in_ranges rs a = true.
Proof.
  destruct s as [|a s]; [discriminate|]. cbn [step].
  destruct (in_ranges rs a) eqn:E; [|discriminate]. intros [= <-]. eauto.
Qed.

Lemma nat_of_ascii_inj (a b : ascii) : nat_of_ascii a = nat_of_ascii b -> a = b.
Proof.
  intros H. rewrite <- (ascii_nat_embedding a), <- (ascii_nat_embedding b).
  now rewrite H.
Qed.

Lemma step_char (c : ascii) (s s' : string) :
  step (Ranges [(c, c)]) s = Some s' -> s = String c s'.
Proof.
  intros H. apply step_ranges in H. destruct H as (a & -> & H).
  f_equal. unfold in_ranges in H. cbn in H.
  rewrite orb_false_r, andb_true_iff, !Nat.leb_le in H.
  apply nat_of_ascii_inj. lia.
Qed.

Lemma steps_suffix (c : cclass) (s s' : string) :
  steps c s s' -> exists p, s = p ++ s'.
Proof.
  induction 1 as [s|s s1 s2 Hstep _ [p2 Hp2]]; [now exists ""|].
  destruct (step_suffix c s s1 Hstep) as [p1 Hp1].
  exists (p1 ++ p2). now rewrite append_assoc, <- Hp2.
Qed.

(** Whatever the search order, a successful match is a match. *)
Lemma star_sound {R : Type} (c : cclass) (fuel : nat) :
  forall (s : string) (k : string -> option R) (x : R),
  star c fuel s k = Some x -> exists s', steps c s s' /\ k s' = Some x.
Proof.
  induction fuel as [|fuel IH]; intros s k x H; cbn [star] in H.
  - exists s. split; [constructor|exact H].
  - destruct (step c s) as [s1|] eqn:E.
    + destruct (star c fuel s1 k) as [y|] eqn:E1.
      * injection H as ->. destruct (IH s1 k x E1) as (s' & Hs & Hk).
        exists s'. split; [econstructor; eassumption|exact Hk].
      * exists s. split; [constructor|exact H].
    + exists s. split; [constructor|exact H].
Qed.

Lemma rmatch_sound {R : Type} (text : string) (r : regex) :
  forall (s : string) (caps : list string)
         (k : string -> list string -> option R) (x : R),
  rmatch text r s caps k = Some x ->
  exists s' caps', matches text r s caps s' caps' /\ k s' caps' = Some x.
Proof.
  induction r as [| | |c|r1 IH1 r2 IH2|r1 IH1 r2 IH2|c|i r IH];
    intros s caps k x H; cbn [rmatch] in H; cbn [matches].
  - eauto.
  - destruct (Nat.eqb_spec (String.length s) (String.length text)); [|discriminate].
    eauto 6.
  - destruct s; [|discriminate]. eauto 6.
  - destruct (step c s) as [s1|] eqn:E; [|discriminate]. eauto.
  - destruct (IH1 _ _ _ _ H) as (s1 & caps1 & H1 & Hk1).
    destruct (IH2 _ _ _ _ Hk1) as (s2 & caps2 & H2 & Hk2).
    exists s2, caps2. split; [|exact Hk2]. eauto.
  - destruct (rmatch text r1 s caps k) as [y|] eqn:E.
    + injection H as ->. destruct (IH1 _ _ _ _ E) as (s1 & caps1 & H1 & Hk1). eauto 6.
    + destruct (IH2 _ _ _ _ H) as (s1 & caps1 & H1 & Hk1). eauto 6.
  - destruct (star_sound _ _ _ _ _ H) as (s' & Hs & Hk). eauto 6.
  - destruct (IH _ _ _ _ H) as (s1 & caps1 & H1 & Hk1). eauto 6.
Qed.

(** A match reads a prefix of the text that is left. *)
Lemma matches_suffix (text : string) (r : regex) :
  forall (s : string) (caps : list string) (s' : string) (caps' : list string),
  matches text r s caps s' caps' -> exists p, s = p ++ s'.
Proof.
  induction r as [| | |c|r1 IH1 r2 IH2|r1 IH1 r2 IH2|c|i r IH];
    intros s caps s' caps' H; cbn [matches] in H.
  - destruct H as [-> _]. now exists "".
  - destruct H as (_ & -> & _). now exists "".
  - destruct H as (_ & -> & _). now exists "".
  - destruct H as [H _]. eapply step_suffix, H.
  - destruct H as (s1 & caps1 & H1 & H2).
    destruct (IH1 _ _ _ _ H1) as [p1 ->]. destruct (IH2 _ _ _ _ H2) as [p2 ->].
    exists (p1 ++ p2). now rewrite append_assoc.
  - destruct H as [H|H]; eauto.
  - destruct H as [H _]. eapply steps_suffix, H.
  - destruct H as (caps1 & H & _). eauto.
Qed.

(** The search tries positions of the text only. *)
Lemma search_sound (re : Regexp) (text : string) (fuel : nat) :
  forall (s : string) (caps : list string),
  search re text fuel s = Some caps ->
  exists p s0 s',
    s = p ++ s0 /\
    matches text (Group 0 (syntax re)) s0
            (repeat EmptyString (S (groups re))) s' caps.
Proof.
  induction fuel as [|fuel IH]; intros s caps H; cbn [search] in H.
  - destruct (rmatch _ _ _ _ _) as [caps0|] eqn:E; [|discriminate].
    injection H as ->. apply rmatch_sound in E.
    destruct E as (s' & caps' & Hm & [= ->]). now exists "", s, s'.
  - destruct (rmatch _ _ _ _ _) as [caps0|] eqn:E.
    + injection H as ->. apply rmatch_sound in E.
      destruct E as (s' & caps' & Hm & [= ->]). now exists "", s, s'.
    + destruct s as [|a s]; [discriminate|].
      destruct (IH _ _ H) as (p & s0 & s' & Hp & Hm).
      destruct (skip_suffix (rune_width (String a s)) (String a s)) as [q Hq].
      exists (q ++ p), s0, s'. split; [|exact Hm].
      rewrite append_assoc, <- Hp. exact Hq.
Qed.

End RegexpSpec.

(** ** Package etl: task file names *)

Module EtlSpec.
Import Regexp Etl StringFacts RegexpSpec.
Local Open Scope string_scope.

(** [TaskPattern] starts with [^]: its match starts where the text does. *)
Lemma task_pattern_match (u : string) (fields : list string) :
  FindStringSubmatch TaskPattern u = Some fields ->
  exists s', matches u (Group 0 (syntax TaskPattern)) u
                     (repeat EmptyString 9) s' fields.
Proof.
  intros H. unfold FindStringSubmatch in H.
  apply search_sound in H. destruct H as (p & s0 & s' & Hp & Hm).
  exists s'.
  assert (Hlen : String.length s0 = String.length u).
  { cbn [matches syntax TaskPattern cat start] in Hm.
    destruct Hm as (caps1 & (s1 & caps2 & (s2 & caps3 & (Hb & _) & _) & _) & _).
    exact Hb. }
  assert (p = "").
  { apply (f_equal String.length) in Hp. rewrite length_append, Hlen in Hp.
    destruct p; [reflexivity|cbn in Hp; lia]. }
  subst p. change ("" ++ s0) with s0 in Hp. subst s0. exact Hm.
Qed.

Local Ltac break_matches :=
  repeat match goal with
  | H : _ /\ _ |- _ => destruct H
  | H : exists _, _ |- _ => destruct H
  | H : step (Ranges [(?c, ?c)]) _ = Some _ |- _ => apply step_char in H
  | H : step (Ranges _) _ = Some _ |- _ =>
      apply step_ranges in H; destruct H as (? & ? & ?)
  end.

(** The suffix has no group: it leaves the captures as they are. *)
Lemma suffix_keeps_captures text s caps s' caps' :
  matches text suffix s caps s' caps' -> caps' = caps.
Proof.
  unfold suffix. cbn [matches cat lit char].
  intros (s1 & caps1 & [H|[H|H]] & H'); break_matches; congruence.
Qed.

Lemma consumed_8 (a1 a2 a3 a4 a5 a6 a7 a8 : ascii) (s : string) :
  consumed (String a1 (String a2 (String a3 (String a4
             (String a5 (String a6 (String a7 (String a8 s)))))))) s
  = String a1 (String a2 (String a3 (String a4
      (String a5 (String a6 (String a7 (String a8 ""))))))).
Proof.
  apply (consumed_app (String a1 (String a2 (String a3 (String a4
           (String a5 (String a6 (String a7 (String a8 "")))))))) s).
Qed.

Lemma consumed_10 (a1 a2 a3 a4 a5 a6 a7 a8 a9 a10 : ascii) (s : string) :
  consumed (String a1 (String a2 (String a3 (String a4 (String a5
             (String a6 (String a7 (String a8 (String a9 (String a10 s)))))))))) s
  = String a1 (String a2 (String a3 (String a4 (String a5
      (String a6 (String a7 (String a8 (String a9 (String a10 ""))))))))).
Proof.
  apply (consumed_app (String a1 (String a2 (String a3 (String a4 (String a5
           (String a6 (String a7 (String a8 (String a9 (String a10 "")))))))))) s).
Qed.

(** C1 (amended). For every URI accepted by path validation, the returned
    DataPath's date path has the form YYYY/MM/DD and its packed date the
    form YYYYMMDD (digits, the month starting with 0 or 1 and the day with
    0 to 3), and they are the parts of the URI at their places:
    gs://<prefix>/<exp>/<date path>/<packed date>T... . The two dates are
    matched independently of each other. *)
Theorem validate_test_path_dates (u : string) (dp : DataPath) :
  ValidateTestPath u = inr dp ->
  is_date_path (DatePath dp) = true /\
  is_packed_date (PackedDate dp) = true /\
  exists prefix rest,
    u = "gs://" ++ prefix ++ "/" ++ Exp1 dp ++ "/" ++ DatePath dp ++ "/" ++
        PackedDate dp ++ "T" ++ rest.
Proof.
  unfold ValidateTestPath.
  destruct (FindStringSubmatch TaskPattern u) as [fields|] eqn:E.
  2:{ repeat (destruct (negb _); try discriminate). }
  intros [= <-]. apply task_pattern_match in E. destruct E as [s' Hm].
  cbn [matches syntax TaskPattern cat start datePath dateTime mlabN_podNN
       exp_NNNN yyyy_mm_dd times lit char] in Hm.
  unfold digit, alpha in Hm. break_matches. subst.
  match goal with
  | H : matches _ suffix _ _ _ _ |- _ => apply suffix_keeps_captures in H
  end.
  subst.
  match goal with
  | H : steps (Not "/") ?t _ |- _ =>
      destruct (steps_suffix _ _ _ H) as [exp Hexp]; clear H; subst t
  end.
  match goal with
  | H : steps AnyNotNL ?s (String "/" (exp ++ _)) |- _ =>
      destruct (steps_suffix _ _ _ H) as [prefix Hprefix]; clear H; subst s
  end.
  cbn [DatePath PackedDate Exp1 nth insert list_insert repeat].
  rewrite consumed_10, consumed_8, consumed_app.
  split; [|split].
  - cbn [is_date_path is_packed_date]. unfold is_digit.
    repeat match goal with H : in_ranges _ _ = true |- _ => rewrite H; clear H end.
    reflexivity.
  - cbn [is_packed_date]. unfold is_digit.
    repeat match goal with H : in_ranges _ _ = true |- _ => rewrite H; clear H end.
    reflexivity.
  - eexists prefix, _. reflexivity.
Qed.

Lemma validate_test_path_dates_witness :
  let u := "gs://m-lab-sandbox/ndt/2016/01/26/20160126T000000Z-mlab1-prg01-ndt-0007.tgz" in
  let dp := mkDataPath "ndt" "2016/01/26" "20160126" "mlab1" "prg01" "ndt" "0007" in
  is_date_path (DatePath dp) = true /\
  is_packed_date (PackedDate dp) = true /\
  exists prefix rest,
    u = "gs://" ++ prefix ++ "/" ++ Exp1 dp ++ "/" ++ DatePath dp ++ "/" ++
        PackedDate dp ++ "T" ++ rest.
Proof.
  intros u dp. apply (validate_test_path_dates u dp). vm_compute. reflexivity.
Defined.

(** A URI whose path says 26 January 2016 and whose file name says
    27 January 2017 is accepted. *)
Lemma validate_test_path_dates_differ :
  let u := "gs://m-lab-sandbox/ndt/2016/01/26/20170127T000000Z-mlab1-prg01-ndt-0007.tgz" in
  exists dp, ValidateTestPath u = inr dp /\
             DatePath dp = "2016/01/26" /\ PackedDate dp = "20170127" /\
             ~ same_day dp.
Proof.
  eexists. split; [vm_compute; reflexivity|].
  split; [reflexivity|]. split; [reflexivity|].
  unfold same_day. cbn. discriminate.
Qed.

End EtlSpec.

(** ** Package row: Base *)

Module RowBaseSpec.
Import GoInt Row RowBase GoIntFacts.
Local Open Scope Z_scope.

Section Delivery.
Context {row sink : Type}.
Variable Commit : sink -> list row -> string -> (Z * option string) * sink.

Lemma commits_logs (l : list string) : commits (map (@EvLog row) l) = [].
Proof. induction l as [|x l IH]; [reflexivity|exact IH]. Qed.

Lemma commits_app (t1 t2 : list (event row)) :
  commits (t1 ++ t2) = commits t1 ++ commits t2.
Proof. apply omap_app. Qed.

Lemma commit_frame (rows0 : list row) (pb pb1 : Base row sink) err t :
  commit Commit rows0 pb = (pb1, err, t) ->
  buf pb1 = buf pb /\ label pb1 = label pb /\ commits t = [rows0].
Proof.
  unfold commit, Done. intros H.
  repeat case_match; simplify_eq; cbn [buf label];
    rewrite ?commits_app, ?commits_logs; repeat split; reflexivity.
Qed.

Lemma Put_delivery (r : row) (pb pb1 : Base row sink) err t :
  Put Commit r pb = (pb1, err, t) ->
  fits (size (buf pb)) (rows (buf pb)) ->
  size (buf pb1) = size (buf pb) /\
  concat (commits t) ++ rows (buf pb1) = rows (buf pb) ++ [r] /\
  Forall (fits (size (buf pb))) (commits t) /\
  fits (size (buf pb)) (rows (buf pb1)).
Proof.
  unfold Put, Append, Inc, MoveToPending, fits. intros H Hfit.
  destruct (Z.ltb_spec (Z.of_nat (length (rows (buf pb)))) (size (buf pb))) as [Hlt|Hge].
  - simplify_eq. cbn. rewrite length_app. cbn. repeat split; [constructor|lia].
  - destruct (commit Commit _ _) as [[pb3 e] t3] eqn:Ec.
    apply commit_frame in Ec. destruct Ec as (Hb & _ & Hc). cbn [buf] in Hb.
    assert (Ht : commits t = [rows (buf pb)]).
    { repeat case_match; simplify_eq;
        rewrite ?commits_app, ?commits_logs, ?Hc; cbn; now rewrite ?app_nil_r. }
    assert (Hpb : buf pb1 = mkBuffer (size (buf pb)) [r]).
    { repeat case_match; simplify_eq; exact Hb. }
    rewrite Ht, Hpb. cbn. rewrite app_nil_r.
    repeat split; [repeat constructor; exact Hfit|lia].
Qed.

Lemma Flush_delivery (pb pb1 : Base row sink) err t :
  Flush Commit pb = (pb1, err, t) ->
  size (buf pb1) = size (buf pb) /\
  commits t = [rows (buf pb)] /\ rows (buf pb1) = [].
Proof.
  unfold Flush, Reset, MoveToPending. intros H.
  destruct (commit Commit _ _) as [[pb3 e] t3] eqn:Ec.
  apply commit_frame in Ec. destruct Ec as (Hb & _ & Hc). cbn [buf] in Hb.
  simplify_eq. rewrite Hb, commits_app, commits_logs, Hc. now cbn.
Qed.

Lemma run_ops_delivery (ops : list (op row)) :
  forall (pb pb1 : Base row sink) errs t,
  run_ops Commit ops pb = (pb1, errs, t) ->
  fits (size (buf pb)) (rows (buf pb)) ->
  size (buf pb1) = size (buf pb) /\
  concat (commits t) ++ rows (buf pb1) = rows (buf pb) ++ puts ops /\
  Forall (fits (size (buf pb))) (commits t) /\
  fits (size (buf pb)) (rows (buf pb1)).
Proof.
  induction ops as [|o ops IH]; intros pb pb1 errs t H Hfit; cbn [run_ops] in H.
  - simplify_eq. cbn. rewrite app_nil_r. repeat split; [constructor|exact Hfit].
  - destruct (step Commit o pb) as [[pb2 e2] t2] eqn:Es.
    destruct (run_ops Commit ops pb2) as [[pb3 errs3] t3] eqn:Er.
    simplify_eq.
    assert (Hstep : size (buf pb2) = size (buf pb) /\
                    concat (commits t2) ++ rows (buf pb2)
                    = rows (buf pb) ++ puts [o] /\
                    Forall (fits (size (buf pb))) (commits t2) /\
                    fits (size (buf pb)) (rows (buf pb2))).
    { destruct o as [r|]; cbn [step] in Es.
      - apply Put_delivery in Es; [exact Es|exact Hfit].
      - apply Flush_delivery in Es. destruct Es as (Hs & Hc & Hr).
        rewrite Hs, Hc, Hr. cbn. rewrite !app_nil_r.
        repeat split; [repeat constructor; exact Hfit|unfold fits; cbn; lia]. }
    destruct Hstep as (Hs & Hc & Hf & Hfit2).
    rewrite <- Hs in Hfit2.
    destruct (IH _ _ _ _ Er Hfit2) as (Hs3 & Hc3 & Hf3 & Hfit3).
    rewrite Hs in Hs3, Hf3, Hfit3.
    rewrite commits_app, concat_app, Forall_app.
    repeat split; try assumption.
    rewrite <- app_assoc, Hc3, app_assoc, Hc.
    replace (puts (o :: ops)) with (puts [o] ++ puts ops)
      by (destruct o; reflexivity).
    now rewrite app_assoc.
Qed.

Lemma puts_length (ops : list (op row)) : (length (puts ops) <= length ops)%nat.
Proof. unfold puts. induction ops as [|[r|] ops IH]; cbn; lia. Qed.

Lemma run_ops_flushed (ops : list (op row)) :
  forall (pb pb1 : Base row sink) errs t,
  run_ops Commit ops pb = (pb1, errs, t) ->
  last ops = Some OpFlush -> rows (buf pb1) = [].
Proof.
  induction ops as [|o ops IH]; intros pb pb1 errs t H Hl; [discriminate|].
  cbn [run_ops] in H.
  destruct (step Commit o pb) as [[pb2 e2] t2] eqn:Es.
  destruct (run_ops Commit ops pb2) as [[pb3 errs3] t3] eqn:Er.
  simplify_eq. destruct ops as [|o' ops].
  - cbn in Hl, Er. simplify_eq. cbn [step] in Es.
    now apply Flush_delivery in Es.
  - eapply IH; [exact Er|exact Hl].
Qed.

Lemma base_delivers_rows_in_order_aux (lbl : string) (s0 : sink) (bufSize : Z)
    (pb0 pb : Base row sink) (ops : list (op row)) errs t :
  NewBase lbl s0 bufSize = Some pb0 ->
  run_ops Commit ops pb0 = (pb, errs, t) ->
  concat (commits t) ++ rows (buf pb) = puts ops.
Proof.
  unfold NewBase, NewBuffer. destruct (Z.ltb_spec bufSize 0) as [|Hsz]; [discriminate|].
  intros [= <-] H.
  destruct (run_ops_delivery _ _ _ _ _ H) as (_ & Hc & _).
  { unfold fits. cbn. lia. }
  exact Hc.
Qed.

(** X1. Rows reach the sink in the order they were put, none lost and
    none twice: after any sequence of [Put] and [Flush] on a new [Base],
    the batches handed to [Commit], one after the other, followed by the
    rows still buffered, are the rows put; this holds whatever the sink
    answers. No batch is longer than the buffer size (one row for size
    0), and after a [Flush] nothing is left in the buffer. *)
Theorem base_delivers_rows_in_order (lbl : string) (s0 : sink) (bufSize : Z)
    (pb0 pb : Base row sink) (ops : list (op row)) errs t :
  NewBase lbl s0 bufSize = Some pb0 ->
  run_ops Commit ops pb0 = (pb, errs, t) ->
  concat (commits t) ++ rows (buf pb) = puts ops /\
  Forall (fun b => Z.of_nat (length b) <= Z.max bufSize 1) (commits t) /\
  (last ops = Some OpFlush -> concat (commits t) = puts ops).
Proof.
  unfold NewBase, NewBuffer. destruct (Z.ltb_spec bufSize 0) as [|Hsz]; [discriminate|].
  intros [= <-] H.
  destruct (run_ops_delivery _ _ _ _ _ H) as (_ & Hc & Hf & _).
  { unfold fits. cbn. lia. }
  cbn in Hc, Hf. split; [exact Hc|]. split; [exact Hf|].
  intros Hl. rewrite (run_ops_flushed _ _ _ _ _ H Hl), app_nil_r in Hc. exact Hc.
Qed.

End Delivery.

Lemma base_delivers_rows_in_order_witness :
  let ops := [OpPut 1%nat; OpPut 2%nat; OpPut 3%nat; OpFlush] in
  let pb0 := mkBase ([] : list nat) (mkBuffer 2 []) "ndt" zeroStats in
  let r := run_ops keepFirst ops pb0 in
  concat (commits (snd r)) ++ rows (buf (fst (fst r))) = puts ops /\
  Forall (fun b => Z.of_nat (length b) <= Z.max 2 1) (commits (snd r)) /\
  (last ops = Some OpFlush -> concat (commits (snd r)) = puts ops).
Proof.
  intros ops pb0 r.
  apply (base_delivers_rows_in_order keepFirst "ndt" [] 2 pb0 (fst (fst r)) ops
           (snd (fst r)) (snd r)); reflexivity.
Defined.

Section Accounting.
Context {row sink : Type}.
Variable Commit : sink -> list row -> string -> (Z * option string) * sink.

Hypothesis Hsink : sink_ok Commit.

Lemma logs_logs (l : list string) : logs (map (@EvLog row) l) = l.
Proof. induction l as [|x l IH]; [reflexivity|]. cbn. now f_equal. Qed.

Lemma logs_app (t1 t2 : list (event row)) : logs (t1 ++ t2) = logs t1 ++ logs t2.
Proof. apply omap_app. Qed.

Local Ltac unwrap :=
  repeat match goal with
  | |- context [wrap64 ?z] =>
      rewrite (wrap64_id z) by (unfold in_int64, min_int64, max_int64; lia)
  | H : context [wrap64 ?z] |- _ =>
      rewrite (wrap64_id z) in H by (unfold in_int64, min_int64, max_int64; lia)
  end.

Lemma commit_settles (rows0 : list row) (pb pb1 : Base row sink) err t (c f b : Z) :
  commit Commit rows0 pb = (pb1, err, t) ->
  Pending (stats pb) = Z.of_nat (length rows0) ->
  Buffered (stats pb) = b -> Committed (stats pb) = c -> Failed (stats pb) = f ->
  0 <= b -> 0 <= c -> 0 <= f ->
  c + f + b + Z.of_nat (length rows0) <= max_int64 ->
  Buffered (stats pb1) = b /\ Pending (stats pb1) = 0 /\
  0 <= Committed (stats pb1) /\ 0 <= Failed (stats pb1) /\
  Committed (stats pb1) + Failed (stats pb1) = c + f + Z.of_nat (length rows0) /\
  (err = None -> Failed (stats pb1) = f) /\
  logs t = option_list (err_line (label pb) err).
Proof.
  unfold commit. intros H Hp Hb Hc Hf Hb0 Hc0 Hf0 Hmax.
  pose proof (Hsink (sink_state pb) rows0 (label pb)) as [Hd Hall].
  destruct (Commit (sink_state pb) rows0 (label pb)) as [[done e] s1].
  cbn [fst snd] in Hd, Hall. unfold max_int64 in Hmax.
  destruct (Z.ltb_spec 0 done) as [Hpos|Hzero];
    destruct e as [e|]; unfold Done, sub64, add64 in H; cbn [Pending Committed Failed Buffered] in H.
  - rewrite Hp, Hc, Hf in H. unwrap.
    destruct (Z.ltb_spec (Z.of_nat (length rows0) - done) 0); [lia|].
    destruct (Z.ltb_spec (Z.of_nat (length rows0) - done - (Z.of_nat (length rows0) - done)) 0); [lia|].
    simplify_eq. cbn. repeat split; try lia; discriminate.
  - specialize (Hall eq_refl). rewrite Hp, Hc in H. unwrap.
    destruct (Z.ltb_spec (Z.of_nat (length rows0) - done) 0); [lia|].
    simplify_eq. cbn. repeat split; lia.
  - assert (done = 0) by lia. subst done. rewrite Hp, Hf in H. unwrap.
    destruct (Z.ltb_spec (Z.of_nat (length rows0) - (Z.of_nat (length rows0) - 0)) 0); [lia|].
    simplify_eq. cbn. repeat split; try lia; discriminate.
  - specialize (Hall eq_refl). simplify_eq. cbn. repeat split; lia.
Qed.

Lemma Put_settles (r : row) (pb pb1 : Base row sink) err t (n : Z) :
  Put Commit r pb = (pb1, err, t) ->
  settled pb n -> n + 1 <= max_int64 ->
  settled pb1 (n + 1) /\ label pb1 = label pb /\
  (err = None -> Failed (stats pb1) = Failed (stats pb)) /\
  logs t = option_list (err_line (label pb) err).
Proof.
  unfold Put, Append, Inc, MoveToPending, settled, add64, sub64.
  intros H (Hb & Hp & Hc & Hf & Hn) Hmax. unfold max_int64 in Hmax.
  cbn [Buffered Pending Committed Failed] in H.
  destruct (Z.ltb_spec (Z.of_nat (length (rows (buf pb)))) (size (buf pb))) as [Hlt|Hge].
  - simplify_eq. cbn. rewrite length_app. cbn. unwrap. repeat split; lia.
  - destruct (commit Commit _ _) as [[pb3 e] t3] eqn:Ec.
    pose proof (commit_frame _ _ _ _ _ _ Ec) as (Hbuf & Hlbl & _).
    cbn [buf label] in Hbuf, Hlbl.
    eapply (commit_settles _ _ _ _ _ (Committed (stats pb)) (Failed (stats pb)) 1) in Ec;
      cbn [stats Buffered Pending Committed Failed label]; unwrap;
      try (unfold max_int64; lia); try reflexivity.
    destruct Ec as (Hb3 & Hp3 & Hc3 & Hf3 & Hsum & Hfail & Hlog).
    assert (pb1 = pb3 /\ err = e /\ logs t = logs t3) as (-> & -> & ->).
    { rewrite Hb in H.
      destruct (Z.ltb_spec (Z.of_nat (length (rows (buf pb))) + 1
                            - Z.of_nat (length (rows (buf pb)))) 0); [lia|].
      destruct e; simplify_eq; repeat split; unfold logs;
        rewrite ?omap_app; cbn; now rewrite ?app_nil_r. }
    rewrite Hbuf. cbn. repeat split; try lia; assumption.
Qed.

Lemma Flush_settles (pb pb1 : Base row sink) err t (n : Z) :
  Flush Commit pb = (pb1, err, t) ->
  settled pb n -> n <= max_int64 ->
  settled pb1 n /\ label pb1 = label pb /\
  (err = None -> Failed (stats pb1) = Failed (stats pb)) /\
  logs t = option_list (err_line (label pb) err).
Proof.
  unfold Flush, Reset, MoveToPending, settled, add64, sub64.
  intros H (Hb & Hp & Hc & Hf & Hn) Hmax. unfold max_int64 in Hmax.
  destruct (commit Commit _ _) as [[pb3 e] t3] eqn:Ec.
  pose proof (commit_frame _ _ _ _ _ _ Ec) as (Hbuf & Hlbl & _).
  cbn [buf label] in Hbuf, Hlbl.
  eapply (commit_settles _ _ _ _ _ (Committed (stats pb)) (Failed (stats pb)) 0) in Ec;
    cbn [stats Buffered Pending Committed Failed label]; unwrap;
      try (unfold max_int64; lia); try reflexivity.
  destruct Ec as (Hb3 & Hp3 & Hc3 & Hf3 & Hsum & Hfail & Hlog).
  assert (pb1 = pb3 /\ err = e /\ logs t = logs t3) as (-> & -> & ->).
  { rewrite Hb in H. unwrap.
    destruct (Z.ltb_spec (Z.of_nat (length (rows (buf pb)))
                          - Z.of_nat (length (rows (buf pb)))) 0); [lia|].
    simplify_eq. cbn. repeat split. }
  rewrite Hbuf. cbn. repeat split; try lia; assumption.
Qed.

Lemma run_ops_settles (ops : list (op row)) :
  forall (pb pb1 : Base row sink) errs t (n : Z),
  run_ops Commit ops pb = (pb1, errs, t) ->
  settled pb n -> n + Z.of_nat (length ops) <= max_int64 ->
  settled pb1 (n + Z.of_nat (length (puts ops))) /\
  (Forall (eq None) errs -> Failed (stats pb1) = Failed (stats pb)) /\
  logs t = omap (err_line (label pb)) errs.
Proof.
  induction ops as [|o ops IH]; intros pb pb1 errs t n H Hs Hmax; cbn [run_ops] in H.
  - simplify_eq. cbn. rewrite Z.add_0_r. split; [exact Hs|]. split; reflexivity.
  - destruct (step Commit o pb) as [[pb2 e2] t2] eqn:Es.
    destruct (run_ops Commit ops pb2) as [[pb3 errs3] t3] eqn:Er.
    simplify_eq. cbn [length] in Hmax.
    pose proof (puts_length ops) as Hlen.
    destruct o as [r|]; cbn [step] in Es.
    + apply (Put_settles _ _ _ _ _ n) in Es; [|exact Hs|lia].
      destruct Es as (Hs2 & Hl2 & Hf2 & Hlog2).
      apply (IH _ _ _ _ (n + 1)) in Er; [|exact Hs2|lia].
      destruct Er as (Hs3 & Hf3 & Hlog3).
      replace (n + Z.of_nat (length (puts (OpPut r :: ops))))
        with (n + 1 + Z.of_nat (length (puts ops)))
        by (change (puts (OpPut r :: ops)) with (r :: puts ops); cbn [length]; lia).
      split; [exact Hs3|]. split.
      * intros Hall. inversion Hall; subst. rewrite Hf3, Hf2; auto.
      * rewrite logs_app, Hlog2, Hlog3, Hl2. now destruct e2.
    + apply (Flush_settles _ _ _ _ n) in Es; [|exact Hs|lia].
      destruct Es as (Hs2 & Hl2 & Hf2 & Hlog2).
      apply (IH _ _ _ _ n) in Er; [|exact Hs2|lia].
      destruct Er as (Hs3 & Hf3 & Hlog3).
      split; [exact Hs3|]. split.
      * intros Hall. inversion Hall; subst. rewrite Hf3, Hf2; auto.
      * rewrite logs_app, Hlog2, Hlog3, Hl2. now destruct e2.
Qed.

(** X2. The counters of a [Base] in front of a sink that reports at most
    the rows it was given, and all of them when it reports no error: after
    any sequence of [Put] and [Flush], Buffered is the number of rows in
    the buffer, Pending is 0, Committed plus Failed is the number of rows
    handed to the sink, and Total() is the number of rows put. Failed
    stays 0 while no call returns an error, and the only lines logged are
    those of the sink's errors: no counter is ever reported as broken. *)
Theorem base_stats_account (lbl : string) (s0 : sink) (bufSize : Z)
    (pb0 pb : Base row sink) (ops : list (op row)) errs t :
  NewBase lbl s0 bufSize = Some pb0 ->
  Z.of_nat (length ops) <= max_int64 ->
  run_ops Commit ops pb0 = (pb, errs, t) ->
  let st := GetStats pb in
  Buffered st = Z.of_nat (length (rows (buf pb))) /\
  Pending st = 0 /\ 0 <= Committed st /\ 0 <= Failed st /\
  Committed st + Failed st = Z.of_nat (length (concat (commits t))) /\
  Total st = Z.of_nat (length (puts ops)) /\
  (Forall (eq None) errs -> Failed st = 0) /\
  logs t = omap (err_line lbl) errs.
Proof.
  intros Hnew Hmax H.
  pose proof (base_delivers_rows_in_order_aux Commit lbl s0 bufSize pb0 pb ops errs t Hnew H)
    as Hdel.
  unfold NewBase, NewBuffer in Hnew.
  destruct (Z.ltb_spec bufSize 0) as [|Hsz]; [discriminate|]. injection Hnew as <-.
  apply (run_ops_settles _ _ _ _ _ 0) in H; [| |lia].
  2:{ unfold settled. cbn. lia. }
  destruct H as ((Hb & Hp & Hc & Hf & Hn) & Hfail & Hlog). cbn [label] in Hlog.
  assert (Hlen : Z.of_nat (length (puts ops))
                 = Z.of_nat (length (concat (commits t)))
                   + Z.of_nat (length (rows (buf pb)))).
  { rewrite <- Hdel, length_app. lia. }
  pose proof (puts_length ops) as Hle.
  unfold GetStats, Total, add64. cbv zeta. unfold max_int64 in Hmax.
  rewrite Hp. unwrap.
  repeat split; try assumption; try lia.
Qed.

End Accounting.

Lemma base_stats_account_witness :
  let ops := [OpPut 1%nat; OpPut 2%nat; OpPut 3%nat; OpFlush; OpPut 4%nat] in
  let pb0 := mkBase ([] : list nat) (mkBuffer 2 []) "ndt" zeroStats in
  let r := run_ops keepAll ops pb0 in
  let st := GetStats (fst (fst r)) in
  Buffered st = Z.of_nat (length (rows (buf (fst (fst r))))) /\
  Pending st = 0 /\ 0 <= Committed st /\ 0 <= Failed st /\
  Committed st + Failed st = Z.of_nat (length (concat (commits (snd r)))) /\
  Total st = Z.of_nat (length (puts ops)) /\
  (Forall (eq None) (snd (fst r)) -> Failed st = 0) /\
  logs (snd r) = omap (err_line "ndt") (snd (fst r)).
Proof.
  intros ops pb0 r.
  apply (base_stats_account keepAll
           ltac:(intros s rows0 lbl; cbn; split; [lia|reflexivity])
           "ndt" [] 2 pb0 (fst (fst r)) ops (snd (fst r)) (snd r));
    [reflexivity|vm_compute; discriminate|reflexivity].
Defined.

End RowBaseSpec.

(** ** Package etl: data types and IP distances *)

Module EtlDataSpec.
Import GoInt Row Etl Sidestream EtlData GoIntFacts.
Local Open Scope string_scope.
Local Open Scope Z_scope.

(** *** Data types and buffer sizes *)

Lemma GetDataType_cases (dp : DataPath) :
  (Exp1 dp = "ndt" /\ GetDataType dp = NDT) \/
  (Exp1 dp = "sidestream" /\ GetDataType dp = SS) \/
  (Exp1 dp = "paris-traceroute" /\ GetDataType dp = PT) \/
  (Exp1 dp = "switch" /\ GetDataType dp = SW) \/
  (~ In (Exp1 dp) knownDirs /\ GetDataType dp = INVALID).
Proof.
  unfold GetDataType, DirToDataType.
  destruct (decide (Exp1 dp = "ndt")) as [->|N1]; [left; split; reflexivity|].
  destruct (decide (Exp1 dp = "sidestream")) as [->|N2];
    [right; left; split; reflexivity|].
  destruct (decide (Exp1 dp = "paris-traceroute")) as [->|N3];
    [right; right; left; split; reflexivity|].
  destruct (decide (Exp1 dp = "switch")) as [->|N4];
    [right; right; right; left; split; reflexivity|].
  right; right; right; right.
  rewrite !lookup_insert_ne, lookup_empty by congruence.
  split; [|reflexivity]. cbn. intuition congruence.
Qed.

Local Ltac fin :=
  repeat split; intros;
  repeat match goal with H : _ /\ _ |- _ => destruct H end;
  try discriminate; try reflexivity; try assumption;
  try (cbn [In]; auto 10; fail);
  try (exfalso; match goal with H : ~ In _ _ |- _ => apply H; cbn; auto 10 end; fail);
  try congruence.

(** X6. The buffer size of the data type of a task file is decided by
    the experiment directory and the environment: ndt gives 10, or 50 when
    NDT_OMIT_DELTAS is set to a value that parses as true; sidestream and
    switch give 100; paris-traceroute gives 300; every other directory
    gives the type "invalid", and that type alone, with the size 0. *)
Theorem buffer_size_of_data_type (Getenv : string -> string) (dp : DataPath) :
  let dt := GetDataType dp in
  let n := BQBufferSize Getenv dt in
  let omit := fst (ParseBool (Getenv "NDT_OMIT_DELTAS")) in
  ((Exp1 dp = "ndt" /\ dt = NDT /\ n = (if omit then 50 else 10)) \/
   (Exp1 dp = "sidestream" /\ dt = SS /\ n = 100) \/
   (Exp1 dp = "switch" /\ dt = SW /\ n = 100) \/
   (Exp1 dp = "paris-traceroute" /\ dt = PT /\ n = 300) \/
   (~ In (Exp1 dp) knownDirs /\ dt = INVALID /\ n = 0)) /\
  (dt = INVALID <-> ~ In (Exp1 dp) knownDirs) /\
  (n = 0 <-> dt = INVALID) /\
  In n [0; 10; 50; 100; 300] /\
  (n = 50 <-> Exp1 dp = "ndt" /\ omit = true).
Proof.
  cbv zeta. unfold BQBufferSize.
  destruct (GetDataType_cases dp) as [[E ->]|[[E ->]|[[E ->]|[[E ->]|[E ->]]]]];
    try rewrite E.
  - change (String.eqb NDT NDT) with true. cbn [andb].
    change (default 0 (dataTypeToBQBufferSize !! NDT_OMIT_DELTAS)) with 50.
    change (default 0 (dataTypeToBQBufferSize !! NDT)) with 10.
    split; [left; now destruct (fst (ParseBool _))|].
    destruct (fst (ParseBool _)); fin.
  - change (String.eqb SS NDT) with false. cbn [andb].
    change (default 0 (dataTypeToBQBufferSize !! SS)) with 100.
    split; [right; left; now repeat split|]. fin.
  - change (String.eqb PT NDT) with false. cbn [andb].
    change (default 0 (dataTypeToBQBufferSize !! PT)) with 300.
    split; [right; right; right; left; now repeat split|]. fin.
  - change (String.eqb SW NDT) with false. cbn [andb].
    change (default 0 (dataTypeToBQBufferSize !! SW)) with 100.
    split; [right; right; left; now repeat split|]. fin.
  - assert (Exp1 dp <> "ndt") by (intros E'; apply E; rewrite E'; cbn; auto).
    change (String.eqb INVALID NDT) with false. cbn [andb].
    change (default 0 (dataTypeToBQBufferSize !! INVALID)) with 0.
    split; [right; right; right; right; now repeat split|]. fin.
Qed.

Local Ltac unwrap :=
  repeat match goal with
  | |- context [wrap64 ?z] =>
      rewrite (wrap64_id z) by (unfold in_int64, min_int64, max_int64; lia)
  end.

(** The counting loop on a register of [w] bits that holds the shifted
    value of [X]: it counts the zero bits at the top of [X]. *)
Lemma countLoop_spec (w : Z) (wrap : Z -> Z) (X : Z) :
  1 <= w <= 64 ->
  (forall z, wrap z = (z + 2 ^ (w - 1)) mod 2 ^ w - 2 ^ (w - 1)) ->
  forall i : nat,
  Z.of_nat i <= w -> 0 <= X < 2 ^ Z.of_nat i ->
  let j := w - Z.of_nat i in
  let r := countLoop wrap i (wrap (X * 2 ^ j)) j in
  j <= r <= w /\ X < 2 ^ (w - r) /\ (r < w -> 2 ^ (w - 1 - r) <= X).
Proof.
  intros Hw Hwrap. induction i as [|i IH]; intros Hi HX; cbv zeta.
  - cbn [countLoop]. cbn in HX. replace (w - Z.of_nat 0) with w by lia.
    rewrite Z.sub_diag. cbn. lia.
  - cbn [countLoop].
    set (I := Z.of_nat i). assert (HI : Z.of_nat (S i) = I + 1) by lia.
    rewrite HI in *. set (j := w - (I + 1)).
    assert (Hj : 0 <= j) by lia. assert (HI0 : 0 <= I) by lia.
    assert (E1 : 2 ^ (I + 1) = 2 * 2 ^ I) by (rewrite Z.pow_add_r by lia; lia).
    assert (E2 : 2 ^ (w - 1) = 2 ^ I * 2 ^ j).
    { rewrite <- Z.pow_add_r by lia. f_equal. lia. }
    assert (E3 : 2 ^ w = 2 * 2 ^ (w - 1)).
    { replace w with (w - 1 + 1) at 1 by lia. rewrite Z.pow_add_r by lia. lia. }
    assert (Pj : 0 < 2 ^ j) by (apply Z.pow_pos_nonneg; lia).
    assert (PI : 0 < 2 ^ I) by (apply Z.pow_pos_nonneg; lia).
    assert (Hv : 0 <= X * 2 ^ j < 2 ^ w) by nia.
    rewrite (Hwrap (X * 2 ^ j)).
    destruct (Z.lt_ge_cases (X * 2 ^ j) (2 ^ (w - 1))) as [Hlo|Hhi].
    + rewrite Z.mod_small by lia.
      destruct (Z.ltb_spec (X * 2 ^ j + 2 ^ (w - 1) - 2 ^ (w - 1)) 0); [lia|].
      assert (HXi : 0 <= X < 2 ^ I) by nia.
      specialize (IH ltac:(lia) HXi). cbv zeta in IH.
      replace (w - Z.of_nat i) with (j + 1) in IH by (unfold j, I; lia).
      unfold add64. rewrite (wrap64_id (j + 1))
        by (unfold in_int64, min_int64, max_int64; lia).
      replace ((X * 2 ^ j + 2 ^ (w - 1) - 2 ^ (w - 1)) * 2) with (X * 2 ^ (j + 1))
        by (rewrite Z.pow_add_r by lia; lia).
      destruct IH as (H1 & H2 & H3). repeat split; try assumption; lia.
    + replace ((X * 2 ^ j + 2 ^ (w - 1)) mod 2 ^ w)
        with (X * 2 ^ j + 2 ^ (w - 1) - 2 ^ w).
      2:{ apply Z.mod_unique with (q := 1); lia. }
      destruct (Z.ltb_spec (X * 2 ^ j + 2 ^ (w - 1) - 2 ^ w - 2 ^ (w - 1)) 0); [|lia].
      replace (w - j) with (I + 1) by (unfold j; lia).
      replace (w - 1 - j) with I by (unfold j; lia).
      repeat split; try lia. intros _. nia.
Qed.

(** The same on the bits of the register's first value [d]. *)
Lemma countLoop_bits (w : Z) (wrap : Z -> Z) (d : Z) :
  1 <= w <= 64 ->
  (forall z, wrap z = (z + 2 ^ (w - 1)) mod 2 ^ w - 2 ^ (w - 1)) ->
  - 2 ^ (w - 1) <= d < 2 ^ (w - 1) ->
  let r := countLoop wrap (Z.to_nat w) d 0 in
  0 <= r <= w /\
  (forall k, w - r <= k < w -> Z.testbit d k = false) /\
  (r < w -> Z.testbit d (w - 1 - r) = true) /\
  (r = w <-> d = 0).
Proof.
  intros Hw Hwrap Hd. cbv zeta.
  assert (E3 : 2 ^ w = 2 * 2 ^ (w - 1)).
  { replace w with (w - 1 + 1) at 1 by lia. rewrite Z.pow_add_r by lia. lia. }
  assert (P : 0 < 2 ^ (w - 1)) by (apply Z.pow_pos_nonneg; lia).
  set (X := d mod 2 ^ w).
  assert (HX : 0 <= X < 2 ^ w) by (apply Z.mod_pos_bound; lia).
  assert (HdX : wrap (X * 2 ^ 0) = d).
  { rewrite Hwrap, Z.pow_0_r, Z.mul_1_r. unfold X.
    rewrite Zplus_mod_idemp_l, Z.mod_small by lia. lia. }
  pose proof (countLoop_spec w wrap X Hw Hwrap (Z.to_nat w)) as H.
  rewrite Z2Nat.id in H by lia. specialize (H ltac:(lia) HX). cbv zeta in H.
  rewrite Z.sub_diag, HdX in H. destruct H as (H1 & H2 & H3).
  set (r := countLoop wrap (Z.to_nat w) d 0) in *.
  assert (Hbits : forall k, 0 <= k < w -> Z.testbit d k = Z.testbit X k).
  { intros k Hk. unfold X. now rewrite Z.mod_pow2_bits_low by lia. }
  split; [exact H1|]. split; [|split].
  - intros k Hk. rewrite Hbits by lia.
    destruct (Z.eq_dec X 0) as [->|Hne]; [apply Z.bits_0|].
    apply Z.bits_above_log2; [lia|].
    apply Z.lt_le_trans with (w - r); [|lia].
    apply Z.log2_lt_pow2; lia.
  - intros Hr. specialize (H3 Hr). rewrite Hbits by lia.
    assert (Hl : Z.log2 X = w - 1 - r).
    { apply Z.log2_unique; [lia|]. split; [exact H3|].
      replace (Z.succ (w - 1 - r)) with (w - r) by lia. exact H2. }
    rewrite <- Hl. apply Z.bit_log2.
    assert (0 < 2 ^ (w - 1 - r)) by (apply Z.pow_pos_nonneg; lia). lia.
  - split.
    + intros Hr. rewrite Hr, Z.sub_diag in H2. cbn in H2.
      assert (X = 0) by lia. unfold X in *.
      destruct (Z.eq_dec d 0) as [|Hne]; [assumption|exfalso].
      destruct (Z.lt_ge_cases d 0).
      * assert (d mod 2 ^ w = d + 2 ^ w); [|lia].
        symmetry. apply Z.mod_unique with (q := -1); lia.
      * rewrite Z.mod_small in H by lia. lia.
    + intros ->. destruct (Z.eq_dec r w) as [|Hne]; [assumption|exfalso].
      specialize (H3 ltac:(lia)). unfold X in H3. rewrite Z.mod_0_l in H3 by lia.
      assert (0 < 2 ^ (w - 1 - r)) by (apply Z.pow_pos_nonneg; lia). lia.
Qed.

Lemma wrap32_spec z : wrap32 z = (z + 2 ^ (32 - 1)) mod 2 ^ 32 - 2 ^ (32 - 1).
Proof. reflexivity. Qed.

Lemma wrap64_spec z : wrap64 z = (z + 2 ^ (64 - 1)) mod 2 ^ 64 - 2 ^ (64 - 1).
Proof. reflexivity. Qed.

Lemma int_range (b : byte) : 0 <= int b <= 255.
Proof. unfold int. pose proof (Byte.to_N_bounded b). lia. Qed.

Lemma shl64_small (x k : Z) :
  0 <= k -> 0 <= x * 2 ^ k < 2 ^ 63 -> shl64 x k = x * 2 ^ k.
Proof.
  intros Hk Hx. unfold shl64. rewrite Z.shiftl_mul_pow2 by lia.
  apply wrap64_id. unfold in_int64, min_int64, max_int64. lia.
Qed.

(** The four bytes of an IPv4 address as one number. *)
Lemma GetIntFromIPv4_value (a0 a1 a2 a3 : byte) :
  GetIntFromIPv4 [a0; a1; a2; a3]
  = Return (int a0 * 2 ^ 24 + int a1 * 2 ^ 16 + int a2 * 2 ^ 8 + int a3).
Proof.
  unfold GetIntFromIPv4. cbn [index_all lookup list_lookup].
  pose proof (int_range a0). pose proof (int_range a1).
  pose proof (int_range a2). pose proof (int_range a3).
  rewrite (shl64_small (int a0) 24), (shl64_small (int a1) 16),
    (shl64_small (int a2) 8) by lia.
  unfold add64. unwrap. reflexivity.
Qed.

Lemma lxor_range (n a b : Z) :
  0 <= n -> 0 <= a < 2 ^ n -> 0 <= b < 2 ^ n -> 0 <= Z.lxor a b < 2 ^ n.
Proof.
  intros Hn Ha Hb. assert (H0 : 0 <= Z.lxor a b) by (apply Z.lxor_nonneg; lia).
  split; [exact H0|].
  destruct (Z.eq_dec (Z.lxor a b) 0) as [->|Hne]; [apply Z.pow_pos_nonneg; lia|].
  assert (0 < n).
  { destruct (Z.eq_dec n 0) as [->|]; [exfalso|lia].
    cbn in Ha, Hb. assert (a = 0) by lia. assert (b = 0) by lia. subst.
    now apply Hne. }
  apply Z.log2_lt_pow2; [lia|].
  pose proof (Z.log2_lxor a b ltac:(lia) ltac:(lia)).
  assert (Z.log2 a < n).
  { destruct (Z.eq_dec a 0) as [->|]; [cbn; lia|]. apply Z.log2_lt_pow2; lia. }
  assert (Z.log2 b < n).
  { destruct (Z.eq_dec b 0) as [->|]; [cbn; lia|]. apply Z.log2_lt_pow2; lia. }
  lia.
Qed.

Section IPv4.
Variable ParseIP : string -> IP.

(** X7. For two IPv4 addresses [CalculateIPDistance] returns the length
    of their common prefix in bits: a number [n] from 0 to 32 such that
    the [n] highest of the 32 bits of the two addresses agree and, when
    [n] is below 32, the next bit differs; [n] is 32 exactly for equal
    addresses. *)
Theorem ipv4_distance_is_common_prefix (first_ip second_ip : string)
    (a0 a1 a2 a3 b0 b1 b2 b3 : byte) :
  To4 (ParseIP first_ip) = [a0; a1; a2; a3] ->
  To4 (ParseIP second_ip) = [b0; b1; b2; b3] ->
  let A := int a0 * 2 ^ 24 + int a1 * 2 ^ 16 + int a2 * 2 ^ 8 + int a3 in
  let B := int b0 * 2 ^ 24 + int b1 * 2 ^ 16 + int b2 * 2 ^ 8 + int b3 in
  exists n,
    CalculateIPDistance ParseIP first_ip second_ip = Return (n, None) /\
    0 <= n <= 32 /\
    (forall k, 32 - n <= k < 32 -> Z.testbit A k = Z.testbit B k) /\
    (n < 32 -> Z.testbit A (31 - n) <> Z.testbit B (31 - n)) /\
    (n = 32 <-> A = B).
Proof.
  intros H1 H2 A B. unfold CalculateIPDistance, distance.
  rewrite H1, H2. cbn [is_nil negb andb].
  rewrite !GetIntFromIPv4_value. fold A B.
  pose proof (int_range a0). pose proof (int_range a1).
  pose proof (int_range a2). pose proof (int_range a3).
  pose proof (int_range b0). pose proof (int_range b1).
  pose proof (int_range b2). pose proof (int_range b3).
  assert (HA : 0 <= A < 2 ^ 32) by (unfold A; lia).
  assert (HB : 0 <= B < 2 ^ 32) by (unfold B; lia).
  pose proof (lxor_range 32 A B ltac:(lia) HA HB) as HX.
  set (d := wrap32 (Z.lxor A B)).
  assert (Hd : - 2 ^ (32 - 1) <= d < 2 ^ (32 - 1)).
  { unfold d, wrap32. pose proof (Z.mod_pos_bound (Z.lxor A B + 2 ^ 31) (2 ^ 32)). lia. }
  assert (Hbit : forall k, 0 <= k < 32 ->
                 Z.testbit d k = xorb (Z.testbit A k) (Z.testbit B k)).
  { intros k Hk. rewrite <- Z.lxor_spec. unfold d, wrap32.
    rewrite <- (Z.mod_pow2_bits_low _ 32 k) by lia.
    rewrite <- (Z.mod_pow2_bits_low (Z.lxor A B) 32 k) by lia. f_equal.
    destruct (Z.lt_ge_cases (Z.lxor A B) (2 ^ 31)).
    - rewrite (Z.mod_small (_ + _)) by lia. f_equal. lia.
    - replace ((Z.lxor A B + 2 ^ 31) mod 2 ^ 32) with (Z.lxor A B + 2 ^ 31 - 2 ^ 32)
        by (apply Z.mod_unique with (q := 1); lia).
      rewrite (Z.mod_small (Z.lxor A B)) by lia.
      symmetry. apply Z.mod_unique with (q := -1); lia. }
  assert (Hzero : d = 0 <-> A = B).
  { unfold d, wrap32. split.
    - intros Hd0. apply Z.lxor_eq.
      destruct (Z.lt_ge_cases (Z.lxor A B) (2 ^ 31)).
      + rewrite Z.mod_small in Hd0 by lia. lia.
      + replace ((Z.lxor A B + 2 ^ 31) mod 2 ^ 32) with (Z.lxor A B + 2 ^ 31 - 2 ^ 32) in Hd0
          by (apply Z.mod_unique with (q := 1); lia).
        lia.
    - intros ->. now rewrite Z.lxor_nilpotent. }
  pose proof (countLoop_bits 32 wrap32 d ltac:(lia) wrap32_spec Hd) as Hloop.
  cbv zeta in Hloop. change (Z.to_nat 32) with 32%nat in Hloop.
  exists (countLoop wrap32 32 d 0). split; [reflexivity|].
  clearbody d. generalize dependent (countLoop wrap32 32 d 0). intros r Hloop.
  destruct Hloop as (Hr & Hz & Ho & Heq).
  split; [exact Hr|]. split; [|split].
  - intros k Hk. specialize (Hz k Hk). rewrite Hbit in Hz by lia.
    now destruct (Z.testbit A k), (Z.testbit B k).
  - intros Hn. specialize (Ho Hn).
    replace (32 - 1 - r) with (31 - r) in Ho by lia.
    rewrite Hbit in Ho by lia.
    now destruct (Z.testbit A _), (Z.testbit B _).
  - now rewrite Heq.
Qed.

End IPv4.

Lemma ipv4_distance_is_common_prefix_witness :
  let ParseIP := fun s : string =>
    (v4InV6Prefix ++
     (if String.eqb s "192.168.3.4" then [xc0; xa8; x03; x04]
      else [xc0; xa8; x03; x01]))%list in
  let A := int xc0 * 2 ^ 24 + int xa8 * 2 ^ 16 + int x03 * 2 ^ 8 + int x04 in
  let B := int xc0 * 2 ^ 24 + int xa8 * 2 ^ 16 + int x03 * 2 ^ 8 + int x01 in
  exists n,
    CalculateIPDistance ParseIP "192.168.3.4" "192.168.3.1" = Return (n, None) /\
    0 <= n <= 32 /\
    (forall k, 32 - n <= k < 32 -> Z.testbit A k = Z.testbit B k) /\
    (n < 32 -> Z.testbit A (31 - n) <> Z.testbit B (31 - n)) /\
    (n = 32 <-> A = B).
Proof.
  intros ParseIP.
  apply (ipv4_distance_is_common_prefix ParseIP "192.168.3.4" "192.168.3.1"
           xc0 xa8 x03 x04 xc0 xa8 x03 x01); reflexivity.
Defined.

(** *** IPv6 *)

Lemma wrap64_add_l (x y : Z) : wrap64 (wrap64 x + y) = wrap64 (x + y).
Proof.
  destruct (wrap64_eqm x) as [q ->].
  replace (x + q * 2 ^ 64 + y) with (x + y + q * 2 ^ 64) by lia.
  apply wrap64_congr.
Qed.

(** The eight bytes as one number, in the register. *)
Lemma sum8_value (b0 b1 b2 b3 b4 b5 b6 b7 : byte) :
  sum8 [int b0; int b1; int b2; int b3; int b4; int b5; int b6; int b7]
  = wrap64 (int b0 * 2 ^ 56 + int b1 * 2 ^ 48 + int b2 * 2 ^ 40 + int b3 * 2 ^ 32 +
            int b4 * 2 ^ 24 + int b5 * 2 ^ 16 + int b6 * 2 ^ 8 + int b7).
Proof.
  unfold sum8.
  pose proof (int_range b0). pose proof (int_range b1).
  pose proof (int_range b2). pose proof (int_range b3).
  pose proof (int_range b4). pose proof (int_range b5).
  pose proof (int_range b6). pose proof (int_range b7).
  rewrite (shl64_small (int b1) 48), (shl64_small (int b2) 40),
    (shl64_small (int b3) 32), (shl64_small (int b4) 24),
    (shl64_small (int b5) 16), (shl64_small (int b6) 8) by lia.
  unfold shl64, add64. rewrite Z.shiftl_mul_pow2 by lia.
  repeat match goal with
  | |- context [wrap64 (wrap64 ?x + ?y)] =>
      lazymatch x with
      | context [wrap64 _] => fail
      | _ => rewrite (wrap64_add_l x y)
      end
  end.
  reflexivity.
Qed.

Lemma wrap64_inj (x y : Z) :
  0 <= x < 2 ^ 64 -> 0 <= y < 2 ^ 64 -> wrap64 x = wrap64 y -> x = y.
Proof.
  unfold wrap64. intros Hx Hy H.
  assert (E : (x + 2 ^ 63) mod 2 ^ 64 = (y + 2 ^ 63) mod 2 ^ 64) by lia.
  destruct (Z.lt_ge_cases x (2 ^ 63)), (Z.lt_ge_cases y (2 ^ 63)).
  - rewrite !Z.mod_small in E by lia. lia.
  - rewrite (Z.mod_small (x + _)) in E by lia.
    replace ((y + 2 ^ 63) mod 2 ^ 64) with (y + 2 ^ 63 - 2 ^ 64) in E
      by (apply Z.mod_unique with (q := 1); lia). lia.
  - rewrite (Z.mod_small (y + _)) in E by lia.
    replace ((x + 2 ^ 63) mod 2 ^ 64) with (x + 2 ^ 63 - 2 ^ 64) in E
      by (apply Z.mod_unique with (q := 1); lia). lia.
  - replace ((y + 2 ^ 63) mod 2 ^ 64) with (y + 2 ^ 63 - 2 ^ 64) in E
      by (apply Z.mod_unique with (q := 1); lia).
    replace ((x + 2 ^ 63) mod 2 ^ 64) with (x + 2 ^ 63 - 2 ^ 64) in E
      by (apply Z.mod_unique with (q := 1); lia). lia.
Qed.

Lemma int_inj (a b : byte) : int a = int b -> a = b.
Proof.
  unfold int. intros H. apply N2Z.inj in H.
  assert (E : Byte.of_N (Byte.to_N a) = Byte.of_N (Byte.to_N b)) by now rewrite H.
  rewrite !Byte.of_to_N in E. now injection E.
Qed.

Local Ltac list16 ip H :=
  do 16 (destruct ip as [|? ip]; [discriminate H|]);
  destruct ip; [clear H|discriminate H].

Lemma countLoop_64_range (d : Z) :
  in_int64 d ->
  0 <= countLoop wrap64 64 d 0 <= 64 /\
  (countLoop wrap64 64 d 0 = 64 <-> d = 0).
Proof.
  intros Hd. unfold in_int64, min_int64, max_int64 in Hd.
  pose proof (countLoop_bits 64 wrap64 d ltac:(lia) wrap64_spec ltac:(lia)) as H.
  cbv zeta in H. change (Z.to_nat 64) with 64%nat in H.
  destruct H as (Hr & _ & _ & Heq). split; assumption.
Qed.

(** A 64-bit signed number is one whose bits from 63 on are all the
    same. *)
Lemma in_int64_bits (z : Z) :
  in_int64 z <-> (forall k, 63 <= k -> Z.testbit z k = Z.testbit z 63).
Proof.
  unfold in_int64, min_int64, max_int64. split.
  - intros Hz k Hk. destruct (Z.lt_ge_cases z 0).
    + assert (Hl : Z.log2 (Z.pred (- z)) < 63).
      { destruct (Z.eq_dec (Z.pred (- z)) 0) as [->|]; [reflexivity|].
        apply Z.log2_lt_pow2; lia. }
      rewrite (Z.bits_above_log2_neg z k), (Z.bits_above_log2_neg z 63) by lia.
      reflexivity.
    + assert (Hl : Z.log2 z < 63).
      { destruct (Z.eq_dec z 0) as [->|]; [reflexivity|].
        apply Z.log2_lt_pow2; lia. }
      rewrite (Z.bits_above_log2 z k), (Z.bits_above_log2 z 63) by lia.
      reflexivity.
  - intros Hb. destruct (Z.lt_ge_cases z 0).
    + destruct (Z.lt_ge_cases (Z.log2 (Z.pred (- z))) 63) as [Hl|Hge].
      * destruct (Z.eq_dec (Z.pred (- z)) 0); [lia|].
        assert (Z.pred (- z) < 2 ^ 63) by (apply Z.log2_lt_pow2; lia). lia.
      * exfalso.
        assert (z < -1).
        { destruct (Z.eq_dec z (-1)) as [->|]; [|lia].
          change (Z.log2 (Z.pred (- -1))) with 0 in Hge. lia. }
        pose proof (Z.bit_log2_neg z ltac:(lia)) as Hf.
        rewrite Hb in Hf by lia.
        pose proof (Z.bits_above_log2_neg z (Z.succ (Z.log2 (Z.pred (- z))))
                      ltac:(lia) ltac:(lia)) as Ht.
        rewrite Hb in Ht by lia. congruence.
    + destruct (Z.lt_ge_cases (Z.log2 z) 63) as [Hl|Hge].
      * destruct (Z.eq_dec z 0) as [->|]; [lia|].
        assert (z < 2 ^ 63) by (apply Z.log2_lt_pow2; lia). lia.
      * exfalso.
        assert (0 < z).
        { destruct (Z.eq_dec z 0) as [->|]; [|lia].
          change (Z.log2 0) with 0 in Hge. lia. }
        pose proof (Z.bit_log2 z ltac:(lia)) as Ht.
        rewrite Hb in Ht by lia.
        pose proof (Z.bits_above_log2 z (Z.succ (Z.log2 z))
                      ltac:(lia) ltac:(lia)) as Hf.
        rewrite Hb in Hf by lia. congruence.
Qed.

Lemma lxor_in_int64 (a c : Z) : in_int64 a -> in_int64 c -> in_int64 (Z.lxor a c).
Proof.
  rewrite !in_int64_bits. intros Ha Hc k Hk.
  now rewrite !Z.lxor_spec, (Ha k Hk), (Hc k Hk).
Qed.

Lemma digit_peel (a c x y : Z) :
  0 <= x <= 255 -> 0 <= y <= 255 -> a * 256 + x = c * 256 + y -> a = c /\ x = y.
Proof. lia. Qed.

Lemma sum8_inj (a0 a1 a2 a3 a4 a5 a6 a7 c0 c1 c2 c3 c4 c5 c6 c7 : byte) :
  sum8 [int a0; int a1; int a2; int a3; int a4; int a5; int a6; int a7]
  = sum8 [int c0; int c1; int c2; int c3; int c4; int c5; int c6; int c7] ->
  [a0; a1; a2; a3; a4; a5; a6; a7] = [c0; c1; c2; c3; c4; c5; c6; c7].
Proof.
  rewrite !sum8_value. intros E.
  pose proof (int_range a0). pose proof (int_range a1).
  pose proof (int_range a2). pose proof (int_range a3).
  pose proof (int_range a4). pose proof (int_range a5).
  pose proof (int_range a6). pose proof (int_range a7).
  pose proof (int_range c0). pose proof (int_range c1).
  pose proof (int_range c2). pose proof (int_range c3).
  pose proof (int_range c4). pose proof (int_range c5).
  pose proof (int_range c6). pose proof (int_range c7).
  apply wrap64_inj in E; [|lia|lia].
  assert (E' : (((((((int a0 * 256 + int a1) * 256 + int a2) * 256 + int a3) * 256
                 + int a4) * 256 + int a5) * 256 + int a6) * 256 + int a7)
             = (((((((int c0 * 256 + int c1) * 256 + int c2) * 256 + int c3) * 256
                 + int c4) * 256 + int c5) * 256 + int c6) * 256 + int c7)) by lia.
  clear E.
  apply digit_peel in E'; [|assumption|assumption]. destruct E' as [E' E7].
  apply digit_peel in E'; [|assumption|assumption]. destruct E' as [E' E6].
  apply digit_peel in E'; [|assumption|assumption]. destruct E' as [E' E5].
  apply digit_peel in E'; [|assumption|assumption]. destruct E' as [E' E4].
  apply digit_peel in E'; [|assumption|assumption]. destruct E' as [E' E3].
  apply digit_peel in E'; [|assumption|assumption]. destruct E' as [E' E2].
  apply digit_peel in E'; [|assumption|assumption]. destruct E' as [E0 E1].
  apply int_inj in E0, E1, E2, E3, E4, E5, E6, E7. now subst.
Qed.

Lemma sum8_in_int64 (b0 b1 b2 b3 b4 b5 b6 b7 : byte) :
  in_int64 (sum8 [int b0; int b1; int b2; int b3; int b4; int b5; int b6; int b7]).
Proof. rewrite sum8_value. apply wrap64_range. Qed.

(** The distance of two addresses of 16 bytes that are not both IPv4
    addresses, from the two halves. *)
Lemma distance_v6 (ip1 ip2 : IP) :
  length ip1 = 16%nat -> length ip2 = 16%nat ->
  To4 ip1 = [] \/ To4 ip2 = [] ->
  exists U1 U2 L1 L2,
    GetIntFromIPv6Upper ip1 = Return U1 /\ GetIntFromIPv6Upper ip2 = Return U2 /\
    GetIntFromIPv6Lower ip1 = Return L1 /\ GetIntFromIPv6Lower ip2 = Return L2 /\
    in_int64 U1 /\ in_int64 U2 /\ in_int64 L1 /\ in_int64 L2 /\
    (U1 = U2 <-> take 8 ip1 = take 8 ip2) /\
    distance ip1 ip2 =
      Return (let n := countLoop wrap64 64 (Z.lxor U1 U2) 0 in
              if n =? 64 then add64 64 (countLoop wrap64 64 (Z.lxor L1 L2) 0) else n,
              None).
Proof.
  intros H1 H2 Hv6. list16 ip1 H1. list16 ip2 H2.
  unfold distance.
  match goal with
  | |- context [negb (is_nil (To4 ?a)) && negb (is_nil (To4 ?c))] =>
      assert (Hv : negb (is_nil (To4 a)) && negb (is_nil (To4 c)) = false)
        by (destruct Hv6 as [-> | ->]; [reflexivity|apply andb_false_r]);
      rewrite Hv; clear Hv Hv6;
      change (To16 a) with a; change (To16 c) with c
  end.
  cbn [is_nil negb andb].
  unfold GetIntFromIPv6Upper, GetIntFromIPv6Lower.
  cbn [index_all lookup list_lookup take].
  do 4 eexists.
  split; [reflexivity|]. split; [reflexivity|].
  split; [reflexivity|]. split; [reflexivity|].
  split; [apply sum8_in_int64|]. split; [apply sum8_in_int64|].
  split; [apply sum8_in_int64|]. split; [apply sum8_in_int64|].
  split.
  - split; [apply sum8_inj|]. now intros [= -> -> -> -> -> -> -> ->].
  - cbv zeta. now destruct (_ =? 64).
Qed.

(** X8. For two IPv6 addresses [CalculateIPDistance] returns a number
    [n] from 0 to 128. It is the length of the common prefix as long as
    the addresses differ in their first 64 bits: then the [n] highest
    bits of the two upper halves agree and the next bit differs; and [n]
    is 64 or more exactly when the first eight bytes are the same. *)
Theorem ipv6_distance_upper_half (ip1 ip2 : IP) :
  length ip1 = 16%nat -> length ip2 = 16%nat ->
  To4 ip1 = [] \/ To4 ip2 = [] ->
  exists U1 U2 n,
    GetIntFromIPv6Upper ip1 = Return U1 /\
    GetIntFromIPv6Upper ip2 = Return U2 /\
    distance ip1 ip2 = Return (n, None) /\
    0 <= n <= 128 /\
    (n < 64 ->
     (forall k, 64 - n <= k < 64 -> Z.testbit U1 k = Z.testbit U2 k) /\
     Z.testbit U1 (63 - n) <> Z.testbit U2 (63 - n)) /\
    (64 <= n <-> take 8 ip1 = take 8 ip2).
Proof.
  intros H1 H2 Hv6.
  destruct (distance_v6 ip1 ip2 H1 H2 Hv6)
    as (U1 & U2 & L1 & L2 & E1 & E2 & _ & _ & HU1 & HU2 & HL1 & HL2 & Htake & Hd).
  exists U1, U2. eexists. split; [exact E1|]. split; [exact E2|].
  split; [exact Hd|]. cbv zeta. rewrite <- Htake. clear Hd Htake E1 E2.
  pose proof (lxor_in_int64 U1 U2 HU1 HU2) as HX.
  pose proof (countLoop_64_range _ (lxor_in_int64 L1 L2 HL1 HL2)) as (HrL & _).
  unfold in_int64, min_int64, max_int64 in HX.
  pose proof (countLoop_bits 64 wrap64 (Z.lxor U1 U2) ltac:(lia) wrap64_spec
                ltac:(lia)) as HU.
  cbv zeta in HU. change (Z.to_nat 64) with 64%nat in HU.
  generalize dependent (countLoop wrap64 64 (Z.lxor L1 L2) 0). intros m Hm.
  generalize dependent (countLoop wrap64 64 (Z.lxor U1 U2) 0). intros n Hn.
  destruct Hn as (Hr & Hz & Ho & Heq).
  destruct (Z.eqb_spec n 64) as [En|En].
  - unfold add64. rewrite wrap64_id by (unfold in_int64, min_int64, max_int64; lia).
    split; [lia|]. split; [lia|]. split; [|lia].
    intros _. apply Z.lxor_eq. now apply Heq.
  - split; [lia|]. split.
    + intros Hlt. split.
      * intros k Hk. specialize (Hz k Hk). rewrite Z.lxor_spec in Hz.
        now destruct (Z.testbit U1 k), (Z.testbit U2 k).
      * specialize (Ho ltac:(lia)).
        replace (64 - 1 - n) with (63 - n) in Ho by lia.
        rewrite Z.lxor_spec in Ho.
        now destruct (Z.testbit U1 _), (Z.testbit U2 _).
    + split; [lia|].
      intros ->. rewrite Z.lxor_nilpotent in Heq. exfalso. now apply En, Heq.
Qed.

Lemma ipv6_distance_upper_half_witness :
  let ip1 := [x20; x01; x0d; xb8; x00; x00; x00; x00;
              x00; x00; x00; x00; x00; x00; x00; x01] in
  let ip2 := [x20; x01; x0d; xb8; x00; x01; x00; x00;
              x00; x00; x00; x00; x00; x00; x00; x01] in
  exists U1 U2 n,
    GetIntFromIPv6Upper ip1 = Return U1 /\
    GetIntFromIPv6Upper ip2 = Return U2 /\
    distance ip1 ip2 = Return (n, None) /\
    0 <= n <= 128 /\
    (n < 64 ->
     (forall k, 64 - n <= k < 64 -> Z.testbit U1 k = Z.testbit U2 k) /\
     Z.testbit U1 (63 - n) <> Z.testbit U2 (63 - n)) /\
    (64 <= n <-> take 8 ip1 = take 8 ip2).
Proof.
  intros ip1 ip2. apply (ipv6_distance_upper_half ip1 ip2); [reflexivity|reflexivity|].
  left. reflexivity.
Defined.

Lemma To4_insert_14 (ip : IP) (x : byte) :
  length ip = 16%nat -> To4 ip = [] -> To4 (<[14%nat := x]> ip) = [].
Proof.
  intros H. list16 ip H. unfold To4.
  cbn -[Byte.eqb]. now destruct (_ && _).
Qed.

Lemma halves_insert_14 (ip : IP) (x : byte) :
  length ip = 16%nat ->
  GetIntFromIPv6Upper (<[14%nat := x]> ip) = GetIntFromIPv6Upper ip /\
  GetIntFromIPv6Lower (<[14%nat := x]> ip) = GetIntFromIPv6Lower ip.
Proof. intros H. list16 ip H. split; reflexivity. Qed.

(** X9. The lower half of an IPv6 address is read without its byte 14
    (byte 15 is read twice), so the distance of two IPv6 addresses does
    not depend on byte 14 of either: an address and its copy with any
    other byte 14 are reported as sharing all 128 bits. *)
Theorem ipv6_distance_ignores_byte_14 (ip1 ip2 : IP) (x y : byte) :
  length ip1 = 16%nat -> length ip2 = 16%nat ->
  To4 ip1 = [] \/ To4 ip2 = [] ->
  distance (<[14%nat := x]> ip1) (<[14%nat := y]> ip2) = distance ip1 ip2 /\
  (ip1 = ip2 ->
   distance (<[14%nat := x]> ip1) (<[14%nat := y]> ip2) = Return (128, None)).
Proof.
  intros H1 H2 Hv6.
  assert (Hv6' : To4 (<[14%nat := x]> ip1) = [] \/ To4 (<[14%nat := y]> ip2) = []).
  { destruct Hv6; [left|right]; now apply To4_insert_14. }
  destruct (distance_v6 ip1 ip2 H1 H2 Hv6)
    as (U1 & U2 & L1 & L2 & E1 & E2 & E3 & E4 & HU1 & HU2 & HL1 & HL2 & Htake & Hd).
  assert (H1' : length (<[14%nat := x]> ip1) = 16%nat)
    by (etrans; [apply length_insert|exact H1]).
  assert (H2' : length (<[14%nat := y]> ip2) = 16%nat)
    by (etrans; [apply length_insert|exact H2]).
  destruct (distance_v6 (<[14%nat := x]> ip1) (<[14%nat := y]> ip2) H1' H2' Hv6')
    as (U1' & U2' & L1' & L2' & E1' & E2' & E3' & E4' & _ & _ & _ & _ & _ & Hd').
  destruct (halves_insert_14 ip1 x H1) as [Ea Eb].
  destruct (halves_insert_14 ip2 y H2) as [Ec Ed].
  rewrite Ea, E1 in E1'. rewrite Ec, E2 in E2'.
  rewrite Eb, E3 in E3'. rewrite Ed, E4 in E4'.
  injection E1' as <-. injection E2' as <-. injection E3' as <-. injection E4' as <-.
  rewrite Hd', Hd. split; [reflexivity|].
  intros ->. rewrite E1 in E2. rewrite E3 in E4.
  injection E2 as <-. injection E4 as <-.
  rewrite !Z.lxor_nilpotent. reflexivity.
Qed.

Lemma ipv6_distance_ignores_byte_14_witness :
  let ip := [x20; x01; x0d; xb8; x00; x00; x00; x00;
             x00; x00; x00; x00; x00; x00; x00; x01] in
  distance (<[14%nat := x00]> ip) (<[14%nat := xff]> ip) = distance ip ip /\
  (ip = ip ->
   distance (<[14%nat := x00]> ip) (<[14%nat := xff]> ip) = Return (128, None)).
Proof.
  intros ip.
  apply (ipv6_distance_ignores_byte_14 ip ip x00 xff); [reflexivity|reflexivity|].
  left. reflexivity.
Defined.

End EtlDataSpec.

(** ** Regular expressions: runes and completeness of the search *)

Module RegexpComplete.
Import Regexp StringFacts RegexpSpec EtlData.
Local Open Scope string_scope.
Local Open Scope nat_scope.

Lemma byte_in_Some (lo hi : nat) (b : option ascii) :
  byte_in lo hi b = true ->
  exists a, b = Some a /\ lo <= nat_of_ascii a <= hi.
Proof.
  destruct b as [a|]; [|discriminate]. cbn.
  rewrite andb_true_iff, !Nat.leb_le. eauto.
Qed.

(** The bytes of a rune after its first are continuation bytes: they are
    there, and none of them is an ASCII character. *)
Lemma rune_width_spec (s : string) :
  match rune_width s with
  | 0 => s = ""
  | 1 => exists a s1, s = String a s1
  | 2 => exists a b s2, s = String a (String b s2) /\ 128 <= nat_of_ascii b
  | 3 => exists a b c s3,
           s = String a (String b (String c s3)) /\
           128 <= nat_of_ascii b /\ 128 <= nat_of_ascii c
  | 4 => exists a b c d s4,
           s = String a (String b (String c (String d s4))) /\
           128 <= nat_of_ascii b /\ 128 <= nat_of_ascii c /\ 128 <= nat_of_ascii d
  | _ => False
  end.
Proof.
  unfold rune_width, continuation.
  destruct s as [|a s]; [reflexivity|]. cbn [String.get].
  repeat match goal with
  | |- context [if ?b then _ else _] => destruct b eqn:?
  end; try (eexists _, _; reflexivity);
  repeat match goal with
  | H : _ && _ = true |- _ => apply andb_true_iff in H; destruct H
  | H : byte_in _ _ (String.get _ _) = true |- _ =>
      apply byte_in_Some in H; destruct H as (? & ? & ?)
  end.
  all: destruct s as [|b s]; try discriminate.
  all: cbn [String.get] in *.
  all: try (eexists _, _, _; split; [reflexivity|];
            repeat match goal with H : Some _ = Some _ |- _ => injection H as <- end;
            lia).
  all: destruct s as [|c s]; try discriminate.
  all: cbn [String.get] in *.
  all: try (eexists _, _, _, _; split; [reflexivity|];
            repeat match goal with H : Some _ = Some _ |- _ => injection H as <- end;
            lia).
  all: destruct s as [|d s]; try discriminate.
  all: cbn [String.get] in *.
  all: eexists _, _, _, _, _; split; [reflexivity|];
       repeat match goal with H : Some _ = Some _ |- _ => injection H as <- end;
       lia.
Qed.

Lemma app_cons (a : ascii) (p r : string) : String a p ++ r = String a (p ++ r).
Proof. reflexivity. Qed.

Lemma app_nil (r : string) : "" ++ r = r.
Proof. reflexivity. Qed.

Lemma excludes_any : excludes AnyNotNL "010".
Proof. split; reflexivity. Qed.

Lemma excludes_not_slash : excludes (Not "/") "/".
Proof. split; reflexivity. Qed.

Lemma high_neq (b ex : ascii) :
  128 <= nat_of_ascii b -> is_ascii ex = true -> negb (Ascii.eqb b ex) = true.
Proof.
  unfold is_ascii. rewrite Nat.ltb_lt. intros Hb Hex.
  destruct (Ascii.eqb_spec b ex) as [->|]; [lia|reflexivity].
Qed.

(** A step reads one rune, which does not hold the excluded character. *)
Lemma step_consumes (c : cclass) (ex : ascii) (s s' : string) :
  excludes c ex -> step c s = Some s' ->
  exists p, s = p ++ s' /\ 1 <= String.length p <= 4 /\ without ex p = true.
Proof.
  intros [Hex Hc] H. destruct s as [|a s]; [discriminate|].
  rewrite Hc in H. destruct (Ascii.eqb a ex) eqn:Ea; [discriminate|].
  injection H as <-.
  pose proof (rune_width_spec (String a s)) as Hw.
  destruct (rune_width (String a s)) as [|[|[|[|[|w]]]]]; try contradiction;
    try discriminate.
  - destruct Hw as (a0 & s1 & [= <- <-]). exists (String a "").
    repeat split; [cbn; lia|cbn; lia|]. unfold without. cbn. now rewrite Ea.
  - destruct Hw as (a0 & b & s2 & [= <- ->] & Hb).
    exists (String a (String b "")). repeat split; [cbn; lia|cbn; lia|].
    unfold without. cbn. now rewrite Ea, (high_neq b ex Hb Hex).
  - destruct Hw as (a0 & b & c0 & s3 & [= <- ->] & Hb & Hc0).
    exists (String a (String b (String c0 ""))). repeat split; [cbn; lia|cbn; lia|].
    unfold without. cbn.
    now rewrite Ea, (high_neq b ex Hb Hex), (high_neq c0 ex Hc0 Hex).
  - destruct Hw as (a0 & b & c0 & d & s4 & [= <- ->] & Hb & Hc0 & Hd).
    exists (String a (String b (String c0 (String d "")))).
    repeat split; [cbn; lia|cbn; lia|]. unfold without. cbn.
    now rewrite Ea, (high_neq b ex Hb Hex), (high_neq c0 ex Hc0 Hex),
      (high_neq d ex Hd Hex).
Qed.

Lemma without_app (ex : ascii) (p q : string) :
  without ex (p ++ q) = without ex p && without ex q.
Proof.
  unfold without. induction p as [|a p IH]; [reflexivity|].
  change (String a p ++ q) with (String a (p ++ q)). cbn [all_bytes].
  now rewrite IH, andb_assoc.
Qed.

Lemma not_starts_high (b : ascii) (s : string) :
  128 <= nat_of_ascii b -> starts_ascii (String b s) = true -> False.
Proof. unfold starts_ascii, is_ascii. rewrite Nat.ltb_lt. lia. Qed.

(** A step from inside a text without the excluded character stays inside
    it when an ASCII character (or nothing) follows the text. *)
Lemma step_over (c : cclass) (ex : ascii) (p rest : string) :
  excludes c ex -> p <> "" -> without ex p = true -> starts_ascii rest = true ->
  exists p', step c (p ++ rest) = Some (p' ++ rest) /\
             String.length p' < String.length p /\ without ex p' = true.
Proof.
  intros [Hex Hc] Hne Hp Hrest. destruct p as [|a p]; [contradiction|].
  change (String a p ++ rest) with (String a (p ++ rest)).
  rewrite Hc. unfold without in Hp. cbn [all_bytes] in Hp.
  apply andb_true_iff in Hp. destruct Hp as [Ha Hp].
  apply negb_true_iff in Ha. rewrite Ha.
  pose proof (rune_width_spec (String a (p ++ rest))) as Hw.
  destruct (rune_width (String a (p ++ rest))) as [|[|[|[|[|w]]]]]; try contradiction;
    try discriminate.
  - exists p. cbn. repeat split; [lia|exact Hp].
  - destruct Hw as (a0 & b & s2 & [= <- E] & Hb).
    destruct p as [|b' p]; [rewrite app_nil in E; subst rest; exfalso; exact (not_starts_high b _ Hb Hrest)|].
    cbn [all_bytes] in Hp. apply andb_true_iff in Hp. destruct Hp as [_ Hp].
    exists p. cbn. repeat split; [lia|exact Hp].
  - destruct Hw as (a0 & b & c0 & s3 & [= <- E] & Hb & Hc0).
    destruct p as [|b' p]; [rewrite app_nil in E; subst rest; exfalso; exact (not_starts_high b _ Hb Hrest)|].
    rewrite app_cons in E. injection E as <- E.
    destruct p as [|c' p]; [rewrite app_nil in E; subst rest; exfalso; exact (not_starts_high c0 _ Hc0 Hrest)|].
    cbn [all_bytes] in Hp.
    apply andb_true_iff in Hp. destruct Hp as [_ Hp].
    apply andb_true_iff in Hp. destruct Hp as [_ Hp].
    exists p. cbn. repeat split; [lia|exact Hp].
  - destruct Hw as (a0 & b & c0 & d & s4 & [= <- E] & Hb & Hc0 & Hd).
    destruct p as [|b' p]; [rewrite app_nil in E; subst rest; exfalso; exact (not_starts_high b _ Hb Hrest)|].
    rewrite app_cons in E. injection E as <- E.
    destruct p as [|c' p]; [rewrite app_nil in E; subst rest; exfalso; exact (not_starts_high c0 _ Hc0 Hrest)|].
    rewrite app_cons in E. injection E as <- E.
    destruct p as [|d' p]; [rewrite app_nil in E; subst rest; exfalso; exact (not_starts_high d _ Hd Hrest)|].
    cbn [all_bytes] in Hp.
    apply andb_true_iff in Hp. destruct Hp as [_ Hp].
    apply andb_true_iff in Hp. destruct Hp as [_ Hp].
    apply andb_true_iff in Hp. destruct Hp as [_ Hp].
    exists p. cbn. repeat split; [lia|exact Hp].
Qed.

(** The repetition can read a whole text without the excluded character. *)
Lemma steps_over (c : cclass) (ex : ascii) (rest : string) :
  excludes c ex -> starts_ascii rest = true ->
  forall (n : nat) (p : string),
  String.length p <= n -> without ex p = true -> steps c (p ++ rest) rest.
Proof.
  intros Hc Hrest. induction n as [|n IH]; intros p Hn Hp.
  - destruct p; [constructor|cbn in Hn; lia].
  - destruct (string_dec p "") as [->|Hne]; [constructor|].
    destruct (step_over c ex p rest Hc Hne Hp Hrest) as (p' & Hs & Hl & Hp').
    econstructor; [exact Hs|]. apply IH; [lia|exact Hp'].
Qed.

(** What the repetition read does not hold the excluded character. *)
Lemma steps_without (c : cclass) (ex : ascii) (s s' : string) :
  excludes c ex -> steps c s s' -> exists p, s = p ++ s' /\ without ex p = true.
Proof.
  intros Hc. induction 1 as [s|s s1 s2 Hstep _ (p2 & -> & Hp2)].
  - now exists "".
  - destruct (step_consumes c ex s _ Hc Hstep) as (p1 & -> & _ & Hp1).
    exists (p1 ++ p2). split; [now rewrite append_assoc|].
    now rewrite without_app, Hp1, Hp2.
Qed.

(** Every round of the repetition shortens the text. *)
Lemma step_shorter (c : cclass) (s s' : string) :
  step c s = Some s' -> String.length s' < String.length s.
Proof.
  destruct s as [|a s]; [discriminate|]. cbn [step].
  assert (Hskip : forall n t, 1 <= n -> t <> "" ->
                  String.length (skip n t) < String.length t).
  { clear. intros n t Hn Ht. destruct n as [|n]; [lia|].
    destruct t as [|a t]; [contradiction|]. cbn [skip String.length].
    clear. revert t. induction n as [|n IH]; intros t; [cbn; lia|].
    destruct t as [|b t]; [cbn; lia|]. cbn [skip String.length].
    specialize (IH t). lia. }
  assert (Hw : 1 <= rune_width (String a s)).
  { pose proof (rune_width_spec (String a s)) as Hw.
    destruct (rune_width (String a s)); [discriminate|lia]. }
  destruct c as [|x|rs].
  - destruct (Ascii.eqb a "010"); [discriminate|]. intros [= <-].
    now apply Hskip.
  - destruct (Ascii.eqb a x); [discriminate|]. intros [= <-].
    now apply Hskip.
  - destruct (in_ranges rs a); [|discriminate]. intros [= <-]. cbn. lia.
Qed.

Section Complete.
Context {R : Type}.

Lemma star_complete (c : cclass) (s s' : string) :
  steps c s s' ->
  forall (fuel : nat) (k : string -> option R),
  String.length s <= fuel -> is_Some (k s') -> is_Some (star c fuel s k).
Proof.
  induction 1 as [s|s s1 s2 Hstep _ IH]; intros fuel k Hf Hk.
  - destruct fuel as [|fuel]; [exact Hk|]. cbn [star].
    destruct (step c s) as [s1|]; [|exact Hk].
    destruct (star c fuel s1 k); [eauto|exact Hk].
  - pose proof (step_shorter c s s1 Hstep).
    destruct fuel as [|fuel]; [lia|]. cbn [star]. rewrite Hstep.
    destruct (IH fuel k ltac:(lia) Hk) as [x ->]. eauto.
Qed.

(** Whenever the expression matches at a position, whichever way, the
    backtracking search finds a match there. *)
Lemma rmatch_complete (text : string) (r : regex) :
  forall (s : string) (caps : list string) (s' : string) (caps' : list string)
         (k : string -> list string -> option R),
  matches text r s caps s' caps' -> is_Some (k s' caps') ->
  is_Some (rmatch text r s caps k).
Proof.
  induction r as [| | |c|r1 IH1 r2 IH2|r1 IH1 r2 IH2|c|i r IH];
    intros s caps s' caps' k H Hk; cbn [rmatch]; cbn [matches] in H.
  - destruct H as [-> ->]. exact Hk.
  - destruct H as (Hl & -> & ->). now rewrite Hl, Nat.eqb_refl.
  - destruct H as (-> & -> & ->). exact Hk.
  - destruct H as [-> ->]. exact Hk.
  - destruct H as (s1 & caps1 & H1 & H2).
    eapply IH1; [exact H1|]. eapply IH2; [exact H2|exact Hk].
  - destruct (rmatch text r1 s caps k) eqn:E; [eauto|].
    destruct H as [H|H]; [|eapply IH2; eassumption].
    assert (Hs : is_Some (rmatch text r1 s caps k)) by (eapply IH1; eassumption).
    rewrite E in Hs. now destruct Hs.
  - destruct H as [H ->]. eapply star_complete; [exact H|lia|exact Hk].
  - destruct H as (caps1 & H & ->). eapply IH; [exact H|exact Hk].
Qed.

End Complete.

Lemma skip_over (p rest : string) :
  p <> "" -> starts_ascii rest = true ->
  exists p', skip (rune_width (p ++ rest)) (p ++ rest) = p' ++ rest /\
             String.length p' < String.length p.
Proof.
  intros Hne Hrest.
  pose proof (rune_width_spec (p ++ rest)) as Hw.
  destruct p as [|a p]; [contradiction|].
  change (String a p ++ rest) with (String a (p ++ rest)) in *.
  destruct (rune_width (String a (p ++ rest))) as [|[|[|[|[|w]]]]]; try contradiction;
    try discriminate.
  - exists p. cbn. split; [reflexivity|lia].
  - destruct Hw as (a0 & b & s2 & [= <- E] & Hb).
    destruct p as [|b' p]; [rewrite app_nil in E; subst rest; exfalso; exact (not_starts_high b _ Hb Hrest)|].
    exists p. cbn. split; [reflexivity|lia].
  - destruct Hw as (a0 & b & c0 & s3 & [= <- E] & Hb & Hc0).
    destruct p as [|b' p]; [rewrite app_nil in E; subst rest; exfalso; exact (not_starts_high b _ Hb Hrest)|].
    rewrite app_cons in E. injection E as <- E.
    destruct p as [|c' p]; [rewrite app_nil in E; subst rest; exfalso; exact (not_starts_high c0 _ Hc0 Hrest)|].
    exists p. cbn. split; [reflexivity|lia].
  - destruct Hw as (a0 & b & c0 & d & s4 & [= <- E] & Hb & Hc0 & Hd).
    destruct p as [|b' p]; [rewrite app_nil in E; subst rest; exfalso; exact (not_starts_high b _ Hb Hrest)|].
    rewrite app_cons in E. injection E as <- E.
    destruct p as [|c' p]; [rewrite app_nil in E; subst rest; exfalso; exact (not_starts_high c0 _ Hc0 Hrest)|].
    rewrite app_cons in E. injection E as <- E.
    destruct p as [|d' p]; [rewrite app_nil in E; subst rest; exfalso; exact (not_starts_high d _ Hd Hrest)|].
    exists p. cbn. split; [reflexivity|lia].
Qed.

(** The search reaches every position that an ASCII character starts:
    when the expression matches there, the search finds a match (there or
    further left). *)
Lemma search_complete (re : Regexp) (text : string) (rest s' : string)
    (caps : list string) :
  starts_ascii rest = true ->
  matches text (Group 0 (syntax re)) rest (repeat EmptyString (S (groups re))) s' caps ->
  forall (n : nat) (p : string) (fuel : nat),
  String.length p <= n -> n <= fuel ->
  is_Some (search re text fuel (p ++ rest)).
Proof.
  intros Hrest Hm. induction n as [|n IH]; intros p fuel Hp Hf.
  - destruct p; [|cbn in Hp; lia]. change ("" ++ rest) with rest.
    assert (Hs : is_Some (rmatch text (Group 0 (syntax re)) rest
                            (repeat EmptyString (S (groups re)))
                            (fun _ caps0 => Some caps0)))
      by (eapply rmatch_complete; [exact Hm|eauto]).
    destruct Hs as [x Hx]. destruct fuel; cbn [search]; rewrite Hx; eauto.
  - destruct (string_dec p "") as [->|Hne]; [apply (IH "" fuel); cbn; lia|].
    destruct fuel as [|fuel]; [lia|]. cbn [search].
    destruct (rmatch _ _ _ _ _); [eauto|].
    destruct p as [|a p]; [contradiction|].
    change (String a p ++ rest) with (String a (p ++ rest)).
    destruct (skip_over (String a p) rest Hne Hrest) as (p' & E & Hl).
    change (String a p ++ rest) with (String a (p ++ rest)) in E.
    rewrite E. apply IH; cbn in *; lia.
Qed.

(** The match that the search returns is the leftmost: the expression
    matches at no earlier position that an ASCII character starts. *)
Lemma search_leftmost (re : Regexp) (text : string) (fuel : nat) :
  forall (s : string) (caps : list string),
  search re text fuel s = Some caps ->
  exists p s0 s',
    s = p ++ s0 /\
    matches text (Group 0 (syntax re)) s0
            (repeat EmptyString (S (groups re))) s' caps /\
    forall (p1 s1 s1' : string) (caps1 : list string),
      s = p1 ++ s1 -> String.length p1 < String.length p ->
      starts_ascii s1 = true ->
      ~ matches text (Group 0 (syntax re)) s1
                (repeat EmptyString (S (groups re))) s1' caps1.
Proof.
  assert (Hfail : forall s s1' caps1,
    rmatch text (Group 0 (syntax re)) s (repeat EmptyString (S (groups re)))
           (fun _ caps0 => Some caps0) = None ->
    ~ matches text (Group 0 (syntax re)) s
              (repeat EmptyString (S (groups re))) s1' caps1).
  { intros s s1' caps1 E Hm.
    assert (Hs : is_Some (rmatch text (Group 0 (syntax re)) s
                            (repeat EmptyString (S (groups re)))
                            (fun _ caps0 => Some caps0)))
      by (eapply rmatch_complete; [exact Hm|eauto]).
    rewrite E in Hs. now destruct Hs. }
  assert (Hhere : forall s caps,
    rmatch text (Group 0 (syntax re)) s (repeat EmptyString (S (groups re)))
           (fun _ caps0 => Some caps0) = Some caps ->
    exists p s0 s',
      s = p ++ s0 /\
      matches text (Group 0 (syntax re)) s0
              (repeat EmptyString (S (groups re))) s' caps /\
      forall (p1 s1 s1' : string) (caps1 : list string),
        s = p1 ++ s1 -> String.length p1 < String.length p ->
        starts_ascii s1 = true ->
        ~ matches text (Group 0 (syntax re)) s1
                  (repeat EmptyString (S (groups re))) s1' caps1).
  { intros s caps E. apply rmatch_sound in E.
    destruct E as (s' & caps' & Hm & [= ->]). exists "", s, s'.
    split; [reflexivity|]. split; [exact Hm|]. cbn. intros; lia. }
  induction fuel as [|fuel IH]; intros s caps H; cbn [search] in H.
  - destruct (rmatch _ _ _ _ _) as [caps0|] eqn:E; [|discriminate].
    injection H as ->. now apply Hhere.
  - destruct (rmatch _ _ _ _ _) as [caps0|] eqn:E.
    + injection H as ->. now apply Hhere.
    + destruct s as [|a s]; [discriminate|].
      destruct (IH _ _ H) as (p & s0 & s' & Hp & Hm & Hleft).
      destruct (skip_suffix (rune_width (String a s)) (String a s)) as [q Hq].
      exists (q ++ p), s0, s'. split; [rewrite append_assoc, <- Hp; exact Hq|].
      split; [exact Hm|].
      intros p1 s1 s1' caps1 Hs Hlen Hascii.
      destruct (string_dec p1 "") as [->|Hne].
      { rewrite app_nil in Hs. rewrite <- Hs. now apply Hfail. }
      destruct (skip_over p1 s1 Hne Hascii) as (p' & Hskip & Hl').
      rewrite <- Hs in Hskip.
      apply (Hleft p' s1 s1' caps1 Hskip); [|exact Hascii].
      apply (f_equal String.length) in Hq, Hs, Hskip, Hp.
      rewrite !length_append in *. lia.
Qed.

(** *** Building a match *)

Section Intro.
Variable text : string.

Lemma matches_empty s caps : matches text Empty s caps s caps.
Proof. now split. Qed.

Lemma matches_bol caps : matches text Bol text caps text caps.
Proof. now repeat split. Qed.

Lemma matches_eol caps : matches text Eol "" caps "" caps.
Proof. now repeat split. Qed.

Lemma matches_class c s caps s' :
  step c s = Some s' -> matches text (Class c) s caps s' caps.
Proof. now split. Qed.

Lemma matches_cat r1 r2 s caps s1 caps1 s' caps' :
  matches text r1 s caps s1 caps1 -> matches text r2 s1 caps1 s' caps' ->
  matches text (Cat r1 r2) s caps s' caps'.
Proof. intros H1 H2. now exists s1, caps1. Qed.

Lemma matches_alt_l r1 r2 s caps s' caps' :
  matches text r1 s caps s' caps' -> matches text (Alt r1 r2) s caps s' caps'.
Proof. now left. Qed.

Lemma matches_alt_r r1 r2 s caps s' caps' :
  matches text r2 s caps s' caps' -> matches text (Alt r1 r2) s caps s' caps'.
Proof. now right. Qed.

Lemma matches_star c s caps s' :
  steps c s s' -> matches text (Star c) s caps s' caps.
Proof. now split. Qed.

Lemma matches_group i r s caps s' caps1 :
  matches text r s caps s' caps1 ->
  matches text (Group i r) s caps s' (<[i := consumed s s']> caps1).
Proof. intros H. now exists caps1. Qed.

End Intro.

End RegexpComplete.

(** ** Package etl: the shape of the accepted paths *)

Module EtlPathSpec.
Import Regexp Etl StringFacts RegexpSpec EtlSpec EtlData RegexpComplete.
Local Open Scope string_scope.
Local Open Scope nat_scope.

Local Ltac break_matches :=
  repeat match goal with
  | H : _ /\ _ |- _ => destruct H
  | H : exists _, _ |- _ => destruct H
  | H : step (Ranges [(?c, ?c)]) _ = Some _ |- _ => apply step_char in H
  | H : step (Ranges _) _ = Some _ |- _ =>
      apply step_ranges in H; destruct H as (? & ? & ?)
  end.

Local Ltac prefix_of x s :=
  lazymatch x with
  | s => constr:(EmptyString)
  | String ?a ?x' => let p := prefix_of x' s in constr:(String a p)
  | String.append ?p0 s => constr:(p0)
  end.

Local Ltac simp_consumed :=
  repeat match goal with
  | |- context [consumed ?x ?s] =>
      let p := prefix_of x s in
      replace (consumed x s) with p by (symmetry; apply (consumed_app p s))
  end.

(** The suffix has no group, ends the text, and reads one of the three
    extensions, the dot before "gz" standing for any one rune. *)
Lemma suffix_match (text s : string) (caps : list string) (s' : string)
    (caps' : list string) :
  matches text suffix s caps s' caps' ->
  caps' = caps /\ s' = "" /\
  (s = ".tar" \/ s = ".tgz" \/
   exists mid, s = ".tar" ++ mid ++ "gz" /\
               1 <= String.length mid <= 4 /\ without "010" mid = true).
Proof.
  unfold suffix. cbn [matches cat lit char].
  intros (s1 & caps1 & [H|[H|H]] & H'); break_matches; subst.
  - auto.
  - match goal with
    | H : step AnyNotNL _ = Some _ |- _ =>
        destruct (step_consumes _ _ _ _ excludes_any H) as (mid & -> & Hl & Hw)
    end.
    repeat split. right. right. exists mid. repeat split; tauto || lia.
  - auto.
Qed.

(** X3. Every path accepted by [ValidateTestPath] is put together from
    the fields of the returned DataPath, each of the documented shape:
    gs://<prefix>/<exp>/<date path>/<packed date>T<6 digits>Z-<host>-<pod>-
    <experiment>-<file number><extension>, with a host mlabN, a pod of
    three letters, a digit and a digit or t, a file number of four digits,
    an experiment directory without a slash, no line break before the
    file number, and the extension .tar, .tgz or .tar, any one character
    and gz. *)
Theorem validate_test_path_parts (u : string) (dp : DataPath) :
  ValidateTestPath u = inr dp ->
  exists prefix hhmmss ext,
    u = "gs://" ++ prefix ++ "/" ++ Exp1 dp ++ "/" ++ DatePath dp ++ "/" ++
        PackedDate dp ++ "T" ++ hhmmss ++ "Z-" ++ Host dp ++ "-" ++ Pod dp ++ "-" ++
        Experiment dp ++ "-" ++ FileNumber dp ++ ext /\
    without "010" prefix = true /\ without "/" (Exp1 dp) = true /\
    is_date_path (DatePath dp) = true /\ is_packed_date (PackedDate dp) = true /\
    digits 6 hhmmss = true /\ is_host (Host dp) = true /\ is_pod (Pod dp) = true /\
    without "010" (Experiment dp) = true /\ digits 4 (FileNumber dp) = true /\
    (ext = ".tar" \/ ext = ".tgz" \/
     exists mid, ext = ".tar" ++ mid ++ "gz" /\
                 1 <= String.length mid <= 4 /\ without "010" mid = true).
Proof.
  unfold ValidateTestPath.
  destruct (FindStringSubmatch TaskPattern u) as [fields|] eqn:E.
  2:{ repeat (destruct (negb _); try discriminate). }
  intros [= <-]. apply task_pattern_match in E. destruct E as [s' Hm].
  cbn [matches syntax TaskPattern cat start datePath dateTime mlabN_podNN
       exp_NNNN yyyy_mm_dd times lit char] in Hm.
  unfold digit, alpha in Hm. break_matches. subst.
  match goal with
  | H : matches _ suffix _ _ _ _ |- _ =>
      apply suffix_match in H; destruct H as (-> & -> & Hext)
  end.
  repeat match goal with
  | H : steps (Not "/") ?t _ |- _ =>
      destruct (steps_without _ _ _ _ excludes_not_slash H) as (? & ? & ?);
      clear H; subst t
  | H : steps AnyNotNL ?t _ |- _ =>
      destruct (steps_without _ _ _ _ excludes_any H) as (? & ? & ?);
      clear H; subst t
  end.
  cbn [Exp1 DatePath PackedDate Host Pod Experiment FileNumber
       nth insert list_insert repeat].
  simp_consumed.
  match goal with
  | |- context [String "T" (String ?a (String ?b (String ?c (String ?d
                  (String ?e (String ?f (String "Z" _)))))))] =>
      eexists _, (String a (String b (String c (String d (String e (String f "")))))), _
  end.
  split; [reflexivity|].
  unfold digits, is_host, is_pod, is_alpha, is_digit.
  cbn [is_date_path is_packed_date all_bytes String.length Nat.eqb].
  unfold is_digit.
  repeat match goal with H : in_ranges _ _ = true |- _ => rewrite H; clear H end.
  repeat split; try assumption.
Qed.

Lemma validate_test_path_parts_witness :
  let u := "gs://m-lab-sandbox/ndt/2016/07/14/20160714T123456Z-mlab1-lax04-ndt-0001.tar.gz" in
  let dp := mkDataPath "ndt" "2016/07/14" "20160714" "mlab1" "lax04" "ndt" "0001" in
  exists prefix hhmmss ext,
    u = "gs://" ++ prefix ++ "/" ++ Exp1 dp ++ "/" ++ DatePath dp ++ "/" ++
        PackedDate dp ++ "T" ++ hhmmss ++ "Z-" ++ Host dp ++ "-" ++ Pod dp ++ "-" ++
        Experiment dp ++ "-" ++ FileNumber dp ++ ext /\
    without "010" prefix = true /\ without "/" (Exp1 dp) = true /\
    is_date_path (DatePath dp) = true /\ is_packed_date (PackedDate dp) = true /\
    digits 6 hhmmss = true /\ is_host (Host dp) = true /\ is_pod (Pod dp) = true /\
    without "010" (Experiment dp) = true /\ digits 4 (FileNumber dp) = true /\
    (ext = ".tar" \/ ext = ".tgz" \/
     exists mid, ext = ".tar" ++ mid ++ "gz" /\
                 1 <= String.length mid <= 4 /\ without "010" mid = true).
Proof.
  intros u dp. apply (validate_test_path_parts u dp). vm_compute. reflexivity.
Defined.

(** *** Every name of the documented shape is accepted *)

Lemma is_packed_date_inv (s : string) :
  is_packed_date s = true ->
  exists y1 y2 y3 y4 m1 m2 d1 d2,
    s = String y1 (String y2 (String y3 (String y4
          (String m1 (String m2 (String d1 (String d2 ""))))))) /\
    in_ranges [("0", "9")]%char y1 = true /\ in_ranges [("0", "9")]%char y2 = true /\
    in_ranges [("0", "9")]%char y3 = true /\ in_ranges [("0", "9")]%char y4 = true /\
    in_ranges [("0", "1")]%char m1 = true /\ in_ranges [("0", "9")]%char m2 = true /\
    in_ranges [("0", "3")]%char d1 = true /\ in_ranges [("0", "9")]%char d2 = true.
Proof.
  destruct s as [|y1 [|y2 [|y3 [|y4 [|m1 [|m2 [|d1 [|d2 [|? ?]]]]]]]]];
    try discriminate.
  cbn [is_packed_date]. unfold is_digit. rewrite !andb_true_iff.
  intros H. do 8 eexists. split; [reflexivity|]. tauto.
Qed.

Lemma is_date_path_inv (s : string) :
  is_date_path s = true ->
  exists y1 y2 y3 y4 m1 m2 d1 d2,
    s = String y1 (String y2 (String y3 (String y4 (String "/"
          (String m1 (String m2 (String "/" (String d1 (String d2 ""))))))))) /\
    in_ranges [("0", "9")]%char y1 = true /\ in_ranges [("0", "9")]%char y2 = true /\
    in_ranges [("0", "9")]%char y3 = true /\ in_ranges [("0", "9")]%char y4 = true /\
    in_ranges [("0", "1")]%char m1 = true /\ in_ranges [("0", "9")]%char m2 = true /\
    in_ranges [("0", "3")]%char d1 = true /\ in_ranges [("0", "9")]%char d2 = true.
Proof.
  destruct s as [|y1 [|y2 [|y3 [|y4 [|s1 s]]]]]; try discriminate. intros H.
  destruct s1 as [[] [] [] [] [] [] [] []]; try discriminate H.
  destruct s as [|m1 [|m2 [|s2 s]]]; try discriminate H.
  destruct s2 as [[] [] [] [] [] [] [] []]; try discriminate H.
  destruct s as [|d1 [|d2 [|? ?]]]; try discriminate H.
  cbn [is_date_path] in H.
  destruct (is_packed_date_inv _ H)
    as (? & ? & ? & ? & ? & ? & ? & ? & [= <- <- <- <- <- <- <- <-] & Hr).
  do 8 eexists. split; [reflexivity|exact Hr].
Qed.

Lemma digits_6_inv (s : string) :
  digits 6 s = true ->
  exists a b c d e f,
    s = String a (String b (String c (String d (String e (String f ""))))) /\
    in_ranges [("0", "9")]%char a = true /\ in_ranges [("0", "9")]%char b = true /\
    in_ranges [("0", "9")]%char c = true /\ in_ranges [("0", "9")]%char d = true /\
    in_ranges [("0", "9")]%char e = true /\ in_ranges [("0", "9")]%char f = true.
Proof.
  unfold digits.
  destruct s as [|a [|b [|c [|d [|e [|f [|? ?]]]]]]]; try discriminate.
  cbn [String.length Nat.eqb all_bytes andb]. unfold is_digit.
  rewrite !andb_true_iff. intros H. do 6 eexists. split; [reflexivity|]. tauto.
Qed.

Lemma digits_4_inv (s : string) :
  digits 4 s = true ->
  exists a b c d,
    s = String a (String b (String c (String d ""))) /\
    in_ranges [("0", "9")]%char a = true /\ in_ranges [("0", "9")]%char b = true /\
    in_ranges [("0", "9")]%char c = true /\ in_ranges [("0", "9")]%char d = true.
Proof.
  unfold digits.
  destruct s as [|a [|b [|c [|d [|? ?]]]]]; try discriminate.
  cbn [String.length Nat.eqb all_bytes andb]. unfold is_digit.
  rewrite !andb_true_iff. intros H. do 4 eexists. split; [reflexivity|]. tauto.
Qed.

Lemma is_host_inv (s : string) :
  is_host s = true ->
  exists d, s = String "m" (String "l" (String "a" (String "b" (String d "")))) /\
            in_ranges [("0", "9")]%char d = true.
Proof.
  destruct s as [|c1 s]; try discriminate. intros H.
  destruct c1 as [[] [] [] [] [] [] [] []]; try discriminate H.
  destruct s as [|c2 s]; try discriminate H.
  destruct c2 as [[] [] [] [] [] [] [] []]; try discriminate H.
  destruct s as [|c3 s]; try discriminate H.
  destruct c3 as [[] [] [] [] [] [] [] []]; try discriminate H.
  destruct s as [|c4 s]; try discriminate H.
  destruct c4 as [[] [] [] [] [] [] [] []]; try discriminate H.
  destruct s as [|d [|? ?]]; try discriminate H.
  exists d. split; [reflexivity|exact H].
Qed.

Lemma is_pod_inv (s : string) :
  is_pod s = true ->
  exists a b c d e,
    s = String a (String b (String c (String d (String e "")))) /\
    in_ranges [("A", "Z"); ("a", "z")]%char a = true /\
    in_ranges [("A", "Z"); ("a", "z")]%char b = true /\
    in_ranges [("A", "Z"); ("a", "z")]%char c = true /\
    in_ranges [("0", "9")]%char d = true /\
    in_ranges [("0", "9"); ("t", "t")]%char e = true.
Proof.
  destruct s as [|a [|b [|c [|d [|e [|? ?]]]]]]; try discriminate.
  cbn [is_pod]. unfold is_alpha, is_digit. rewrite !andb_true_iff.
  intros H. do 5 eexists. split; [reflexivity|]. tauto.
Qed.

Lemma step_in_range (rs : list (ascii * ascii)) (a : ascii) (s : string) :
  in_ranges rs a = true -> step (Ranges rs) (String a s) = Some s.
Proof. intros H. cbn [step]. now rewrite H. Qed.

(** Builds the match of an expression along a text written out
    character by character. *)
Local Ltac build_match :=
  lazymatch goal with
  | |- matches _ (Cat _ _) _ _ _ _ => eapply matches_cat; [build_match|build_match]
  | |- matches _ Empty _ _ _ _ => apply matches_empty
  | |- matches _ Bol _ _ _ _ => apply matches_bol
  | |- matches _ Eol _ _ _ _ => apply matches_eol
  | |- matches _ (Group _ _) _ _ _ _ => eapply matches_group; build_match
  | |- matches _ (Class (Ranges _)) _ _ _ _ =>
      apply matches_class; apply step_in_range; (assumption || reflexivity)
  | |- matches _ (Star AnyNotNL) _ _ _ _ =>
      apply matches_star;
      eapply (steps_over _ _ _ excludes_any); [reflexivity|apply le_n|assumption]
  | |- matches _ (Star (Not "/"%char)) _ _ _ _ =>
      apply matches_star;
      eapply (steps_over _ _ _ excludes_not_slash); [reflexivity|apply le_n|assumption]
  end.

Local Ltac normal_text := repeat (rewrite app_cons || rewrite app_nil).

(** X4. [ValidateTestPath] accepts every path of the documented shape:
    gs://, any prefix without a line break, an experiment directory
    without a slash, a date path YYYY/MM/DD, and a file name made of a
    packed date, T, six digits, Z, -mlabN-, a pod, an experiment name
    without a line break, a file number of four digits and one of the
    extensions .tar, .tgz and .tar.gz. *)
Theorem validate_test_path_accepts
    (prefix exp dpath pdate hhmmss host pod experiment num ext : string) :
  without "010" prefix = true -> without "/" exp = true ->
  is_date_path dpath = true -> is_packed_date pdate = true ->
  digits 6 hhmmss = true -> is_host host = true -> is_pod pod = true ->
  without "010" experiment = true -> digits 4 num = true -> is_ext ext = true ->
  exists dp,
    ValidateTestPath
      ("gs://" ++ prefix ++ "/" ++ exp ++ "/" ++ dpath ++ "/" ++ pdate ++ "T" ++
       hhmmss ++ "Z-" ++ host ++ "-" ++ pod ++ "-" ++ experiment ++ "-" ++ num ++ ext)
    = inr dp.
Proof.
  intros Hprefix Hexp Hdpath Hpdate Htime Hhost Hpod Hexperiment Hnum Hext.
  apply is_date_path_inv in Hdpath. apply is_packed_date_inv in Hpdate.
  apply digits_6_inv in Htime. apply is_host_inv in Hhost.
  apply is_pod_inv in Hpod. apply digits_4_inv in Hnum.
  repeat match goal with
  | H : exists _, _ |- _ => destruct H
  | H : _ /\ _ |- _ => destruct H
  end.
  subst dpath pdate hhmmss host pod num.
  set (u := "gs://" ++ _).
  assert (Hm : exists s' caps,
             matches u (Group 0 (syntax TaskPattern)) u (repeat "" 9) s' caps).
  { unfold is_ext in Hext. rewrite !orb_true_iff, !String.eqb_eq in Hext.
    unfold u. normal_text.
    cbn [syntax TaskPattern cat start datePath dateTime mlabN_podNN exp_NNNN suffix
         yyyy_mm_dd times lit char digit alpha].
    unfold char, digit, alpha.
    destruct Hext as [[-> | ->] | ->]; normal_text; do 2 eexists;
      eapply matches_group;
      do 5 (eapply matches_cat; [build_match|]);
      (eapply matches_cat; [|apply matches_empty]);
      (eapply matches_cat; [|eapply matches_cat; [apply matches_eol|apply matches_empty]]).
    - apply matches_alt_l. build_match.
    - apply matches_alt_r, matches_alt_r. build_match.
    - apply matches_alt_r, matches_alt_l.
      eapply matches_cat; [build_match|].
      eapply matches_cat; [apply matches_class; reflexivity|].
      eapply matches_cat; [build_match|apply matches_empty]. }
  destruct Hm as (s' & caps & Hm).
  assert (Hs : is_Some (FindStringSubmatch TaskPattern u)).
  { unfold FindStringSubmatch.
    apply (search_complete TaskPattern u u s' caps eq_refl Hm 0 "" (String.length u));
      cbn; lia. }
  destruct Hs as [fields Hf]. unfold ValidateTestPath. rewrite Hf. eauto.
Qed.

Lemma validate_test_path_accepts_witness :
  exists dp,
    ValidateTestPath
      ("gs://" ++ "m-lab-sandbox" ++ "/" ++ "ndt" ++ "/" ++ "2016/01/26" ++ "/" ++
       "20160126" ++ "T" ++ "000000" ++ "Z-" ++ "mlab1" ++ "-" ++ "prg01" ++ "-" ++
       "ndt" ++ "-" ++ "0007" ++ ".tgz")
    = inr dp.
Proof.
  apply (validate_test_path_accepts "m-lab-sandbox" "ndt" "2016/01/26" "20160126"
           "000000" "mlab1" "prg01" "ndt" "0007" ".tgz"); reflexivity.
Defined.

(** *** GetMetroName *)

Lemma pod_build (text p host pod q : string) :
  is_host host = true -> is_pod pod = true ->
  exists s' caps,
    matches text (Group 0 (syntax podPattern))
            ("-" ++ host ++ "-" ++ pod ++ "-" ++ q) (repeat "" 3) s' caps.
Proof.
  intros Hhost Hpod. apply is_host_inv in Hhost. apply is_pod_inv in Hpod.
  repeat match goal with
  | H : exists _, _ |- _ => destruct H
  | H : _ /\ _ |- _ => destruct H
  end.
  subst host pod. normal_text.
  cbn [syntax podPattern cat mlabN_podNN times lit]. unfold char, digit, alpha.
  do 2 eexists. eapply matches_group. build_match.
Qed.

Lemma pod_sound (raw_fn : string) (caps : list string) :
  FindStringSubmatch podPattern raw_fn = Some caps ->
  exists p host pod q,
    is_host host = true /\ is_pod pod = true /\
    raw_fn = p ++ "-" ++ host ++ "-" ++ pod ++ "-" ++ q /\
    nth 0 caps "" = "-" ++ host ++ "-" ++ pod ++ "-" /\
    forall p' host' pod' q',
      is_host host' = true -> is_pod pod' = true ->
      raw_fn = p' ++ "-" ++ host' ++ "-" ++ pod' ++ "-" ++ q' ->
      String.length p <= String.length p'.
Proof.
  intros H. unfold FindStringSubmatch in H.
  apply search_leftmost in H. destruct H as (p & s0 & s' & -> & Hm & Hleft).
  cbn [matches syntax podPattern cat mlabN_podNN times lit char] in Hm.
  unfold digit, alpha in Hm. break_matches. subst.
  cbn [nth insert list_insert repeat]. simp_consumed.
  match goal with
  | |- context [String "b" (String ?d (String "-" (String ?a (String ?b
                  (String ?c (String ?e (String ?f (String "-" ?q))))))))] =>
      exists p, (String "m" (String "l" (String "a" (String "b" (String d ""))))),
             (String a (String b (String c (String e (String f ""))))), q
  end.
  unfold is_host, is_pod, is_alpha, is_digit.
  repeat match goal with H : in_ranges _ _ = true |- _ => rewrite H end.
  split; [reflexivity|]. split; [reflexivity|]. split; [reflexivity|].
  split; [reflexivity|].
  intros p' host' pod' q' Hhost' Hpod' E.
  destruct (Nat.le_gt_cases (String.length p) (String.length p')) as [Hle|Hgt];
    [exact Hle|exfalso].
  match type of Hleft with
  | context [matches ?text _ _ _ _ _] =>
      destruct (pod_build text p' host' pod' q' Hhost' Hpod') as (s1' & caps1 & Hm1)
  end.
  exact (Hleft p' _ s1' caps1 E Hgt eq_refl Hm1).
Qed.

Lemma pod_complete (p host pod q : string) :
  is_host host = true -> is_pod pod = true ->
  is_Some (FindStringSubmatch podPattern (p ++ "-" ++ host ++ "-" ++ pod ++ "-" ++ q)).
Proof.
  intros Hhost Hpod. apply is_host_inv in Hhost. apply is_pod_inv in Hpod.
  repeat match goal with
  | H : exists _, _ |- _ => destruct H
  | H : _ /\ _ |- _ => destruct H
  end.
  subst host pod. unfold FindStringSubmatch.
  set (rest := "-" ++ _). set (u := p ++ rest).
  assert (Hm : exists s' caps,
             matches u (Group 0 (syntax podPattern)) rest (repeat "" 3) s' caps).
  { unfold rest. normal_text.
    cbn [syntax podPattern cat mlabN_podNN times lit]. unfold char, digit, alpha.
    do 2 eexists. eapply matches_group. build_match. }
  destruct Hm as (s' & caps & Hm).
  apply (search_complete podPattern u rest s' caps eq_refl Hm (String.length p) p);
    [lia|]. unfold u. rewrite length_append. lia.
Qed.

(** X5. [GetMetroName] returns the first three letters of the pod of the
    first part -mlabN-podNN- of the file name (no such part starts
    further left), a result of three bytes, and the empty string exactly
    when the name has no such part; its slice of the match is always in
    range. *)
Theorem get_metro_name_spec (raw_fn : string) :
  let occurs :=
    exists p host pod q,
      is_host host = true /\ is_pod pod = true /\
      raw_fn = p ++ "-" ++ host ++ "-" ++ pod ++ "-" ++ q in
  (~ occurs -> GetMetroName raw_fn = "") /\
  (occurs ->
   exists p host pod q,
     is_host host = true /\ is_pod pod = true /\
     raw_fn = p ++ "-" ++ host ++ "-" ++ pod ++ "-" ++ q /\
     (forall p' host' pod' q',
        is_host host' = true -> is_pod pod' = true ->
        raw_fn = p' ++ "-" ++ host' ++ "-" ++ pod' ++ "-" ++ q' ->
        String.length p <= String.length p') /\
     GetMetroName raw_fn = substring 0 3 pod /\
     String.length (GetMetroName raw_fn) = 3).
Proof.
  cbv zeta. unfold GetMetroName, FindString.
  destruct (FindStringSubmatch podPattern raw_fn) as [caps|] eqn:E.
  - destruct (pod_sound _ _ E)
      as (p & host & pod & q & Hhost & Hpod & Hraw & Hcap & Hleft).
    split; [intros Hno; exfalso; apply Hno; eauto 10|].
    intros _. exists p, host, pod, q.
    split; [exact Hhost|]. split; [exact Hpod|]. split; [exact Hraw|].
    split; [exact Hleft|].
    rewrite Hcap. apply is_host_inv in Hhost. apply is_pod_inv in Hpod.
    repeat match goal with
    | H : exists _, _ |- _ => destruct H
    | H : _ /\ _ |- _ => destruct H
    end; subst host pod; split; reflexivity.
  - split; [reflexivity|].
    intros (p & host & pod & q & Hhost & Hpod & ->).
    pose proof (pod_complete p host pod q Hhost Hpod) as Hs.
    rewrite E in Hs. now destruct Hs.
Qed.

(** Of two pods in a name, the first is chosen. *)
Example get_metro_name_first :
  GetMetroName "x-mlab1-acc02-mlab2-lga03-y" = "acc".
Proof. vm_compute. reflexivity. Qed.

(** The file name of the package's test. *)
Example get_metro_name_test :
  GetMetroName "20170501T000000Z-mlab1-acc02-paris-traceroute-0000.tgz" = "acc".
Proof. vm_compute. reflexivity. Qed.

End EtlPathSpec.

(** ** Go strings: suffixes and splitting *)

Module GoStringsFacts.
Import GoStrings StringFacts EtlData RegexpComplete StorageSource.
Local Open Scope string_scope.
Local Open Scope nat_scope.

Lemma substring_skip (p s : string) (k m : nat) :
  substring (String.length p + k) m (p ++ s) = substring k m s.
Proof.
  induction p as [|c p IH]; [reflexivity|].
  rewrite app_cons. cbn [String.length Nat.add substring]. exact IH.
Qed.

Lemma substring_all (s : string) : substring 0 (String.length s) s = s.
Proof. induction s as [|c s IH]; [reflexivity|]. cbn. now rewrite IH. Qed.

Lemma substring_split (s : string) : forall k : nat,
  k <= String.length s ->
  s = substring 0 k s ++ substring k (String.length s - k) s.
Proof.
  induction s as [|c s IH]; intros k Hk.
  - cbn in Hk. replace k with 0 by lia. reflexivity.
  - destruct k as [|k].
    + rewrite Nat.sub_0_r, substring_all. reflexivity.
    + cbn [String.length] in *. cbn [substring Nat.sub]. rewrite app_cons.
      f_equal. apply IH. lia.
Qed.

Lemma substring_length_le (s : string) : forall k m : nat,
  k + m <= String.length s -> String.length (substring k m s) = m.
Proof.
  induction s as [|c s IH]; intros k m H; cbn [String.length] in H.
  - replace k with 0 by lia. replace m with 0 by lia. reflexivity.
  - destruct k as [|k]; destruct m as [|m]; cbn [substring String.length];
      try reflexivity.
    + f_equal. apply (IH 0 m). lia.
    + apply (IH k 0). lia.
    + apply (IH k (S m)). lia.
Qed.

(** [strings.HasSuffix(s, suf)] tells whether [s] ends with [suf]. *)
Lemma HasSuffix_iff (s suf : string) :
  HasSuffix s suf = true <-> exists p, s = p ++ suf.
Proof.
  unfold HasSuffix. split.
  - destruct (Nat.leb_spec (String.length suf) (String.length s)) as [Hle|];
      [|discriminate].
    intros H. apply String.eqb_eq in H.
    exists (substring 0 (String.length s - String.length suf) s).
    pose proof (substring_split s (String.length s - String.length suf)
                  ltac:(lia)) as E.
    replace (String.length s - (String.length s - String.length suf))
      with (String.length suf) in E by lia.
    rewrite H in E. exact E.
  - intros [p ->]. rewrite length_append.
    destruct (Nat.leb_spec (String.length suf) (String.length p + String.length suf));
      [|lia].
    replace (String.length p + String.length suf - String.length suf)
      with (String.length p + 0) by lia.
    rewrite substring_skip, substring_all. apply String.eqb_refl.
Qed.

(** Only the end of a string decides. *)
Lemma HasSuffix_app (a b suf : string) :
  String.length suf <= String.length b ->
  HasSuffix (a ++ b) suf = HasSuffix b suf.
Proof.
  intros H. unfold HasSuffix. rewrite length_append.
  destruct (Nat.leb_spec (String.length suf) (String.length b)) as [_|]; [|lia].
  destruct (Nat.leb_spec (String.length suf) (String.length a + String.length b))
    as [_|]; [|lia].
  replace (String.length a + String.length b - String.length suf)
    with (String.length a + (String.length b - String.length suf)) by lia.
  now rewrite substring_skip.
Qed.

Lemma ToLower_app (p q : string) : ToLower (p ++ q) = ToLower p ++ ToLower q.
Proof.
  induction p as [|c p IH]; [reflexivity|].
  rewrite app_cons. cbn [ToLower]. now rewrite app_cons, IH.
Qed.

Lemma HasPrefix_iff (s pre : string) :
  HasPrefix s pre = true <-> exists r, s = pre ++ r.
Proof.
  unfold HasPrefix. revert s. induction pre as [|c pre IH]; intros s.
  - split; [intros _; exists s; reflexivity|intros _; destruct s; reflexivity].
  - destruct s as [|a s]; cbn [String.prefix].
    + split; [discriminate|]. intros [r Hr]. rewrite app_cons in Hr. discriminate.
    + destruct (Ascii.ascii_dec c a) as [->|Hne].
      * rewrite IH. split; intros [r Hr]; exists r.
        -- rewrite app_cons. now f_equal.
        -- rewrite app_cons in Hr. now injection Hr.
      * split; [discriminate|]. intros [r Hr]. rewrite app_cons in Hr.
        injection Hr as Hr _. now contradiction Hne.
Qed.

(** The first part of a split ends at the first separator. *)
Lemma SplitN_cons (sep : ascii) (m : nat) (s : string) :
  exists w ws, SplitN s sep (S (S m)) = w :: ws /\ without sep w = true /\
    ((ws = [] /\ s = w) \/
     (exists rest, s = w ++ String sep rest /\ ws = SplitN rest sep (S m))).
Proof.
  induction s as [|c s IH].
  - exists "", []. repeat split. now left.
  - cbn [SplitN]. destruct (Ascii.eqb_spec c sep) as [->|Hne].
    + exists "", (SplitN s sep (S m)). repeat split. right. exists s. now split.
    + destruct IH as (w & ws & -> & Hw & Hcase).
      exists (String c w), ws. split; [reflexivity|]. split.
      * unfold without in *. cbn [all_bytes]. rewrite Hw.
        destruct (Ascii.eqb_spec c sep); [contradiction|reflexivity].
      * destruct Hcase as [[-> ->]|(rest & -> & ->)]; [now left|].
        right. exists rest. now rewrite app_cons.
Qed.

Lemma SplitN_length (sep : ascii) (n : nat) : forall s : string,
  1 <= length (SplitN s sep (S n)) <= S n.
Proof.
  induction n as [|n IH]; intros s.
  - destruct s; cbn; lia.
  - destruct (SplitN_cons sep n s) as (w & ws & -> & _ & [[-> _]|(rest & _ & ->)]).
    + cbn. lia.
    + specialize (IH rest). cbn [length]. lia.
Qed.

(** Putting the parts together again gives the string back. *)
Lemma SplitN_join (sep : ascii) (n : nat) : forall s : string,
  join sep (SplitN s sep (S n)) = s.
Proof.
  induction n as [|n IH]; intros s.
  - destruct s; reflexivity.
  - destruct (SplitN_cons sep n s) as (w & ws & -> & _ & [[-> ->]|(rest & -> & ->)]).
    + reflexivity.
    + specialize (IH rest). pose proof (SplitN_length sep n rest) as Hl.
      destruct (SplitN rest sep (S n)) as [|w' ws'] eqn:E; [cbn in Hl; lia|].
      cbn [join]. cbn [join] in IH. now rewrite IH.
Qed.

(** A string without the separator is one part. *)
Lemma without_cons_split (sep : ascii) (w w' r r' : string) :
  without sep w = true -> without sep w' = true ->
  w ++ String sep r = w' ++ String sep r' -> w = w' /\ r = r'.
Proof.
  revert w'. induction w as [|c w IH]; intros w' Hw Hw' E.
  - destruct w' as [|c' w'].
    + rewrite !app_nil in E. now injection E.
    + rewrite app_nil, app_cons in E. injection E as <- _.
      unfold without in Hw'. cbn [all_bytes] in Hw'.
      rewrite Ascii.eqb_refl in Hw'. discriminate.
  - destruct w' as [|c' w'].
    + rewrite app_nil, app_cons in E. injection E as -> _.
      unfold without in Hw. cbn [all_bytes] in Hw.
      rewrite Ascii.eqb_refl in Hw. discriminate.
    + rewrite !app_cons in E. injection E as -> E.
      unfold without in *. cbn [all_bytes] in *.
      apply andb_true_iff in Hw, Hw'. destruct Hw as [_ Hw], Hw' as [_ Hw'].
      destruct (IH w' Hw Hw' E) as [-> ->]. now split.
Qed.

(** The parts of a string whose first [n] separators are known. *)
Lemma SplitN_app (sep : ascii) (n : nat) (w rest : string) :
  without sep w = true ->
  SplitN (w ++ String sep rest) sep (S (S n)) = w :: SplitN rest sep (S n).
Proof.
  intros Hw.
  destruct (SplitN_cons sep n (w ++ String sep rest))
    as (w' & ws & -> & Hw' & [[-> E]|(rest' & E & ->)]).
  - exfalso. subst w'. clear -Hw'. induction w as [|c w IH].
    + rewrite app_nil in Hw'. unfold without in Hw'. cbn [all_bytes] in Hw'.
      rewrite Ascii.eqb_refl in Hw'. discriminate.
    + rewrite app_cons in Hw'. unfold without in *. cbn [all_bytes] in Hw'.
      apply andb_true_iff in Hw'. tauto.
  - destruct (without_cons_split sep w w' rest rest' Hw Hw' E) as [-> ->].
    reflexivity.
Qed.

End GoStringsFacts.

(** ** Package storage: opening and closing a source *)

Module StorageSourceSpec.
Import GoInt GoIntFacts GoStrings StringFacts Storage StorageSpec EtlData.
Import RegexpComplete StorageSource GoStringsFacts.
Local Open Scope string_scope.
Local Open Scope Z_scope.

(** The uri of a source that [NewETLSource] accepts, taken apart. *)
Lemma uri_parts (uri b f : string) :
  HasPrefix uri "gs://" = true ->
  length (SplitN uri "/" 4) = 4%nat ->
  nth 2 (SplitN uri "/" 4) "" = b -> nth 3 (SplitN uri "/" 4) "" = f ->
  uri = "gs://" ++ b ++ "/" ++ f /\ without "/" b = true.
Proof.
  intros Hpre Hlen Hb Hf.
  apply HasPrefix_iff in Hpre. destruct Hpre as [r ->].
  change ("gs://" ++ r) with ("gs:" ++ String "/" ("" ++ String "/" r)) in *.
  rewrite (SplitN_app "/" 2 "gs:") in * by reflexivity.
  rewrite (SplitN_app "/" 1 "") in * by reflexivity.
  destruct (SplitN_cons "/" 0 r) as (w & ws & E & Hw & [[-> ->]|(rest & -> & ->)]).
  - rewrite E in Hlen. cbn in Hlen. lia.
  - rewrite E in Hb, Hf. cbn in Hb, Hf. subst w. split; [|exact Hw].
    destruct rest; cbn in Hf; subst f; reflexivity.
Qed.

Lemma ext_cases (f : string) :
  HasSuffix f ".tgz" || HasSuffix f ".tar" || HasSuffix f ".tar.gz" = true ->
  exists stem ext, f = stem ++ ext /\ is_ext ext = true /\
    HasSuffix (ToLower f) "gz" = negb (String.eqb ext ".tar").
Proof.
  intros H. apply orb_true_iff in H. destruct H as [H|H];
    [apply orb_true_iff in H; destruct H as [H|H]|];
    apply HasSuffix_iff in H; destruct H as [stem ->];
    eexists stem, _; (split; [reflexivity|]); (split; [reflexivity|]);
    rewrite ToLower_app, HasSuffix_app by (cbn; lia); reflexivity.
Qed.

(** X10. A uri that [NewETLSource] accepts reads gs://<bucket>/<object>,
    the bucket without a slash and the object ending in .tar, .tgz or
    .tar.gz; the source is opened on this bucket and object, once and with
    a timeout of 300 minutes, through a gzip reader exactly when the
    extension is not .tar, and gets the base delay of 16 ms and the table
    "invalid". *)
Theorem new_source_uri_shape (client : bool)
    (getReader : string -> string -> Z -> option error)
    (gzipNewReader rdrClose : option error) (uri : string)
    (src : Source) (t : list event) :
  NewETLSource client getReader gzipNewReader rdrClose uri = (inr src, t) ->
  client = true /\
  uri = "gs://" ++ bucket src ++ "/" ++ fn src /\
  without "/" (bucket src) = true /\
  (exists stem ext, fn src = stem ++ ext /\ is_ext ext = true /\
     zipper (closer src) = negb (String.eqb ext ".tar")) /\
  t = EvGetReader (bucket src) (fn src) (300 * Minute) None ::
      (if zipper (closer src) then [EvGzipNewReader None] else []) /\
  getReader (bucket src) (fn src) (300 * Minute) = None /\
  StorageSource.RetryBaseTime src = 16 * Millisecond /\
  StorageSource.TableBase src = "invalid".
Proof.
  unfold NewETLSource.
  destruct client; cbn [negb]; [|discriminate].
  destruct (HasPrefix uri "gs://") eqn:Hpre; cbn [negb]; [|discriminate].
  destruct (length (SplitN uri "/" 4) =? 4)%nat eqn:Hlen; cbn [negb]; [|discriminate].
  apply Nat.eqb_eq in Hlen.
  destruct (uri_parts uri _ _ Hpre Hlen eq_refl eq_refl) as [Huri Hb].
  set (b := nth 2 (SplitN uri "/" 4) "") in *.
  set (f := nth 3 (SplitN uri "/" 4) "") in *. clearbody b f.
  destruct (HasSuffix f ".tgz" || HasSuffix f ".tar" || HasSuffix f ".tar.gz")
    eqn:Hext; cbn [negb]; [|discriminate].
  destruct (ext_cases f Hext) as (stem & ext & Hf & Hx & Hgz).
  destruct (getReader b f (300 * Minute)) as [err|] eqn:Hget; [discriminate|].
  rewrite Hgz.
  destruct (negb (ext =? ".tar")%string) eqn:Hz.
  - destruct gzipNewReader as [err|]; [discriminate|].
    intros [= <- <-]. cbn. repeat split; try assumption.
    exists stem, ext. now rewrite Hz.
  - intros [= <- <-]. cbn. repeat split; try assumption.
    exists stem, ext. now rewrite Hz.
Qed.

Lemma new_source_uri_shape_witness :
  let src := mkSource "m-lab" "ndt/2016/07/14/x.tgz" (mkCloser true)
                      (16 * Millisecond) "invalid" in
  true = true /\
  "gs://m-lab/ndt/2016/07/14/x.tgz" = "gs://" ++ bucket src ++ "/" ++ fn src /\
  without "/" (bucket src) = true /\
  (exists stem ext, fn src = stem ++ ext /\ is_ext ext = true /\
     zipper (closer src) = negb (String.eqb ext ".tar")) /\
  [EvGetReader "m-lab" "ndt/2016/07/14/x.tgz" (300 * Minute) None;
   EvGzipNewReader None]
  = EvGetReader (bucket src) (fn src) (300 * Minute) None ::
      (if zipper (closer src) then [EvGzipNewReader None] else []) /\
  (fun _ _ _ => None) (bucket src) (fn src) (300 * Minute) = @None error /\
  StorageSource.RetryBaseTime src = 16 * Millisecond /\
  StorageSource.TableBase src = "invalid".
Proof.
  intros src.
  apply (new_source_uri_shape true (fun _ _ _ => None) None None
           "gs://m-lab/ndt/2016/07/14/x.tgz" src).
  reflexivity.
Defined.

(** X11. Every uri gs://<bucket>/<object> whose bucket has no slash and
    whose object ends in .tar, .tgz or .tar.gz is opened on exactly this
    bucket and object, slashes in the object included, when the client is
    there and the readers can be made. *)
Theorem new_source_opens_named_object
    (getReader : string -> string -> Z -> option error)
    (gzipNewReader rdrClose : option error) (b stem ext : string) :
  without "/" b = true -> is_ext ext = true ->
  getReader b (stem ++ ext) (300 * Minute) = None ->
  gzipNewReader = None ->
  fst (NewETLSource true getReader gzipNewReader rdrClose
         ("gs://" ++ b ++ "/" ++ stem ++ ext))
  = inr (mkSource b (stem ++ ext) (mkCloser (negb (String.eqb ext ".tar")))
                  (16 * Millisecond) "invalid").
Proof.
  intros Hb Hx Hget ->. unfold NewETLSource. cbn [negb].
  assert (Hpre : HasPrefix ("gs://" ++ b ++ "/" ++ stem ++ ext) "gs://" = true).
  { apply HasPrefix_iff. eexists. reflexivity. }
  rewrite Hpre. cbn [negb].
  change ("gs://" ++ b ++ "/" ++ stem ++ ext)
    with ("gs:" ++ String "/" ("" ++ String "/" (b ++ String "/" (stem ++ ext)))).
  rewrite (SplitN_app "/" 2 "gs:") by reflexivity.
  rewrite (SplitN_app "/" 1 "") by reflexivity.
  rewrite (SplitN_app "/" 0 b) by exact Hb.
  assert (Hlast : SplitN (stem ++ ext) "/" 1 = [stem ++ ext])
    by (destruct (stem ++ ext); reflexivity).
  rewrite Hlast. cbn [length Nat.eqb negb nth].
  assert (Hext : HasSuffix (stem ++ ext) ".tgz" || HasSuffix (stem ++ ext) ".tar"
                 || HasSuffix (stem ++ ext) ".tar.gz" = true).
  { unfold is_ext in Hx. apply orb_true_iff in Hx. destruct Hx as [Hx|Hx];
      [apply orb_true_iff in Hx; destruct Hx as [Hx|Hx]|];
      apply String.eqb_eq in Hx; subst ext;
      rewrite !HasSuffix_app by (cbn; lia); reflexivity. }
  rewrite Hext, Hget. cbn [negb].
  assert (Hgz : HasSuffix (ToLower (stem ++ ext)) "gz" = negb (String.eqb ext ".tar")).
  { unfold is_ext in Hx. apply orb_true_iff in Hx. destruct Hx as [Hx|Hx];
      [apply orb_true_iff in Hx; destruct Hx as [Hx|Hx]|];
      apply String.eqb_eq in Hx; subst ext;
      rewrite ToLower_app, HasSuffix_app by (cbn; lia); reflexivity. }
  rewrite Hgz. destruct (negb (ext =? ".tar")%string); reflexivity.
Qed.

Lemma new_source_opens_named_object_witness :
  fst (NewETLSource true (fun _ _ _ => None) None None
         ("gs://" ++ "m-lab" ++ "/" ++ "ndt/2016/07/14/x" ++ ".tar.gz"))
  = inr (mkSource "m-lab" ("ndt/2016/07/14/x" ++ ".tar.gz") (mkCloser true)
                  (16 * Millisecond) "invalid").
Proof.
  apply (new_source_opens_named_object (fun _ _ _ => None) None None
           "m-lab" "ndt/2016/07/14/x" ".tar.gz"); reflexivity.
Defined.

(** X12. Nothing that [NewETLSource] and [Close] take is left behind.
    Whatever the uri and whatever the storage, gzip and the readers
    answer: when the construction fails, the context it made is cancelled
    and the reader it obtained is closed before it returns; when it
    succeeds, nothing is released until [Close], which then closes the
    gzip reader if there is one, closes the reader and cancels the
    context, once each and in this order. *)
Theorem source_releases_what_it_takes (client : bool)
    (getReader : string -> string -> Z -> option error)
    (gzipNewReader rdrClose zipperClose : option error) (uri : string) :
  let r := NewETLSource client getReader gzipNewReader rdrClose uri in
  let t := lifetime client getReader gzipNewReader rdrClose zipperClose uri in
  (cancels t = contexts t /\ closes t = readers t /\ zcloses t = zippers t) /\
  (contexts t <= 1)%nat /\
  match fst r with
  | inl _ => t = snd r
  | inr src =>
      cancels (snd r) = 0%nat /\ closes (snd r) = 0%nat /\ zcloses (snd r) = 0%nat /\
      readers (snd r) = 1%nat /\
      t = (snd r ++ (if zipper (closer src) then [EvCloseZipper] else []) ++
                    [EvCloseReader; EvCancel])%list
  end.
Proof.
  unfold lifetime, NewETLSource.
  destruct client; cbn [negb]; [|cbn; repeat split; lia].
  destruct (HasPrefix uri "gs://"); cbn [negb]; [|cbn; repeat split; lia].
  destruct (length (SplitN uri "/" 4) =? 4)%nat; cbn [negb]; [|cbn; repeat split; lia].
  destruct (HasSuffix _ ".tgz" || HasSuffix _ ".tar" || HasSuffix _ ".tar.gz");
    cbn [negb]; [|cbn; repeat split; lia].
  destruct (getReader _ _ _) as [err|]; [cbn; repeat split; lia|].
  destruct (HasSuffix (ToLower _) "gz").
  - destruct gzipNewReader as [err|]; cbn; repeat split; lia.
  - cbn; repeat split; lia.
Qed.

(** *** The effort of one call of NextTest *)

Lemma next_calls_app (t1 t2 : list Storage.event) :
  next_calls (t1 ++ t2) = (next_calls t1 + next_calls t2)%nat.
Proof. unfold next_calls. now rewrite omap_app, length_app. Qed.

Lemma body_reads_app (t1 t2 : list Storage.event) :
  body_reads (t1 ++ t2) = (body_reads t1 + body_reads t2)%nat.
Proof. unfold body_reads. now rewrite omap_app, length_app. Qed.

Section Effort.
Context {reader : Type} (rr : ETLSource reader).

Lemma readResult_counts phase trial r s :
  let '((data, retry, err), s1, t) := readResult rr phase trial r s in
  next_calls t = 0%nat /\ body_reads t = 0%nat /\ (data <> None -> err = None).
Proof.
  unfold readResult, mbind, M_bind. destruct r as [err|data].
  - destruct (Contains (Error err) "stream error"); cbn; repeat split;
      intros H; now contradiction H.
  - cbn. repeat split.
Qed.

(** A call of [nextData] is one attempt to read the body and no call of
    [Next]. *)
Lemma nextData_counts h trial s :
  let '((data, retry, err), s1, t) := nextData rr h trial s in
  next_calls t = 0%nat /\ body_reads t = 1%nat /\ (data <> None -> err = None).
Proof.
  unfold nextData, mbind, M_bind, perform.
  destruct (HasSuffix (ToLower (Name h)) "gz").
  - destruct (tr_GzipNewReader (ops rr) s) as [[err|] s1].
    + destruct (is_EOF err); cbn; repeat split; intros H; now contradiction H.
    + destruct (tr_GzipReadAll (ops rr) s1) as [r s2].
      pose proof (readResult_counts "read zip" trial r s2) as H.
      destruct (readResult rr "read zip" trial r s2) as [[[[data retry] err] s3] t].
      destruct H as (H1 & H2 & H3).
      change ([Storage.EvGzipNewReader] ++ [EvGzipReadAll] ++ t)%list
        with ([Storage.EvGzipNewReader; EvGzipReadAll] ++ t)%list.
      rewrite next_calls_app, body_reads_app, H1, H2. now repeat split.
  - destruct (tr_ReadAll (ops rr) s) as [r s2].
    pose proof (readResult_counts "read" trial r s2) as H.
    destruct (readResult rr "read" trial r s2) as [[[[data retry] err] s3] t].
    destruct H as (H1 & H2 & H3).
    rewrite next_calls_app, body_reads_app, H1, H2. now repeat split.
Qed.

(** The header loop calls [Next] once more than it sleeps, and reads no
    body. *)
Lemma headerLoop_counts fuel : forall trial delay s,
  let '(r, s1, t) := headerLoop rr fuel trial delay s in
  body_reads t = 0%nat /\
  (r <> None -> next_calls t = S (length (sleeps_of t))).
Proof.
  induction fuel as [|fuel IH]; intros trial delay s.
  { cbn. split; [reflexivity|]. intros H; now contradiction H. }
  cbn [headerLoop]. unfold mbind at 1, M_bind at 1. rewrite nextHeader_eq.
  destruct (tr_Next (ops rr) s) as [[err|h] s1]; [|cbn; auto].
  destruct (is_EOF err); [cbn; auto|]. cbn [negb orb].
  destruct (10 <=? add64 trial 1); [cbn; auto|].
  unfold mbind, M_bind, emit.
  specialize (IH (add64 trial 1) (mul64 delay 2) s1).
  destruct (headerLoop rr fuel (add64 trial 1) (mul64 delay 2) s1) as [[r s2] t2].
  destruct IH as [IH1 IH2].
  match goal with
  | |- context [([?a; ?b; ?c] ++ [?d] ++ t2)%list] =>
      change ([a; b; c] ++ [d] ++ t2)%list with ([a; b; c; d] ++ t2)%list
  end.
  rewrite next_calls_app, body_reads_app, sleeps_of_app, length_app, IH1.
  split; [reflexivity|]. intros Hr. rewrite (IH2 Hr). reflexivity.
Qed.

(** The data loop makes one attempt more than it sleeps, and does not
    call [Next]. *)
Lemma dataLoop_counts h fuel : forall trial delay s,
  let '(r, s1, t) := dataLoop rr fuel h trial delay s in
  next_calls t = 0%nat /\
  (r <> None -> body_reads t = S (length (sleeps_of t)) /\
                (1 <= body_reads t)%nat).
Proof.
  induction fuel as [|fuel IH]; intros trial delay s.
  { cbn. split; [reflexivity|]. intros H; now contradiction H. }
  cbn [dataLoop]. unfold mbind at 1, M_bind at 1.
  pose proof (nextData_counts h (add64 trial 1) s) as Hc.
  pose proof (nextData_props rr h (add64 trial 1) s) as Hp.
  destruct (nextData rr h (add64 trial 1) s) as [[[[data retry] [err|]] s1] t1];
    destruct Hc as (Hc1 & Hc2 & _); destruct Hp as [Hp _].
  2:{ cbn -[next_calls body_reads sleeps_of].
      rewrite app_nil_r, Hc1, Hc2, Hp. cbn. split; [reflexivity|]. intros _. lia. }
  destruct (negb retry || (10 <=? add64 trial 1)).
  { cbn -[next_calls body_reads sleeps_of].
    rewrite app_nil_r, Hc1, Hc2, Hp. cbn. split; [reflexivity|]. intros _. lia. }
  unfold mbind, M_bind, emit.
  specialize (IH (add64 trial 1) (mul64 delay 2) s1).
  destruct (dataLoop rr fuel h (add64 trial 1) (mul64 delay 2) s1) as [[r s2] t2].
  destruct IH as [IH1 IH2].
  rewrite !next_calls_app, !body_reads_app, !sleeps_of_app, !length_app,
    Hc1, Hc2, Hp, IH1.
  split; [reflexivity|]. intros Hr. destruct (IH2 Hr) as [E _].
  rewrite E. cbn. lia.
Qed.

(** The data that the data loop hands back comes from a read without
    error. *)
Lemma dataLoop_data h fuel : forall trial delay s,
  let '(r, s1, t) := dataLoop rr fuel h trial delay s in
  forall d, r = Some (Some d) -> (1 <= body_reads t)%nat.
Proof.
  intros trial delay s.
  pose proof (dataLoop_counts h fuel trial delay s) as H.
  destruct (dataLoop rr fuel h trial delay s) as [[r s1] t].
  intros d ->. now apply H.
Qed.

Lemma length_firstn_backoffs (base : Z) (n : nat) :
  (n <= 9)%nat -> length (firstn n (backoffs base)) = n.
Proof.
  intros Hn. rewrite length_firstn. unfold backoffs.
  rewrite length_map, length_seq. lia.
Qed.

(** What one call does, phase by phase. *)
Lemma NextTest_body_counts maxSize s :
  let '(r, s1, t) := NextTest_body rr 10 maxSize s in
  exists name data err, r = Some (name, data, err) /\
    (1 <= next_calls t <= 10)%nat /\ (body_reads t <= 10)%nat /\
    length (sleeps_of t) = (next_calls t - 1 + (body_reads t - 1))%nat /\
    (err <> None -> data = None /\ body_reads t = 0%nat) /\
    (data <> None -> (1 <= body_reads t)%nat).
Proof.
  unfold NextTest_body, mbind, M_bind.
  pose proof (headerLoop_props rr (Storage.RetryBaseTime rr) 10 0 (Storage.RetryBaseTime rr) s
                ltac:(lia) ltac:(lia) (base_delay _)) as Hh.
  pose proof (headerLoop_counts 10 0 (Storage.RetryBaseTime rr) s) as Hc.
  change (Z.of_nat 0) with 0 in Hh.
  destruct (headerLoop rr 10 0 (Storage.RetryBaseTime rr) s) as [[hr s1] t1].
  destruct Hh as [Hr (n1 & Hn1 & Hs1)]. change (skipn 0 ?l) with l in Hs1.
  destruct Hc as [Hb1 Hc1]. specialize (Hc1 Hr).
  assert (Hl1 : length (sleeps_of t1) = n1).
  { rewrite Hs1. apply length_firstn_backoffs. lia. }
  assert (Hdone : forall (name : string) (err : option error),
    exists name' data err', Some (name, @None bytes, err) = Some (name', data, err') /\
      (1 <= next_calls (t1 ++ []) <= 10)%nat /\ (body_reads (t1 ++ []) <= 10)%nat /\
      length (sleeps_of (t1 ++ []))
      = (next_calls (t1 ++ []) - 1 + (body_reads (t1 ++ []) - 1))%nat /\
      (err' <> None -> data = None /\ body_reads (t1 ++ []) = 0%nat) /\
      (data <> None -> (1 <= body_reads (t1 ++ []))%nat)).
  { intros name err. exists name, None, err. rewrite app_nil_r, Hb1, Hc1, Hl1.
    split; [reflexivity|]. repeat split; try lia. intros H; now contradiction H. }
  destruct hr as [[err|h]|]; [apply Hdone| |contradiction].
  destruct (maxSize <? Size h); [apply Hdone|].
  destruct (negb (Byte.eqb (Typeflag h) TypeReg)); [apply Hdone|].
  pose proof (dataLoop_props rr (Storage.RetryBaseTime rr) h 10 0 (Storage.RetryBaseTime rr) s1
                ltac:(lia) ltac:(lia) (base_delay _)) as Hd.
  pose proof (dataLoop_counts h 10 0 (Storage.RetryBaseTime rr) s1) as Hdc.
  change (Z.of_nat 0) with 0 in Hd.
  destruct (dataLoop rr 10 h 0 (Storage.RetryBaseTime rr) s1) as [[d s2] t2].
  destruct Hd as [Hd (n2 & Hn2 & Hs2)]. change (skipn 0 ?l) with l in Hs2.
  destruct Hdc as [Hn0 Hdc]. destruct (Hdc Hd) as [Hb2 Hge].
  assert (Hl2 : length (sleeps_of t2) = n2).
  { rewrite Hs2. apply length_firstn_backoffs. lia. }
  destruct d as [data|]; [|contradiction].
  cbn -[sleeps_of next_calls body_reads].
  exists (Name h), data, None. rewrite app_nil_r.
  rewrite next_calls_app, body_reads_app, sleeps_of_app, length_app,
    Hb1, Hc1, Hl1, Hn0, Hb2, Hl2.
  split; [reflexivity|]. split; [lia|]. split; [lia|]. split; [lia|]. split.
  - intros H; now contradiction H.
  - intros _. lia.
Qed.

End Effort.

Lemma NextTest_counts {reader : Type} (rr : ETLSource reader) (maxSize : Z)
    (s : reader) :
  let '(r, s1, t) := NextTest rr maxSize s in
  exists name data err, r = Some (name, data, err) /\
    (1 <= next_calls t <= 10)%nat /\ (body_reads t <= 10)%nat /\
    length (sleeps_of t) = (next_calls t - 1 + (body_reads t - 1))%nat /\
    (err <> None -> data = None /\ body_reads t = 0%nat) /\
    (data <> None -> (1 <= body_reads t)%nat).
Proof.
  rewrite NextTest_unfold.
  pose proof (NextTest_body_counts rr maxSize s) as H.
  destruct (NextTest_body rr 10 maxSize s) as [[r s1] t].
  rewrite !next_calls_app, !body_reads_app, !sleeps_of_app, !length_app.
  cbn [next_calls body_reads sleeps_of omap length Nat.add].
  change (next_calls t) with (length (omap (fun e => match e with EvNext => Some tt | _ => None end) t)) in H.
  rewrite !Nat.add_0_r. exact H.
Qed.

(** X13. One call of [NextTest] returns after a bounded effort, whatever
    the tar reader answers: at least one and at most ten calls of Next, at
    most ten attempts to read the body, and one sleep between two
    successive calls of Next and between two successive attempts, so at
    most eighteen sleeps. *)
Theorem next_test_bounded_effort {reader : Type} (rr : ETLSource reader)
    (maxSize : Z) (s : reader) :
  let t := snd (NextTest rr maxSize s) in
  fst (fst (NextTest rr maxSize s)) <> None /\
  (1 <= next_calls t <= 10)%nat /\ (body_reads t <= 10)%nat /\
  length (sleeps_of t) = (next_calls t - 1 + (body_reads t - 1))%nat /\
  (length (sleeps_of t) <= 18)%nat.
Proof.
  pose proof (NextTest_counts rr maxSize s) as H.
  destruct (NextTest rr maxSize s) as [[r s1] t]. cbn [fst snd].
  destruct H as (name & data & err & -> & Hn & Hb & Hl & _).
  split; [discriminate|]. repeat split; lia.
Qed.

(** X14. What [NextTest] returns with an error it returns without data
    and without having tried to read the body of the entry (so for an
    oversize entry, and for every error of the tar reader's Next); data
    is returned only with a nil error and after a read of the body. *)
Theorem next_test_error_means_no_read {reader : Type} (rr : ETLSource reader)
    (maxSize : Z) (s : reader) :
  exists name data err,
    fst (fst (NextTest rr maxSize s)) = Some (name, data, err) /\
    (err <> None -> data = None /\ body_reads (snd (NextTest rr maxSize s)) = 0%nat) /\
    (data <> None ->
     err = None /\ (1 <= body_reads (snd (NextTest rr maxSize s)))%nat).
Proof.
  pose proof (NextTest_counts rr maxSize s) as H.
  destruct (NextTest rr maxSize s) as [[r s1] t]. cbn [fst snd].
  destruct H as (name & data & err & -> & _ & _ & _ & He & Hd).
  exists name, data, err. split; [reflexivity|]. split; [exact He|].
  intros Hdata. split; [|now apply Hd].
  destruct err as [e|]; [|reflexivity].
  destruct He as [He _]; [discriminate|]. now contradiction Hdata.
Qed.

Lemma total_app (l1 l2 : list Z) : total (l1 ++ l2) = total l1 + total l2.
Proof. unfold total. induction l1 as [|x l1 IH]; cbn; [reflexivity|]. rewrite IH. lia. Qed.

(** The delays of a base that is not negative and far from the end of the
    range of an int64 add up to less than 1022 times the base. *)
Lemma total_firstn_backoffs (base : Z) (n : nat) :
  0 <= base <= 2 ^ 53 ->
  0 <= total (firstn n (backoffs base)) <= 1022 * base.
Proof.
  intros Hb.
  assert (E : backoffs base
              = map (fun m => m * base) [2; 4; 8; 16; 32; 64; 128; 256; 512]).
  { unfold backoffs. cbn [seq map].
    repeat match goal with
    | |- context [2 ^ Z.of_nat ?k] =>
        let v := eval vm_compute in (2 ^ Z.of_nat k) in
        change (2 ^ Z.of_nat k) with v
    end.
    rewrite !wrap64_id by (unfold in_int64, min_int64, max_int64; lia).
    repeat (f_equal; try lia). }
  rewrite E. unfold total.
  do 10 (destruct n as [|n]; [cbn [firstn map fold_right]; lia|]).
  cbn [firstn map fold_right]. lia.
Qed.

(** X15. With a base delay that is not negative and at most 2^53 ns, one
    call of [NextTest] sleeps at most 2044 times the base delay in all:
    32.704 s with the base of 16 ms that [NewETLSource] sets. *)
Theorem next_test_total_sleep {reader : Type} (rr : ETLSource reader)
    (maxSize : Z) (s : reader) :
  0 <= Storage.RetryBaseTime rr <= 2 ^ 53 ->
  0 <= total (sleeps_of (snd (NextTest rr maxSize s)))
    <= 2044 * Storage.RetryBaseTime rr.
Proof.
  intros Hb. rewrite NextTest_unfold.
  pose proof (NextTest_body_props rr maxSize s) as H.
  destruct (NextTest_body rr 10 maxSize s) as [[r s1] t]. cbn [snd].
  destruct H as [_ (n1 & n2 & _ & _ & Hs)].
  rewrite !sleeps_of_app, Hs, !total_app.
  change (total (sleeps_of [EvWorkerState _ _ _])) with 0.
  pose proof (total_firstn_backoffs _ n1 Hb).
  pose proof (total_firstn_backoffs _ n2 Hb). lia.
Qed.

Lemma next_test_total_sleep_witness :
  0 <= total (sleeps_of (snd (NextTest scriptedSource 100
                                (mkScript (repeat (inl (ErrMsg "stream error")) 10)
                                          [] [] []))))
    <= 2044 * Storage.RetryBaseTime scriptedSource.
Proof.
  apply (next_test_total_sleep scriptedSource 100). vm_compute.
  split; discriminate.
Defined.

End StorageSourceSpec.

(** ** Package dedup: the names of tables and partitions *)

Module DedupTablesSpec.
Import GoStrings StringFacts Regexp RegexpSpec EtlData RegexpComplete.
Import GoStringsFacts Dedup DedupTables.
Local Open Scope string_scope.
Local Open Scope nat_scope.

(** An expression with a width leaves the captures alone and reads this
    many bytes, which it reads wherever they stand. *)
Lemma width_matches (r : regex) : forall (n : nat),
  width r = Some n ->
  forall text s caps s' caps', matches text r s caps s' caps' ->
  caps' = caps /\
  exists d, s = d ++ s' /\ String.length d = n /\
    forall text2 caps2 rest, matches text2 r (d ++ rest) caps2 rest caps2.
Proof.
  induction r as [| | |c|r1 IH1 r2 IH2|r1 IH1 r2 IH2|c|i r IH];
    intros n Hw text s caps s' caps' Hm; cbn [width] in Hw; try discriminate;
    cbn [matches] in Hm.
  - injection Hw as <-. destruct Hm as [-> ->]. split; [reflexivity|].
    exists "". repeat split.
  - destruct c as [| |rs]; try discriminate. injection Hw as <-.
    destruct Hm as [Hs ->]. split; [reflexivity|].
    apply step_ranges in Hs. destruct Hs as (a & -> & Ha).
    exists (String a ""). split; [reflexivity|]. split; [reflexivity|].
    intros text2 caps2 rest. cbn [matches]. split; [|reflexivity].
    rewrite app_cons, app_nil. cbn [step]. now rewrite Ha.
  - destruct (width r1) as [a|] eqn:E1; [|discriminate].
    destruct (width r2) as [b|] eqn:E2; [|discriminate]. injection Hw as <-.
    destruct Hm as (s1 & caps1 & H1 & H2).
    destruct (IH1 a eq_refl _ _ _ _ _ H1) as (-> & d1 & -> & Hl1 & Hr1).
    destruct (IH2 b eq_refl _ _ _ _ _ H2) as (-> & d2 & -> & Hl2 & Hr2).
    split; [reflexivity|]. exists (d1 ++ d2).
    split; [now rewrite append_assoc|]. split; [rewrite length_append; lia|].
    intros text2 caps2 rest. cbn [matches]. exists (d2 ++ rest), caps2.
    rewrite append_assoc. split; [apply Hr1|apply Hr2].
  - destruct (width r1) as [a|] eqn:E1; [|discriminate].
    destruct (width r2) as [b|] eqn:E2; [|discriminate].
    destruct (Nat.eqb_spec a b) as [->|]; [|discriminate]. injection Hw as <-.
    destruct Hm as [Hm|Hm].
    + destruct (IH1 b eq_refl _ _ _ _ _ Hm) as (-> & d & -> & Hl & Hr).
      split; [reflexivity|]. exists d. repeat split; [exact Hl|].
      intros. cbn [matches]. left. apply Hr.
    + destruct (IH2 b eq_refl _ _ _ _ _ Hm) as (-> & d & -> & Hl & Hr).
      split; [reflexivity|]. exists d. repeat split; [exact Hl|].
      intros. cbn [matches]. right. apply Hr.
Qed.

(** What [accepts] computes. *)
Lemma accepts_matches (r : regex) (n : nat) (d : string) :
  width r = Some n -> accepts r d = true ->
  String.length d = n /\
  forall text caps rest, matches text r (d ++ rest) caps rest caps.
Proof.
  intros Hw Ha. unfold accepts in Ha. apply bool_decide_eq_true in Ha.
  destruct Ha as [x Hx]. apply rmatch_sound in Hx.
  destruct Hx as (s' & caps' & Hm & Hk). destruct s'; [|discriminate].
  destruct (width_matches r n Hw _ _ _ _ _ Hm) as (_ & d0 & E & Hl & Hr).
  rewrite append_nil_r in E. subst d0. now split.
Qed.

Lemma matches_accepts (r : regex) (n : nat) (text s : string)
    (caps caps' : list string) :
  width r = Some n -> matches text r s caps "" caps' -> accepts r s = true.
Proof.
  intros Hw Hm.
  destruct (width_matches r n Hw _ _ _ _ _ Hm) as (_ & d & E & Hl & Hr).
  rewrite append_nil_r in E. subst d.
  unfold accepts. apply bool_decide_eq_true.
  eapply rmatch_complete.
  - specialize (Hr s [] ""). rewrite append_nil_r in Hr. exact Hr.
  - cbn. eauto.
Qed.

(** Two splits of a text at the same distance from its end agree. *)
Lemma app_inj_length (p p' q q' : string) :
  p ++ q = p' ++ q' -> String.length q = String.length q' -> p = p' /\ q = q'.
Proof.
  revert p'. induction p as [|c p IH]; intros p' E Hl.
  - destruct p' as [|c' p']; [now split|].
    apply (f_equal String.length) in E. rewrite app_nil, length_append in E.
    cbn in E. lia.
  - destruct p' as [|c' p'].
    + apply (f_equal String.length) in E. rewrite app_nil, length_append in E.
      cbn in E. lia.
    + rewrite !app_cons in E. injection E as -> E.
      destruct (IH p' E Hl) as [-> ->]. now split.
Qed.

(** [strings.Contains] with a substring of one byte. *)
Lemma Contains_char (c : ascii) (s : string) :
  Contains s (String c "") = negb (without c s).
Proof.
  unfold without. induction s as [|a s IH]; [reflexivity|].
  cbn [Contains String.prefix all_bytes]. rewrite IH.
  destruct (Ascii.ascii_dec c a) as [->|Hne].
  - rewrite Ascii.eqb_refl. now destruct s.
  - destruct (Ascii.eqb_spec a c) as [->|_]; [now contradiction Hne|reflexivity].
Qed.

Section Tables.
Variable YYYYMMDD : regex.

(** The classes of the separator. *)
Lemma separator_class (a : ascii) :
  in_ranges [("_", "_"); ("$", "$")]%char a = true -> a = "_"%char \/ a = "$"%char.
Proof.
  unfold in_ranges. cbn. rewrite orb_false_r, orb_true_iff, !andb_true_iff, !Nat.leb_le.
  intros [H|H]; [left|right]; apply nat_of_ascii_inj; cbn; lia.
Qed.

(** A match of the expression ends with a separator and what the date
    expression read; nothing before the separator is a line break. *)
Lemma dense_match_weak (text s0 s' : string) (caps : list string) :
  matches text (Group 0 (syntax (denseDateSuffix YYYYMMDD))) s0 (repeat "" 4) s' caps ->
  exists pre a date, s0 = pre ++ String a date /\
    (a = "_"%char \/ a = "$"%char).
Proof.
  cbn [matches syntax denseDateSuffix cat].
  intros (caps0 & (s1 & caps1 & (caps1' & [Hst ->] & ->) &
                   s2 & caps2 & (caps2' & [Hsep ->] & ->) & _) & _).
  apply steps_suffix in Hst. destruct Hst as [pre ->].
  apply step_ranges in Hsep. destruct Hsep as (a & -> & Ha).
  exists pre, a, s2. split; [reflexivity|]. now apply separator_class.
Qed.

Hypothesis Hwidth : width YYYYMMDD = Some 8.

Lemma dense_match (text s0 s' : string) (caps : list string) :
  matches text (Group 0 (syntax (denseDateSuffix YYYYMMDD))) s0 (repeat "" 4) s' caps ->
  exists pre a date, s0 = pre ++ String a date /\ s' = "" /\
    without "010" pre = true /\ (a = "_"%char \/ a = "$"%char) /\
    accepts YYYYMMDD date = true /\
    caps = [s0; pre; String a ""; date].
Proof.
  cbn [matches syntax denseDateSuffix cat].
  intros (caps0 & (s1 & caps1 & (caps1' & [Hst ->] & ->) &
                   s2 & caps2 & (caps2' & [Hsep ->] & ->) &
                   s3 & caps3 & (caps3' & Hd & ->) &
                   s4 & caps4 & (-> & -> & ->) & -> & ->) & ->).
  destruct (steps_without _ _ _ _ excludes_any Hst) as (pre & -> & Hpre).
  apply step_ranges in Hsep. destruct Hsep as (a & -> & Ha).
  pose proof (matches_accepts _ _ _ _ _ _ Hwidth Hd) as Hacc.
  destruct (width_matches _ _ Hwidth _ _ _ _ _ Hd) as (-> & _).
  exists pre, a, s2. split; [reflexivity|]. split; [reflexivity|].
  split; [exact Hpre|]. split; [now apply separator_class|].
  split; [exact Hacc|].
  rewrite (consumed_app pre (String a s2)).
  replace (consumed (String a s2) s2) with (String a "")
    by (symmetry; apply (consumed_app (String a "") s2)).
  replace (consumed s2 "") with s2
    by (symmetry; rewrite <- (append_nil_r s2) at 1; apply consumed_app).
  replace (consumed (pre ++ String a s2) "") with (pre ++ String a s2)
    by (symmetry; rewrite <- (append_nil_r (pre ++ String a s2)) at 1;
        apply consumed_app).
  reflexivity.
Qed.

(** The expression matches every name of this form from its start. *)
Lemma dense_build (text pre : string) (a : ascii) (date : string) :
  without "010" pre = true -> (a = "_"%char \/ a = "$"%char) ->
  accepts YYYYMMDD date = true ->
  exists caps,
    matches text (Group 0 (syntax (denseDateSuffix YYYYMMDD))) (pre ++ String a date) (repeat "" 4) "" caps.
Proof.
  intros Hpre Ha Hacc.
  destruct (accepts_matches _ _ _ Hwidth Hacc) as [Hl Hr].
  eexists. apply matches_group. cbn [syntax denseDateSuffix cat].
  eapply matches_cat.
  { apply matches_group, matches_star.
    apply (steps_over AnyNotNL "010" (String a date) excludes_any)
      with (n := String.length pre); [|lia|exact Hpre].
    destruct Ha as [-> | ->]; reflexivity. }
  eapply matches_cat.
  { apply matches_group, matches_class.
    destruct Ha as [-> | ->]; reflexivity. }
  eapply matches_cat.
  { apply matches_group. specialize (Hr text). rewrite <- (append_nil_r date) at 1.
    apply Hr. }
  eapply matches_cat; [apply matches_eol|apply matches_empty].
Qed.

Lemma search_first (text s : string) (fuel : nat) (caps : list string) :
  rmatch text (Group 0 (syntax (denseDateSuffix YYYYMMDD))) s (repeat "" (S (groups (denseDateSuffix YYYYMMDD))))
         (fun _ caps0 => Some caps0) = Some caps ->
  search (denseDateSuffix YYYYMMDD) text fuel s = Some caps.
Proof. intros H. destruct fuel; cbn [search]; now rewrite H. Qed.

(** The search on a name of this form. *)
Lemma find_dense (pre : string) (a : ascii) (date : string) :
  without "010" pre = true -> (a = "_"%char \/ a = "$"%char) ->
  accepts YYYYMMDD date = true ->
  FindStringSubmatch (denseDateSuffix YYYYMMDD) (pre ++ String a date)
  = Some [pre ++ String a date; pre; String a ""; date].
Proof.
  intros Hpre Ha Hacc. set (name := pre ++ String a date).
  destruct (dense_build name pre a date Hpre Ha Hacc) as [caps Hm].
  assert (Hs : is_Some (rmatch name (Group 0 (syntax (denseDateSuffix YYYYMMDD))) name
                          (repeat "" (S (groups (denseDateSuffix YYYYMMDD)))) (fun _ caps0 => Some caps0)))
    by (eapply rmatch_complete; [exact Hm|eauto]).
  destruct Hs as [caps1 Hx]. unfold FindStringSubmatch.
  rewrite (search_first _ _ _ _ Hx). f_equal.
  apply rmatch_sound in Hx. destruct Hx as (s' & caps' & Hm' & [= ->]).
  apply dense_match in Hm'.
  destruct Hm' as (pre' & a' & date' & E & _ & _ & _ & Hacc' & ->).
  destruct (accepts_matches _ _ _ Hwidth Hacc) as [Hl _].
  destruct (accepts_matches _ _ _ Hwidth Hacc') as [Hl' _].
  unfold name in E.
  destruct (app_inj_length pre pre' (String a date) (String a' date') E
              ltac:(cbn; lia)) as [<- [= <- <-]].
  reflexivity.
Qed.

Lemma separator_eqb (a : ascii) :
  a = "_"%char \/ a = "$"%char ->
  separator (String.eqb (String a "") "$") ++ "" = String a "".
Proof. intros [-> | ->]; reflexivity. Qed.

Lemma getTableParts_build (pre : string) (a : ascii) (date : string) :
  without "010" pre = true -> (a = "_"%char \/ a = "$"%char) ->
  accepts YYYYMMDD date = true ->
  getTableParts YYYYMMDD (pre ++ String a date)
  = inr (mkTableNameParts pre (String.eqb (String a "") "$") date).
Proof.
  intros Hpre Ha Hacc. unfold getTableParts.
  rewrite (find_dense pre a date Hpre Ha Hacc).
  destruct (accepts_matches _ _ _ Hwidth Hacc) as [Hl _].
  cbn [default from_option id nth]. rewrite Hl. reflexivity.
Qed.

Lemma getTableParts_inv (name : string) (p : tableNameParts) :
  getTableParts YYYYMMDD name = inr p ->
  exists junk a,
    name = junk ++ prefix p ++ String a (yyyymmdd p) /\
    without "010" (prefix p) = true /\ (a = "_"%char \/ a = "$"%char) /\
    isPartitioned p = String.eqb (String a "") "$" /\
    accepts YYYYMMDD (yyyymmdd p) = true.
Proof.
  unfold getTableParts.
  destruct (FindStringSubmatch (denseDateSuffix YYYYMMDD) name) as [caps|] eqn:E; [|discriminate].
  unfold FindStringSubmatch in E. apply search_sound in E.
  destruct E as (junk & s0 & s' & -> & Hm). apply dense_match in Hm.
  destruct Hm as (pre & a & date & -> & _ & Hpre & Ha & Hacc & ->).
  cbn [default from_option id nth length Nat.eqb negb orb].
  destruct (negb _); [discriminate|]. intros [= <-]. cbn.
  exists junk, a. repeat split; assumption.
Qed.

End Tables.

(** X16. The names that [getTableParts] takes apart, for a date
    expression [etl.YYYYMMDD] of width 8 (eight classes of bytes, no
    group, anchor or repetition): a name without a line break is accepted
    exactly when it is a prefix, one of the separators _ and $ and a text
    that the date expression matches, and then these are the parts
    returned, [isPartitioned] telling the separator $. Every other name
    is answered with the error "Invalid template suffix: " and the
    name. *)
Theorem get_table_parts_spec (YYYYMMDD : regex) (name : string) :
  width YYYYMMDD = Some 8 -> without "010" name = true ->
  (forall p : tableNameParts,
     getTableParts YYYYMMDD name = inr p <->
     name = prefix p ++ separator (isPartitioned p) ++ yyyymmdd p /\
     accepts YYYYMMDD (yyyymmdd p) = true) /\
  (forall e : error,
     getTableParts YYYYMMDD name = inl e ->
     e = ErrOther ("Invalid template suffix: " ++ name)).
Proof.
  intros Hw Hname. split.
  - intros p. split.
    + intros H.
      destruct (getTableParts_inv YYYYMMDD Hw name p H)
        as (junk & a & E & Hpre & Ha & Hpart & Hacc).
      split; [|exact Hacc].
      assert (Hjp : without "010" (junk ++ prefix p) = true).
      { rewrite E, <- append_assoc, without_app in Hname.
        now apply andb_true_iff in Hname. }
      pose proof (getTableParts_build YYYYMMDD Hw (junk ++ prefix p) a (yyyymmdd p)
                    Hjp Ha Hacc) as Hb.
      rewrite append_assoc, <- E, H in Hb. injection Hb as Hb.
      apply (f_equal prefix) in Hb. cbn [prefix] in Hb.
      assert (junk = "").
      { apply (f_equal String.length) in Hb. rewrite length_append in Hb.
        destruct junk; [reflexivity|cbn in Hb; lia]. }
      subst junk. rewrite app_nil in E. rewrite E at 1. f_equal.
      rewrite Hpart. destruct Ha as [-> | ->]; reflexivity.
    + intros [E Hacc]. destruct p as [pre part date]. cbn in *.
      assert (Hpre : without "010" pre = true).
      { rewrite E, without_app in Hname. now apply andb_true_iff in Hname. }
      destruct part; cbn in E; subst name.
      * apply (getTableParts_build YYYYMMDD Hw pre "$" date Hpre); auto.
      * apply (getTableParts_build YYYYMMDD Hw pre "_" date Hpre); auto.
  - unfold getTableParts. intros e. destruct (_ || _); [|discriminate].
    now intros [= <-].
Qed.

Lemma get_table_parts_spec_witness :
  (forall p : tableNameParts,
     getTableParts packedDate "ndt_20170101" = inr p <->
     "ndt_20170101" = prefix p ++ separator (isPartitioned p) ++ yyyymmdd p /\
     accepts packedDate (yyyymmdd p) = true) /\
  (forall e : error,
     getTableParts packedDate "ndt_20170101" = inl e ->
     e = ErrOther ("Invalid template suffix: " ++ "ndt_20170101")).
Proof.
  apply (get_table_parts_spec packedDate "ndt_20170101"); reflexivity.
Defined.

(** What the search finds in a table base without _ and $: nothing. *)
Lemma no_suffix_without_separator (YYYYMMDD : regex) (table : string) :
  Contains table "$" || Contains table "_" = false ->
  FindStringSubmatch (denseDateSuffix YYYYMMDD) table = None.
Proof.
  intros Hc. apply orb_false_iff in Hc. destruct Hc as [H1 H2].
  rewrite Contains_char in H1, H2. apply negb_false_iff in H1, H2.
  destruct (FindStringSubmatch _ table) as [caps|] eqn:E; [|reflexivity].
  unfold FindStringSubmatch in E. apply search_sound in E.
  destruct E as (junk & s0 & s' & -> & Hm). apply dense_match_weak in Hm.
  destruct Hm as (pre & a & date & -> & Ha).
  rewrite !without_app in H1, H2.
  apply andb_true_iff in H1 as [_ H1]. apply andb_true_iff in H1 as [_ H1].
  apply andb_true_iff in H2 as [_ H2]. apply andb_true_iff in H2 as [_ H2].
  unfold without in H1, H2. cbn [all_bytes] in H1, H2.
  destruct Ha as [-> | ->]; [discriminate H2|discriminate H1].
Qed.

(** [getTable] without its second check. *)
Lemma getTable_eq (YYYYMMDD : regex) (project dataset table partition : string) :
  getTable YYYYMMDD project dataset table partition
  = if Contains table "$" || Contains table "_"
    then inl (ErrOther ("Table base must not include _ or $: " ++ table))
    else match getTableParts YYYYMMDD (table ++ "$" ++ partition) with
         | inl err => inl err
         | inr _ => inr (mkTable project dataset (table ++ "$" ++ partition))
         end.
Proof.
  unfold getTable.
  destruct (Contains table "$" || Contains table "_") eqn:Hc; [reflexivity|].
  now rewrite (no_suffix_without_separator YYYYMMDD table Hc).
Qed.

Lemma getTable_inv (YYYYMMDD : regex) (project dataset table partition : string)
    (tbl : Table) :
  getTable YYYYMMDD project dataset table partition = inr tbl ->
  Contains table "$" || Contains table "_" = false /\
  tbl = mkTable project dataset (table ++ "$" ++ partition) /\
  exists parts, getTableParts YYYYMMDD (table ++ "$" ++ partition) = inr parts.
Proof.
  rewrite getTable_eq. destruct (Contains table "$" || Contains table "_");
    [discriminate|].
  destruct (getTableParts YYYYMMDD (table ++ "$" ++ partition)) as [e|parts];
    [discriminate|].
  intros [= <-]. eauto.
Qed.


(** X17. The second check of [getTable] never fires: whatever the date
    expression and the arguments, the error "Table base must not include
    partition or template suffix" is not returned, for a base that holds
    such a suffix has been refused before for its _ or $. The function
    does what it does without this check. *)
Theorem get_table_second_check_is_dead (YYYYMMDD : regex)
    (project dataset table partition : string) :
  getTable YYYYMMDD project dataset table partition
  <> inl (ErrOther ("Table base must not include partition or template suffix: "
                    ++ table)) /\
  getTable YYYYMMDD project dataset table partition
  = if Contains table "$" || Contains table "_"
    then inl (ErrOther ("Table base must not include _ or $: " ++ table))
    else match getTableParts YYYYMMDD (table ++ "$" ++ partition) with
         | inl err => inl err
         | inr _ => inr (mkTable project dataset (table ++ "$" ++ partition))
         end.
Proof.
  split; [|apply getTable_eq]. rewrite getTable_eq.
  destruct (Contains table "$" || Contains table "_").
  - intros [= H]; discriminate H.
  - unfold getTableParts. destruct (_ || _); [|discriminate].
    intros [= H]; discriminate H.
Qed.

(** X18. With a date expression of width 8, a base without a line break
    and a partition that the date expression matches, [getTable] refuses
    the base exactly when it holds _ or $, and otherwise names the table
    <base>$<partition> of the given project and dataset; the parts of
    this name, by [getTableParts], are the base and the partition again,
    of a partitioned table. *)
Theorem get_table_round_trip (YYYYMMDD : regex)
    (project dataset table partition : string) :
  width YYYYMMDD = Some 8 ->
  without "010" table = true -> accepts YYYYMMDD partition = true ->
  getTable YYYYMMDD project dataset table partition
  = (if Contains table "$" || Contains table "_"
     then inl (ErrOther ("Table base must not include _ or $: " ++ table))
     else inr (mkTable project dataset (table ++ "$" ++ partition))) /\
  getTableParts YYYYMMDD (table ++ "$" ++ partition)
  = inr (mkTableNameParts table true partition).
Proof.
  intros Hw Ht Hacc.
  pose proof (getTableParts_build YYYYMMDD Hw table "$" partition Ht
                ltac:(now right) Hacc) as Hp.
  change (String.eqb "$" "$") with true in Hp.
  change (table ++ String "$" partition) with (table ++ "$" ++ partition) in Hp.
  split; [|exact Hp].
  unfold getTable.
  destruct (Contains table "$" || Contains table "_") eqn:Hc; [reflexivity|].
  now rewrite (no_suffix_without_separator YYYYMMDD table Hc), Hp.
Qed.

Lemma get_table_round_trip_witness :
  getTable packedDate "mlab-oti" "base_tables" "ndt" "20170101"
  = (if Contains "ndt" "$" || Contains "ndt" "_"
     then inl (ErrOther ("Table base must not include _ or $: " ++ "ndt"))
     else inr (mkTable "mlab-oti" "base_tables" ("ndt" ++ "$" ++ "20170101"))) /\
  getTableParts packedDate ("ndt" ++ "$" ++ "20170101")
  = inr (mkTableNameParts "ndt" true "20170101").
Proof.
  apply (get_table_round_trip packedDate "mlab-oti" "base_tables" "ndt" "20170101");
    reflexivity.
Defined.

End DedupTablesSpec.

(** ** Package dedup: checking, deduplicating and copying a table *)

Module DedupRunSpec.
Import GoStrings StringFacts Regexp EtlData RegexpComplete GoStringsFacts.
Import Dedup DedupTables DedupTablesSpec DedupRun.
Local Open Scope string_scope.
Local Open Scope Z_scope.

Lemma dedups_app (t1 t2 : list event) : dedups (t1 ++ t2) = (dedups t1 ++ dedups t2)%list.
Proof. apply omap_app. Qed.

Lemma copies_app (t1 t2 : list event) : copies (t1 ++ t2) = (copies t1 ++ copies t2)%list.
Proof. apply omap_app. Qed.

Lemma quiet_app (t1 t2 : list event) : quiet t1 -> quiet t2 -> quiet (t1 ++ t2).
Proof.
  unfold quiet. rewrite dedups_app, copies_app. intros [-> ->] [-> ->]. now split.
Qed.

Lemma quiet_sleeps (l : list Z) : quiet (map EvSleep l).
Proof. induction l as [|d l [IH1 IH2]]; split; cbn; auto. Qed.

Lemma quiet_warnings (l : list warning) : quiet (map (fun x => EvLog [LWarning x]) l).
Proof. induction l as [|d l [IH1 IH2]]; split; cbn; auto. Qed.

Lemma quiet_infos (l : list TableInfo) : quiet (map (fun i => EvLog [LInfo i]) l).
Proof. induction l as [|d l [IH1 IH2]]; split; cbn; auto. Qed.

Section Run.
Context {world : Type} (bq : BigQuery world) (YYYYMMDD : regex).

(** The queries change nothing and always return. *)
Lemma GetTableDetail_inv (table : Table) (w w' : world) r (t : list event) :
  GetTableDetail bq table w = (r, w', t) ->
  quiet t /\ exists d e, r = Ret (d, e).
Proof.
  unfold GetTableDetail, perform, mret, B_ret. intros H.
  repeat case_match; simplify_eq;
    repeat match goal with p : (_ * _)%type |- _ => destruct p end;
    (split; [now split|eauto]).
Qed.

Lemma GetPartitionInfo_inv (table : Table) (w w' : world) r (t : list event) :
  GetPartitionInfo bq YYYYMMDD table w = (r, w', t) ->
  quiet t /\ exists d e, r = Ret (d, e).
Proof.
  unfold GetPartitionInfo, mbind, B_bind, perform, mret, B_ret. intros H.
  repeat case_match; simplify_eq;
    repeat match goal with p : (_ * _)%type |- _ => destruct p end;
    (split; [now split|eauto]).
Qed.

Lemma checkDestOlder_inv (srcInfo : TableInfo) (dest : Table) (w w' : world) r
    (t : list event) :
  checkDestOlder bq YYYYMMDD srcInfo dest w = (r, w', t) ->
  quiet t /\ exists e, r = Ret e.
Proof.
  unfold checkDestOlder, mbind, B_bind, mret, B_ret. intros H.
  destruct (GetPartitionInfo bq YYYYMMDD dest w) as [[r1 w1] t1] eqn:E.
  apply GetPartitionInfo_inv in E. destruct E as [Hq (d & e & ->)].
  repeat case_match; simplify_eq; rewrite app_nil_r; eauto.
Qed.

Lemma checkDetails_logged_inv (s d : Detail) (w w' : world) r (t : list event) :
  checkDetails_logged s d w = (r, w', t) ->
  quiet t /\ w' = w /\ r = Ret (option_map Err (snd (checkDetails s d))).
Proof.
  unfold checkDetails_logged. destruct (checkDetails s d) as [ws e].
  intros [= <- <- <-]. split; [apply quiet_warnings|now split].
Qed.

Lemma wait_inv (polls : list poll) (maxBackoff : Z) (w w' : world) r (t : list event) :
  wait polls maxBackoff w = (r, w', t) -> quiet t /\ forall msg, r <> Panic msg.
Proof.
  unfold wait. destruct (WaitForJob polls maxBackoff) as [sleeps [e|]];
    intros [= <- <- <-]; (split; [apply quiet_sleeps|discriminate]).
Qed.

(** The copy: it is asked for at most once, from the given table to the
    table of the same project that [getTable] names in the destination
    dataset, with the date of the source table. *)
Lemma SanityCheckAndCopy_inv (srcTable : Table) (destDataset destTableName : string)
    (w w' : world) r (t : list event) :
  SanityCheckAndCopy bq YYYYMMDD srcTable destDataset destTableName w = (r, w', t) ->
  dedups t = [] /\ (forall msg, r <> Panic msg) /\
  ((copies t = [] /\ r <> Ret None) \/
   exists parts destTable,
     getTableParts YYYYMMDD (TableID srcTable) = inr parts /\
     getTable YYYYMMDD (ProjectID srcTable) destDataset destTableName (yyyymmdd parts)
     = inr destTable /\
     copies t = [(srcTable, destTable)]).
Proof.
  unfold SanityCheckAndCopy, mbind, B_bind, perform, log, emit, mret, B_ret.
  intros H.
  destruct (getTableParts YYYYMMDD (TableID srcTable)) as [e|parts] eqn:Hp.
  { simplify_eq. split; [reflexivity|]. split; [discriminate|]. left.
    split; [reflexivity|discriminate]. }
  destruct (getTable _ _ _ _ _) as [e|destTable] eqn:Hg.
  { simplify_eq. split; [reflexivity|]. split; [discriminate|]. left.
    split; [reflexivity|discriminate]. }
  destruct (bq_Run bq srcTable destTable w) as [[e|job] w1] eqn:Hrun.
  { simplify_eq. split; [reflexivity|]. split; [discriminate|]. right.
    exists parts, destTable. repeat split; first [reflexivity|assumption]. }
  destruct (wait job (10 * Second) w1) as [[r1 w2] t1] eqn:Hw.
  apply wait_inv in Hw. destruct Hw as [[Hq1 Hq2] Hnp].
  unfold dedups, copies in *.
  destruct r1 as [e|msg|]; simplify_eq.
  - split; [cbn; now rewrite !omap_app, Hq1|]. split; [discriminate|]. right.
    exists parts, destTable. split; [reflexivity|]. split; [assumption|].
    cbn. now rewrite !omap_app, Hq2.
  - now contradiction (Hnp msg).
  - split; [cbn; exact Hq1|]. split; [discriminate|]. right.
    exists parts, destTable. split; [reflexivity|]. split; [assumption|].
    cbn. now rewrite Hq2.
Qed.

Local Ltac reduce H := cbv beta iota zeta in H.

Local Ltac quiet_tac :=
  repeat (apply quiet_app);
  first [assumption | apply quiet_warnings | apply quiet_sleeps | (split; reflexivity)].

Local Ltac finish :=
  unfold quiet, dedups, copies in *;
  repeat match goal with Hx : _ /\ _ |- _ => destruct Hx end;
  cbn; rewrite ?omap_app;
  repeat match goal with Hx : omap _ _ = _ |- _ => rewrite Hx end;
  cbn; rewrite ?app_nil_r.

Local Ltac early H :=
  reduce H; left; injection H as <- <- <-;
  split; [quiet_tac|split; intros; first [discriminate|reflexivity]].

(** What a run of [CheckAndDedup] has done when it ends: nothing to any
    table, or the dedup and then at most the copy, after its checks. *)
Lemma CheckAndDedup_inv (srcDS : Dataset) (srcInfo : TableInfo)
    (destTable : option Table) (options : Options) (w w' : world) r
    (t : list event) :
  CheckAndDedup bq YYYYMMDD srcDS srcInfo destTable options w = (r, w', t) ->
  (quiet t /\ (r = Ret None -> DryRun options = true) /\
   (forall msg, r = Panic msg -> destTable = None)) \/
  exists srcParts destT destParts dedupTable,
    getTableParts YYYYMMDD (Name srcInfo) = inr srcParts /\
    destTable = Some destT /\
    getTableParts YYYYMMDD (TableID destT) = inr destParts /\
    yyyymmdd destParts = yyyymmdd srcParts /\
    DatasetID destT <> ds_DatasetID srcDS /\
    getTable YYYYMMDD (ds_ProjectID srcDS) (ds_DatasetID srcDS)
             (prefix srcParts) (yyyymmdd srcParts) = inr dedupTable /\
    DryRun options = false /\
    dedups t = (if CopyOnly options then [] else [(Name srcInfo, dedupTable)]) /\
    ((copies t = [] /\ r <> Ret None) \/
     exists parts copyDest,
       getTableParts YYYYMMDD (TableID dedupTable) = inr parts /\
       getTable YYYYMMDD (ProjectID dedupTable) (DatasetID destT)
                (prefix destParts) (yyyymmdd parts) = inr copyDest /\
       copies t = [(dedupTable, copyDest)]) /\
    (forall msg, r <> Panic msg).
Proof.
  unfold CheckAndDedup. intros H.
  destruct (getTableParts YYYYMMDD (Name srcInfo)) as [e|srcParts] eqn:Hsrc.
  { early H. }
  unfold mbind, B_bind, perform, log, emit, mret, B_ret, panic in H.
  destruct (bq_Now bq w) as [now w1]. reduce H.
  destruct (Sub now (LastModifiedTime srcInfo) <? MinSrcAge options). { early H. }
  destruct destTable as [destT|]; [|early H].
  destruct (String.eqb_spec (DatasetID destT) (ds_DatasetID srcDS)) as [|Hds].
  { early H. }
  destruct (getTableParts YYYYMMDD (TableID destT)) as [e|destParts] eqn:Hdest.
  { early H. }
  destruct (String.eqb_spec (yyyymmdd destParts) (yyyymmdd srcParts)) as [Hdate|];
    cbn [negb] in H; [|early H].
  destruct (getTable YYYYMMDD _ _ _ _) as [e|dedupTable] eqn:Hdedup. { early H. }
  destruct (String.eqb (DatasetID destT) (DatasetID dedupTable)). { early H. }
  reduce H.
  destruct (bq_Metadata bq _ w1) as [[e|] w2]; reduce H. { early H. }
  assert (Hage : exists ra wa ta,
    (if negb (IgnoreDestAge options)
     then checkDestOlder bq YYYYMMDD srcInfo destT
     else fun w0 : world => (Ret None, w0, [])) w2 = (Ret ra, wa, ta) /\ quiet ta).
  { destruct (negb (IgnoreDestAge options)).
    - destruct (checkDestOlder bq YYYYMMDD srcInfo destT w2) as [[ra wa] ta] eqn:E.
      apply checkDestOlder_inv in E. destruct E as [Hq [e ->]]. eauto.
    - eexists _, _, _. split; [reflexivity|]. now split. }
  destruct Hage as (ra & wa & ta & Ea & Hqa). rewrite Ea in H. reduce H.
  destruct ra as [e|]. { early H. }
  destruct (GetTableDetail bq (Table_of srcDS (Name srcInfo)) wa)
    as [[rs ws] ts] eqn:Es.
  apply GetTableDetail_inv in Es. destruct Es as [Hqs (sd & e & ->)]. reduce H.
  destruct e as [e|]. { early H. }
  destruct (GetTableDetail bq destT ws) as [[rd wd] td] eqn:Ed.
  apply GetTableDetail_inv in Ed. destruct Ed as [Hqd (dd & e & ->)]. reduce H.
  destruct e as [e|]. { early H. }
  destruct (checkDetails_logged sd dd wd) as [[rc wc] tc] eqn:Ec.
  apply checkDetails_logged_inv in Ec. destruct Ec as (Hqc & -> & ->). reduce H.
  destruct (option_map Err (snd (checkDetails sd dd))) as [e|]. { early H. }
  destruct (DryRun options) eqn:Hdry.
  { reduce H. left. injection H as <- <- <-.
    split; [quiet_tac|split; [reflexivity|discriminate]]. }
  right. exists srcParts, destT, destParts, dedupTable.
  do 7 (split; [first [reflexivity|assumption]|]).
  match type of H with
  | context [(if negb (CopyOnly options) then ?f else ?g) wd] =>
      remember ((if negb (CopyOnly options) return (B (option bqerror))
                 then f else g) wd) as x eqn:Edd in H
  end.
  symmetry in Edd. destruct x as [[rdd0 wdd] tdd].
  assert (Hded : (exists a, rdd0 = Ret a) /\
    dedups tdd = (if CopyOnly options then [] else [(Name srcInfo, dedupTable)]) /\
    copies tdd = []).
  { destruct (CopyOnly options); cbn [negb] in Edd.
    - injection Edd as <- <- <-. split; [eauto|now split].
    - destruct (bq_Dedup bq _ _ _ wd) as [a w3]. injection Edd as <- <- <-.
      split; [eauto|now split]. }
  destruct Hded as ([rdd ->] & Hdd & Hdc). reduce H.
  destruct rdd as [e|].
  { reduce H. injection H as <- <- <-. finish.
    split; [reflexivity|]. split; [|discriminate].
    left. split; [reflexivity|discriminate]. }
  reduce H.
  destruct (GetTableDetail bq dedupTable wdd) as [[ru wu] tu] eqn:Eu.
  apply GetTableDetail_inv in Eu. destruct Eu as [[Hqu1 Hqu2] (ud & e & ->)]. reduce H.
  destruct e as [e|].
  { reduce H. injection H as <- <- <-. finish.
    split; [reflexivity|]. split; [|discriminate].
    left. split; [reflexivity|discriminate]. }
  reduce H.
  destruct (checkDetails_logged ud dd wu) as [[rc2 wc2] tc2] eqn:Ec2.
  apply checkDetails_logged_inv in Ec2. destruct Ec2 as ([Hqc1 Hqc2] & -> & ->).
  reduce H.
  destruct (option_map Err (snd (checkDetails ud dd))) as [e|].
  { reduce H. injection H as <- <- <-. finish.
    split; [reflexivity|]. split; [|discriminate].
    left. split; [reflexivity|discriminate]. }
  reduce H.
  destruct (SanityCheckAndCopy bq YYYYMMDD dedupTable (DatasetID destT)
              (prefix destParts) wu) as [[rr wr] tr] eqn:Er.
  apply SanityCheckAndCopy_inv in Er. destruct Er as (Hrd & Hnp & Hcopy).
  assert (Hfin : exists t0, t = (EvNow :: EvMetadata (Table_of srcDS (Name srcInfo)) ::
                      ta ++ ts ++ td ++ tc ++ tdd ++ tu ++ tc2 ++ t0)%list /\
                     dedups t0 = [] /\ copies t0 = copies tr /\ r = rr).
  { destruct rr; reduce H; injection H as <- <- <-.
    - exists tr. now rewrite ?app_nil_r.
    - now contradiction (Hnp msg).
    - exists tr. now rewrite ?app_nil_r. }
  destruct Hfin as (t0 & -> & Ht0d & Ht0c & ->). clear H.
  destruct Hcopy as [[Hc Hr]|(parts & copyDest & Hp & Hg & Hc)].
  - finish. split; [reflexivity|]. split; [|assumption]. left. now split.
  - finish. split; [reflexivity|]. split; [|assumption].
    right. exists parts, copyDest. now repeat split.
Qed.

(** The requests made before the first query: none but reading the
    clock and the log. *)
Lemma CheckAndDedup_base_refused (srcDS : Dataset) (srcInfo : TableInfo)
    (destTable : option Table) (options : Options) (w w' : world) r
    (t : list event) (srcParts : tableNameParts) :
  CheckAndDedup bq YYYYMMDD srcDS srcInfo destTable options w = (r, w', t) ->
  getTableParts YYYYMMDD (Name srcInfo) = inr srcParts ->
  Contains (prefix srcParts) "$" || Contains (prefix srcParts) "_" = true ->
  requests t = [] /\ r <> Ret None.
Proof.
  unfold CheckAndDedup. intros H Hsrc Hc. rewrite Hsrc in H.
  unfold mbind, B_bind, perform, log, emit, mret, B_ret, panic in H.
  destruct (bq_Now bq w) as [now w1]. reduce H.
  destruct (Sub now (LastModifiedTime srcInfo) <? MinSrcAge options).
  { reduce H. injection H as <- <- <-. split; [reflexivity|discriminate]. }
  destruct destTable as [destT|];
    [|reduce H; injection H as <- <- <-; split; [reflexivity|discriminate]].
  destruct (String.eqb (DatasetID destT) (ds_DatasetID srcDS)).
  { reduce H. injection H as <- <- <-. split; [reflexivity|discriminate]. }
  destruct (getTableParts YYYYMMDD (TableID destT)) as [e|destParts].
  { reduce H. injection H as <- <- <-. split; [reflexivity|discriminate]. }
  destruct (negb (String.eqb (yyyymmdd destParts) (yyyymmdd srcParts))).
  { reduce H. injection H as <- <- <-. split; [reflexivity|discriminate]. }
  rewrite getTable_eq, Hc in H. reduce H. injection H as <- <- <-.
  split; [reflexivity|discriminate].
Qed.

End Run.




(** X20. What a run of [CheckAndDedup] leaves behind. A dry run asks for
    no deduplication and no copy. A run never asks for more than one
    deduplication, and for none with CopyOnly. A run that is no dry run
    returns nil only after it has asked for its copy; and the only way to
    panic is a nil destination table. *)
Theorem check_and_dedup_changes {world : Type} (bq : BigQuery world)
    (YYYYMMDD : regex) (srcDS : Dataset) (srcInfo : TableInfo)
    (destTable : option Table) (options : Options) (w : world) :
  let r := fst (fst (CheckAndDedup bq YYYYMMDD srcDS srcInfo destTable options w)) in
  let t := snd (CheckAndDedup bq YYYYMMDD srcDS srcInfo destTable options w) in
  (DryRun options = true -> dedups t = [] /\ copies t = []) /\
  (CopyOnly options = true -> dedups t = []) /\
  (length (dedups t) <= 1)%nat /\ (length (copies t) <= 1)%nat /\
  (copies t <> [] -> CopyOnly options = false -> dedups t <> []) /\
  (r = Ret None -> DryRun options = false -> length (copies t) = 1%nat) /\
  (forall msg, r = Panic msg -> destTable = None).
Proof.
  intros r t.
  destruct (CheckAndDedup bq YYYYMMDD srcDS srcInfo destTable options w)
    as [[r0 w'] t0] eqn:H.
  cbn [fst snd] in r, t. subst r t.
  apply CheckAndDedup_inv in H.
  destruct H as [[[Hd Hc] [Hnil Hpanic]]|H].
  - rewrite Hd, Hc. cbn. repeat split; try lia; try congruence.
    + intros Hr Hdry. rewrite (Hnil Hr) in Hdry. discriminate.
    + exact Hpanic.
  - destruct H as (srcParts & destT & destParts & dedupTable & Hsrc & -> & Hdest &
                   Hdate & Hds & Hdedup & Hdry & Hdd & Hcopy & Hnp).
    rewrite Hdd, Hdry.
    assert (Hp' : forall msg, r0 = Panic msg -> Some destT = None)
      by (intros msg Hm; now contradiction (Hnp msg)).
    destruct Hcopy as [[Hc Hr]|(parts & copyDest & Hp & Hg & Hc)]; rewrite Hc;
      destruct (CopyOnly options); cbn; repeat split; try lia; try congruence;
      try discriminate; try exact Hp'; intros; try congruence.
Qed.

(** *** A dry run and the run it stands for *)

Section DryRun.
Context {world : Type} (bq : BigQuery world) (YYYYMMDD : regex).

Lemma goes_on_same (x : result (option bqerror) * world * list event) :
  fst (fst x) <> Ret None -> goes_on x x.
Proof. intros H. split; [reflexivity|]. intros Hx. now contradiction H. Qed.

(** Two runs that start with the same step. *)
Lemma goes_on_bind {A : Type} (m : B A) (f1 f2 : A -> B (option bqerror)) (w : world) :
  (forall a w1, goes_on (f1 a w1) (f2 a w1)) ->
  goes_on (B_bind _ _ f1 m w) (B_bind _ _ f2 m w).
Proof.
  intros Hf. unfold B_bind. destruct (m w) as [[[a|msg|] w1] t1].
  - specialize (Hf a w1). destruct (f1 a w1) as [[r1 w2] t2].
    destruct (f2 a w1) as [[r2 w3] t3]. destruct Hf as [H1 H2]. cbn in *. split.
    + intros Hr. now injection (H1 Hr) as -> -> ->.
    + intros Hr. destruct (H2 Hr) as (pre & line & rest & -> & ->).
      exists (t1 ++ pre)%list, line, rest. now rewrite !app_assoc.
  - apply goes_on_same. discriminate.
  - apply goes_on_same. discriminate.
Qed.

Lemma dry_run_goes_on (srcDS : Dataset) (srcInfo : TableInfo)
    (destTable : option Table) (o : Options) (w : world) :
  goes_on (CheckAndDedup bq YYYYMMDD srcDS srcInfo destTable (withDryRun true o) w)
          (CheckAndDedup bq YYYYMMDD srcDS srcInfo destTable (withDryRun false o) w).
Proof.
  unfold CheckAndDedup, withDryRun. cbn [MinSrcAge IgnoreDestAge DryRun CopyOnly].
  unfold mbind, mret, B_ret, log, emit, panic.
  destruct (getTableParts YYYYMMDD (Name srcInfo)) as [e|srcParts];
    [apply goes_on_same; discriminate|].
  apply goes_on_bind. intros now w1.
  destruct (Sub now (LastModifiedTime srcInfo) <? MinSrcAge o);
    [apply goes_on_same; discriminate|].
  destruct destTable as [destT|]; [|apply goes_on_same; discriminate].
  destruct (String.eqb (DatasetID destT) (ds_DatasetID srcDS));
    [apply goes_on_same; discriminate|].
  destruct (getTableParts YYYYMMDD (TableID destT)) as [e|destParts];
    [apply goes_on_same; discriminate|].
  destruct (negb (String.eqb (yyyymmdd destParts) (yyyymmdd srcParts)));
    [apply goes_on_same; discriminate|].
  destruct (getTable YYYYMMDD _ _ _ _) as [e|dedupTable];
    [apply goes_on_same; discriminate|].
  destruct (String.eqb (DatasetID destT) (DatasetID dedupTable));
    [apply goes_on_same; discriminate|].
  apply goes_on_bind. intros [e|] w2; [apply goes_on_same; discriminate|].
  apply goes_on_bind. intros [e|] w3; [apply goes_on_same; discriminate|].
  apply goes_on_bind. intros [sd [e|]] w4; [apply goes_on_same; discriminate|].
  apply goes_on_bind. intros [dd [e|]] w5; [apply goes_on_same; discriminate|].
  apply goes_on_bind. intros [e|] w6; [apply goes_on_same; discriminate|].
  split; [intros H; now contradiction H|]. intros _.
  exists [], [LText "Dedup dry run:"; LText (Name srcInfo); LText "test_id";
              LTable dedupTable]. eexists. split; reflexivity.
Qed.

End DryRun.

(** X21. A dry run is faithful to the run it stands for. From the same
    state of BigQuery and with the same other options: when the dry run
    does not return nil, the run without DryRun does exactly the same
    (the same requests, the same result); when the dry run returns nil,
    the run without DryRun starts with all the events of the dry run but
    its last, the line logged, and goes on from there. *)
Theorem dry_run_is_faithful {world : Type} (bq : BigQuery world)
    (YYYYMMDD : regex) (srcDS : Dataset) (srcInfo : TableInfo)
    (destTable : option Table) (o : Options) (w : world) :
  let dry := CheckAndDedup bq YYYYMMDD srcDS srcInfo destTable (withDryRun true o) w in
  let real := CheckAndDedup bq YYYYMMDD srcDS srcInfo destTable (withDryRun false o) w in
  (fst (fst dry) <> Ret None -> real = dry) /\
  (fst (fst dry) = Ret None ->
   exists pre line rest,
     snd dry = (pre ++ [EvLog line])%list /\ snd real = (pre ++ rest)%list /\
     dedups pre = [] /\ copies pre = []).
Proof.
  intros dry real.
  destruct (dry_run_goes_on bq YYYYMMDD srcDS srcInfo destTable o w) as [H1 H2].
  fold dry real in H1, H2. split; [exact H1|].
  intros Hr. destruct (H2 Hr) as (pre & line & rest & Hd & Hx).
  exists pre, line, rest. split; [exact Hd|]. split; [exact Hx|].
  destruct dry as [[r1 w1] t1] eqn:E. cbn [snd] in Hd. subst t1.
  apply CheckAndDedup_inv in E. destruct E as [[[Hqd Hqc] _]|E].
  - rewrite dedups_app in Hqd. rewrite copies_app in Hqc.
    apply app_eq_nil in Hqd, Hqc. tauto.
  - destruct E as (? & ? & ? & ? & _ & _ & _ & _ & _ & _ & Hdry & _). discriminate.
Qed.

(** X22. Bases with an underscore. A source table whose base (the name
    before the separator and the date) holds _ or $, such as
    ndt_v2_20170101, is refused by [CheckAndDedup] before any request to
    BigQuery. A destination table whose base holds _ or $ is never copied
    to, and a run for it that is no dry run never returns nil. *)
Theorem check_and_dedup_underscore_base {world : Type} (bq : BigQuery world)
    (YYYYMMDD : regex) (srcDS : Dataset) (srcInfo : TableInfo)
    (destT : Table) (options : Options) (w : world)
    (srcParts destParts : tableNameParts) :
  getTableParts YYYYMMDD (Name srcInfo) = inr srcParts ->
  getTableParts YYYYMMDD (TableID destT) = inr destParts ->
  let r := fst (fst (CheckAndDedup bq YYYYMMDD srcDS srcInfo (Some destT) options w)) in
  let t := snd (CheckAndDedup bq YYYYMMDD srcDS srcInfo (Some destT) options w) in
  (Contains (prefix srcParts) "$" || Contains (prefix srcParts) "_" = true ->
   requests t = [] /\ r <> Ret None) /\
  (Contains (prefix destParts) "$" || Contains (prefix destParts) "_" = true ->
   copies t = [] /\ (DryRun options = false -> r <> Ret None)).
Proof.
  intros Hsrc Hdest r t.
  destruct (CheckAndDedup bq YYYYMMDD srcDS srcInfo (Some destT) options w)
    as [[r0 w'] t0] eqn:H.
  cbn [fst snd] in r, t. subst r t. split.
  - intros Hc. exact (CheckAndDedup_base_refused bq YYYYMMDD _ _ _ _ _ _ _ _ _ H Hsrc Hc).
  - intros Hc. apply CheckAndDedup_inv in H.
    destruct H as [[[_ Hq] [Hnil _]]|H].
    + split; [exact Hq|]. intros Hdry Hr. rewrite (Hnil Hr) in Hdry. discriminate.
    + destruct H as (srcParts' & destT' & destParts' & dedupTable & _ & [= <-] & Hdest' &
                     _ & _ & _ & _ & _ & Hcopy & _).
      rewrite Hdest in Hdest'. injection Hdest' as <-.
      destruct Hcopy as [[Hc0 Hr]|(parts & copyDest & _ & Hg & _)]; [now split|].
      apply getTable_inv in Hg. destruct Hg as (Hg & _). rewrite Hg in Hc. discriminate.
Qed.

Lemma check_and_dedup_underscore_base_witness :
  let bq := mkBigQuery (world := unit)
      (fun w => (1000, w)) (fun _ w => (inr [], w)) (fun _ w => (None, w))
      (fun _ _ w => (inl IteratorDone, w))
      (fun _ _ _ w => (mkDetail "" 100 1000, None, w))
      (fun _ _ _ w => (None, w))
      (fun _ _ w => (inr [inr (Finished None)], w)) in
  let srcDS := mkDataset "mlab-oti" "batch" in
  let srcInfo := mkTableInfo "ndt_v2_20170101" false 0 0 0 0 in
  let destT := mkTable "mlab-oti" "base_tables" "ndt_v2$20170101" in
  let options := mkOptions 10 false false false in
  let r := fst (fst (CheckAndDedup bq packedDate srcDS srcInfo (Some destT) options tt)) in
  let t := snd (CheckAndDedup bq packedDate srcDS srcInfo (Some destT) options tt) in
  (Contains "ndt_v2" "$" || Contains "ndt_v2" "_" = true ->
   requests t = [] /\ r <> Ret None) /\
  (Contains "ndt_v2" "$" || Contains "ndt_v2" "_" = true ->
   copies t = [] /\ (DryRun options = false -> r <> Ret None)).
Proof.
  intros bq srcDS srcInfo destT options.
  apply (check_and_dedup_underscore_base bq packedDate srcDS srcInfo destT options tt
           (mkTableNameParts "ndt_v2" false "20170101")
           (mkTableNameParts "ndt_v2" true "20170101")); reflexivity.
Defined.

(** A destination base with an underscore is found out late: the
    deduplication has been asked for when the copy is refused. *)
Example dedup_done_before_copy_refused :
  let bq := mkBigQuery (world := unit)
      (fun w => (1000, w)) (fun _ w => (inr [], w)) (fun _ w => (None, w))
      (fun _ _ w => (inl IteratorDone, w))
      (fun _ _ _ w => (mkDetail "" 100 1000, None, w))
      (fun _ _ _ w => (None, w))
      (fun _ _ w => (inr [inr (Finished None)], w)) in
  let srcDS := mkDataset "mlab-oti" "batch" in
  let srcInfo := mkTableInfo "ndt_20170101" false 0 0 0 0 in
  let destT := mkTable "mlab-oti" "base_tables" "ndt_v2$20170101" in
  let options := mkOptions 10 false false false in
  let run := CheckAndDedup bq packedDate srcDS srcInfo (Some destT) options tt in
  fst (fst run)
  = Ret (Some (Err (ErrOther "Table base must not include _ or $: ndt_v2"))) /\
  dedups (snd run) = [("ndt_20170101", mkTable "mlab-oti" "batch" "ndt$20170101")] /\
  copies (snd run) = [].
Proof. vm_compute. repeat split. Qed.

(** *** All the tables of a pattern *)

Lemma requests_app (t1 t2 : list event) :
  requests (t1 ++ t2) = (requests t1 ++ requests t2)%list.
Proof. apply List.filter_app. Qed.

Section Process.
Context {world : Type} (bq : BigQuery world) (YYYYMMDD : regex).
Variables (dsExt : Dataset) (destDataset destBase : string) (options : Options).

(** One round of the loop. *)
Lemma processTables_cons (srcInfo : TableInfo) (rest : list TableInfo) (w : world) :
  processTables bq YYYYMMDD dsExt destDataset destBase options (srcInfo :: rest) w
  = let '(now, w1) := bq_Now bq w in
    if Sub now (LastModifiedTime srcInfo) <? MinSrcAge options
    then let '(r, w2, t2) :=
           processTables bq YYYYMMDD dsExt destDataset destBase options rest w1 in
         (r, w2, EvNow :: t2)
    else match getTableParts YYYYMMDD (Name srcInfo) with
         | inl err => (Ret (Some (Err err)), w1, [EvNow])
         | inr parts =>
             let destTable :=
               match getTable YYYYMMDD (ds_ProjectID dsExt) destDataset destBase
                              (yyyymmdd parts) with
               | inr t => Some t
               | inl _ => None
               end in
             match CheckAndDedup bq YYYYMMDD dsExt srcInfo destTable options w1 with
             | (Ret (Some e), w2, t1) =>
                 (Ret (Some e), w2,
                  EvNow :: t1 ++
                  [EvLog [LErr e; LText "dedupping";
                          LText (ds_DatasetID dsExt ++ "." ++ Name srcInfo);
                          LText "to"; LText (destDataset ++ "." ++ destBase)]])
             | (Ret None, w2, t1) =>
                 let '(r, w3, t2) :=
                   processTables bq YYYYMMDD dsExt destDataset destBase options rest w2 in
                 (r, w3, EvNow :: t1 ++ t2)
             | (Panic msg, w2, t1) => (Panic msg, w2, EvNow :: t1)
             | (Waiting, w2, t1) => (Waiting, w2, EvNow :: t1)
             end
         end.
Proof.
  cbn [processTables]. unfold mbind, B_bind, perform, log, emit, mret, B_ret.
  destruct (bq_Now bq w) as [now w1].
  destruct (Sub now (LastModifiedTime srcInfo) <? MinSrcAge options).
  { now destruct (processTables _ _ _ _ _ _ rest w1) as [[r w2] t2]. }
  destruct (getTableParts YYYYMMDD (Name srcInfo)) as [e|parts]; [reflexivity|].
  cbv zeta.
  destruct (CheckAndDedup bq YYYYMMDD dsExt srcInfo _ options w1)
    as [[[[e|]|msg|] w2] t1]; try reflexivity.
  destruct (processTables _ _ _ _ _ _ rest w2) as [[r w3] t2]. reflexivity.
Qed.

Hypothesis Hwidth : width YYYYMMDD = Some 8%nat.
Hypothesis Hbase : without "010" destBase = true.


End Process.



Section BadBase.
Context {world : Type} (bq : BigQuery world) (YYYYMMDD : regex).
Variables (dsExt : Dataset) (destDataset destBase : string) (options : Options).

(** A nil destination table: an error or a panic, and no request. *)
Lemma CheckAndDedup_nil (srcInfo : TableInfo) (w w' : world) r (t : list event) :
  CheckAndDedup bq YYYYMMDD dsExt srcInfo None options w = (r, w', t) ->
  requests t = [] /\ quiet t /\ r <> Ret None /\ r <> Waiting.
Proof.
  unfold CheckAndDedup. intros H.
  destruct (getTableParts YYYYMMDD (Name srcInfo)) as [e|srcParts].
  { injection H as <- <- <-. repeat split; discriminate. }
  unfold mbind, B_bind, perform, mret, B_ret, panic in H.
  destruct (bq_Now bq w) as [now w1]. cbv beta iota zeta in H.
  destruct (Sub now (LastModifiedTime srcInfo) <? MinSrcAge options);
    cbv beta iota zeta in H; injection H as <- <- <-; repeat split; discriminate.
Qed.

Hypothesis Hbad : Contains destBase "$" || Contains destBase "_" = true.

Lemma processTables_bad (info : list TableInfo) : forall (w w' : world) r t,
  processTables bq YYYYMMDD dsExt destDataset destBase options info w = (r, w', t) ->
  requests t = [] /\ quiet t /\ r <> Waiting /\
  (r = Ret None -> t = repeat EvNow (length info)).
Proof.
  induction info as [|srcInfo rest IH]; intros w w' r t H.
  { cbn in H. injection H as <- <- <-. repeat split. discriminate. }
  rewrite processTables_cons in H.
  destruct (bq_Now bq w) as [now w1].
  destruct (Sub now (LastModifiedTime srcInfo) <? MinSrcAge options).
  { destruct (processTables _ _ _ _ _ _ rest w1) as [[r2 w2] t2] eqn:E.
    injection H as <- <- <-. destruct (IH _ _ _ _ E) as (Hr & [Hd Hc] & Hw & Hn).
    split; [exact Hr|]. split; [split; assumption|]. split; [exact Hw|].
    intros Hx. cbn. now rewrite (Hn Hx). }
  destruct (getTableParts YYYYMMDD (Name srcInfo)) as [e|parts].
  { injection H as <- <- <-. repeat split; discriminate. }
  rewrite getTable_eq, Hbad in H. cbv zeta in H.
  destruct (CheckAndDedup bq YYYYMMDD dsExt srcInfo None options w1)
    as [[r1 w2] t1] eqn:E1.
  apply CheckAndDedup_nil in E1. destruct E1 as (Hr & [Hd Hc] & Hnil & Hwait).
  destruct r1 as [[e|]|msg|]; try (now contradiction Hnil); try (now contradiction Hwait);
    injection H as <- <- <-.
  - change (EvNow :: t1 ++ ?p)%list with ([EvNow] ++ t1 ++ p)%list.
    rewrite !requests_app, Hr. unfold quiet. rewrite !dedups_app, !copies_app, Hd, Hc.
    repeat split; discriminate.
  - change (EvNow :: t1)%list with ([EvNow] ++ t1)%list.
    rewrite !requests_app, Hr. unfold quiet. rewrite !dedups_app, !copies_app, Hd, Hc.
    repeat split; discriminate.
Qed.

End BadBase.

(** X24. A destination base with _ or $ in [ProcessTablesMatching].
    [getTable] refuses such a base, its error is dropped, and the nil
    table goes to [CheckAndDedup]: the run asks BigQuery for nothing but
    the list of tables, changes no table, and returns nil only when it
    has skipped every table of the list as too recent, having done
    nothing else than read the clock once for each. *)
Theorem process_tables_bad_dest_base {world : Type} (bq : BigQuery world)
    (YYYYMMDD : regex) (dsExt : Dataset)
    (srcPattern destDataset destBase : string) (options : Options)
    (w w' : world) (r : result (option bqerror)) (t : list event) :
  Contains destBase "$" || Contains destBase "_" = true ->
  ProcessTablesMatching bq YYYYMMDD dsExt srcPattern destDataset destBase options w
  = (r, w', t) ->
  dedups t = [] /\ copies t = [] /\
  (requests t = [] \/ requests t = [EvTables srcPattern]) /\
  r <> Waiting /\
  (r = Ret None ->
   exists info,
     fst (bq_Tables bq srcPattern w) = inr info /\
     t = (EvTables srcPattern ::
          EvLog [LText "Examining"; LCount (length info); LText "source tables"] ::
          map (fun i => EvLog [LInfo i]) info ++ repeat EvNow (length info))%list).
Proof.
  intros Hbad H. unfold ProcessTablesMatching in H.
  destruct (negb _).
  { injection H as <- <- <-. repeat split; try discriminate. now left. }
  unfold mbind, B_bind, perform, log, emit, mret, B_ret in H.
  destruct (bq_Tables bq srcPattern w) as [[e|info] w1] eqn:Ht.
  { injection H as <- <- <-. repeat split; try discriminate. now right. }
  cbv beta iota zeta in H.
  destruct (processTables bq YYYYMMDD dsExt destDataset destBase options info w1)
    as [[r2 w2] t2] eqn:E.
  apply (processTables_bad bq YYYYMMDD dsExt destDataset destBase options Hbad) in E.
  destruct E as (Hr & [Hd Hc] & Hw & Hn).
  injection H as <- <- <-.
  destruct (quiet_infos info) as [Hqd Hqc].
  assert (Hreq : requests (map (fun i => EvLog [LInfo i]) info) = []).
  { clear. induction info as [|i l IH]; [reflexivity|exact IH]. }
  change (EvTables srcPattern :: ?a :: ?l ++ t2)%list
    with ([EvTables srcPattern; a] ++ l ++ t2)%list.
  rewrite !dedups_app, !copies_app, !requests_app, Hd, Hc, Hr, Hqd, Hqc, Hreq.
  split; [reflexivity|]. split; [reflexivity|]. split; [now right|].
  split; [exact Hw|]. intros Hx. exists info. split; [reflexivity|].
  now rewrite (Hn Hx).
Qed.

Lemma process_tables_bad_dest_base_witness :
  let bq := mkBigQuery (world := unit)
      (fun w => (1000, w))
      (fun _ w => (inr [mkTableInfo "ndt_20170101" false 0 0 0 0], w))
      (fun _ w => (None, w))
      (fun _ _ w => (inl IteratorDone, w))
      (fun _ _ _ w => (mkDetail "" 100 1000, None, w))
      (fun _ _ _ w => (None, w))
      (fun _ _ w => (inr [inr (Finished None)], w)) in
  let dsExt := mkDataset "mlab-oti" "batch" in
  let options := mkOptions 10 false false false in
  let run := ProcessTablesMatching bq packedDate dsExt "ndt_" "base_tables" "ndt_v2"
               options tt in
  dedups (snd run) = [] /\ copies (snd run) = [] /\
  (requests (snd run) = [] \/ requests (snd run) = [EvTables "ndt_"]) /\
  fst (fst run) <> Waiting /\
  (fst (fst run) = Ret None ->
   exists info,
     fst (bq_Tables bq "ndt_" tt) = inr info /\
     snd run
     = (EvTables "ndt_" ::
        EvLog [LText "Examining"; LCount (length info); LText "source tables"] ::
        map (fun i => EvLog [LInfo i]) info ++ repeat EvNow (length info))%list).
Proof.
  intros bq dsExt options run.
  apply (process_tables_bad_dest_base bq packedDate dsExt "ndt_" "base_tables" "ndt_v2"
           options tt (snd (fst run)) (fst (fst run)) (snd run)).
  - reflexivity.
  - vm_compute. reflexivity.
Defined.

(** With such a base, the first table that is old enough and has a name
    with a date makes the run panic. *)
Example process_tables_panics :
  let bq := mkBigQuery (world := unit)
      (fun w => (1000, w))
      (fun _ w => (inr [mkTableInfo "ndt_20170101" false 0 0 0 0], w))
      (fun _ w => (None, w))
      (fun _ _ w => (inl IteratorDone, w))
      (fun _ _ _ w => (mkDetail "" 100 1000, None, w))
      (fun _ _ _ w => (None, w))
      (fun _ _ w => (inr [inr (Finished None)], w)) in
  fst (fst (ProcessTablesMatching bq packedDate (mkDataset "mlab-oti" "batch")
              "ndt_" "base_tables" "ndt_v2" (mkOptions 10 false false false) tt))
  = Panic "runtime error: invalid memory address or nil pointer dereference".
Proof. vm_compute. reflexivity. Qed.

End DedupRunSpec.
